(** * Protein structure graphs: construction and derivation

    A shallow embedding of [graphein/protein/graphs.py] (with the residue
    table of [graphein/protein/resi_atoms.py]) and the properties of its
    granularity reducer, graph assembler, graph deriver and batch executor.

    Conventions of the embedding:
    - a pandas [DataFrame] is the list of its rows in index order; the
      functions below always work on a fresh [RangeIndex], so the index of a
      row is its position;
    - [float64] values are kept abstract ([Floats]): the code only moves them
      around and takes group means, which is an operation of the class;
    - Python objects that are shared and mutated (the graph-level metadata
      dict, the [kind] sets of edges) live in a [store] and are named by
      locations; everything else is passed by value;
    - a Python call that may raise returns a [result]; functions that touch
      the store are in the state-and-exception monad [M]. *)

From Stdlib Require Import QArith Qcanon.
From stdpp Require Import gmap strings list fin_maps functions pretty sorting numbers.

Close Scope Qc_scope.
Close Scope Q_scope.
Open Scope string_scope.
Open Scope list_scope.

(** ** Exceptions and results *)

Inductive exn :=
  | AssertionError (msg : string)
  | KeyError (key : string)
  | IndexError
  | TypeError
  | AttributeError
  | ProteinGraphConfigurationError (msg : string)
  | External (what : string).

Inductive result (A : Type) :=
  | Ok (a : A)
  | Raise (e : exn).
Arguments Ok {A} a.
Arguments Raise {A} e.

#[global] Instance result_ret : MRet result := fun A a => Ok a.
#[global] Instance result_bind : MBind result := fun A B f r =>
  match r with Ok a => f a | Raise e => Raise e end.
#[global] Instance result_fmap : FMap result := fun A B f r =>
  match r with Ok a => Ok (f a) | Raise e => Raise e end.

(** What a collaborator outside this module hands back: a value, or an error
    of its own, which surfaces as [External]. *)
Definition lift_ext {A} (r : string + A) : result A :=
  match r with inl e => Raise (External e) | inr a => Ok a end.

(** Python truthiness of an [Optional[str]]: [None] and the empty string are
    false. *)
Definition truthy (o : option string) : bool :=
  match o with
  | Some s => negb (String.eqb s "")
  | None => false
  end.

(** ** [number_groups_of_runs] *)

Section runs.
Context {A : Type} `{EqDecision A}.
(** [str] is Python's [str()] on the values ([astype(str)]). *)
Variable str : A → string.

(** [df["val"].shift()]: every value moves one row down, the first row
    gets the missing value. *)
Definition shift (l : list A) : list (option A) :=
  take (length l) (None :: (Some <$> l)).

(** [df["val"].shift() != df["val"]], row by row. *)
Definition run_starts (l : list A) : list bool :=
  zip_with (fun p v => bool_decide (p ≠ Some v)) (shift l) l.

(** [df.groupby("val")["idx"].cumsum()]: the running sum of the boolean
    column within the rows of each value, returned in row order. *)
Fixpoint group_cumsum (acc : A → nat) (rows : list (A * bool)) : list nat :=
  match rows with
  | [] => []
  | (v, b) :: rest =>
      let s := acc v + (if b then 1 else 0) in
      s :: group_cumsum (<[v := s]> acc) rest
  end.

Definition number_groups_of_runs (list_of_values : list A) : list string :=
  let val := list_of_values in
  let idx := run_starts val in
  let sum := group_cumsum (fun _ => 0) (zip val idx) in
  zip_with (fun v s => str v +:+ pretty s) val sum.

(** The segmentation in the words of the specification: walk the list in
    order, keeping the previous label and one counter per label; the
    counter of a label goes up by one when the label differs from the
    immediately preceding one and otherwise stays as it is; the element
    gets its label followed by that counter. *)
Fixpoint segment_walk (prev : option A) (counter : A → nat) (l : list A)
  : list string :=
  match l with
  | [] => []
  | v :: rest =>
      let c := if decide (prev = Some v) then counter v else S (counter v) in
      (str v +:+ pretty c) :: segment_walk (Some v) (<[v := c]> counter) rest
  end.

Definition segment_ids_spec (l : list A) : list string :=
  segment_walk None (fun _ => 0) l.
End runs.

(** ** Record tables *)

(** [float64] as far as the code uses it: the missing value and the mean of a
    column ([DataFrame.mean]). *)
Class Floats (F : Type) := {
  nan : F;
  mean : list F → F;
}.

Record row (F : Type) := Row {
  chain_id : string;
  residue_name : string;
  residue_number : Z;
  insertion : string;
  alt_loc : string;
  atom_name : string;
  element_symbol : string;
  x_coord : F;
  y_coord : F;
  z_coord : F;
  b_factor : F;
  node_id : string;
}.
Arguments Row {F}.
Arguments chain_id {F} _.
Arguments residue_name {F} _.
Arguments residue_number {F} _.
Arguments insertion {F} _.
Arguments alt_loc {F} _.
Arguments atom_name {F} _.
Arguments element_symbol {F} _.
Arguments x_coord {F} _.
Arguments y_coord {F} _.
Arguments z_coord {F} _.
Arguments b_factor {F} _.
Arguments node_id {F} _.

(** The object returned by the structure reader: its [df["ATOM"]] and
    [df["HETATM"]] tables. *)
Record pandas_pdb (F : Type) := PandasPdb {
  ATOM : list (row F);
  HETATM : list (row F);
}.
Arguments PandasPdb {F}.
Arguments ATOM {F} _.
Arguments HETATM {F} _.

(** [Series.unique()]: the distinct values in order of first appearance. *)
Definition pd_unique {A} `{EqDecision A} (l : list A) : list A :=
  foldl (fun acc x => if decide (x ∈ acc) then acc else acc ++ [x]) [] l.

Section tables.
Context {F : Type} `{!Floats F}.
Abbreviation table := (list (row F)).

Definition set_node_id (r : row F) (s : string) : row F :=
  Row (chain_id r) (residue_name r) (residue_number r) (insertion r)
      (alt_loc r) (atom_name r) (element_symbol r)
      (x_coord r) (y_coord r) (z_coord r) (b_factor r) s.

Definition set_coords (r : row F) (x y z : F) : row F :=
  Row (chain_id r) (residue_name r) (residue_number r) (insertion r)
      (alt_loc r) (atom_name r) (element_symbol r)
      x y z (b_factor r) (node_id r).

(** Modelled from the spec: [graphein.protein.utils.filter_dataframe] is
    not part of the sources at hand. Its callers document it: keep
    ([boolean = True]) or drop ([boolean = False]) the rows whose column
    [by_column] holds one of [list_of_values]; the index is reset. *)
Definition filter_dataframe (df : table) (by_column : row F → string)
    (list_of_values : list string) (boolean : bool) : table :=
  filter (fun r => bool_decide (by_column r ∈ list_of_values) = boolean) df.

Definition deprotonate_structure (df : table) : table :=
  filter_dataframe df atom_name ["H"] false.

(** [atoms.groupby("residue_number")]: the group keys, sorted. *)
Definition group_keys (atoms : table) : list Z :=
  merge_sort Z.le (remove_dups (residue_number <$> atoms)).

Definition group_rows (atoms : table) (k : Z) : table :=
  filter (fun r => residue_number r = k) atoms.

(** One row per group key, in key order, with the mean of each coordinate
    column over the rows of the group; [reset_index] numbers them from 0. *)
Definition calculate_centroid_positions (atoms : table) : list (Z * (F * F * F)) :=
  (fun k =>
     let g := group_rows atoms k in
     (k, (mean (x_coord <$> g), mean (y_coord <$> g), mean (z_coord <$> g))))
  <$> group_keys atoms.

(** The [CA] rows, renumbered from 0; the three coordinate columns are then
    overwritten by the columns of [centroids], aligned on the index: row
    [i] gets the coordinates of centroid [i], or the missing value when
    there is no centroid [i]. *)
Definition convert_structure_to_centroids (df : table) : table :=
  let centroids := calculate_centroid_positions df in
  let df := filter (fun r => atom_name r = "CA") df in
  imap (fun i r =>
          match centroids !! i with
          | Some (_, (x, y, z)) => set_coords r x y z
          | None => set_coords r nan nan nan
          end) df.

Definition subset_structure_to_atom_type (df : table) (granularity : string)
  : table :=
  filter_dataframe df atom_name [granularity] true.

(** [df.duplicated(subset=[chain_id, residue_number, atom_name],
    keep="first")] followed by [df[~duplicates]]: a row is dropped when an
    earlier row has the same three values. *)
Fixpoint drop_duplicated (seen : list (string * Z * string)) (df : table)
  : table :=
  match df with
  | [] => []
  | r :: rest =>
      let k := (chain_id r, residue_number r, atom_name r) in
      if decide (k ∈ seen) then drop_duplicated seen rest
      else r :: drop_duplicated (k :: seen) rest
  end.

Definition remove_insertions (df : table) : table :=
  let df := drop_duplicated [] df in
  let df := filter_dataframe df insertion [""] true in
  let df := filter_dataframe df alt_loc [""; "A"] true in
  df.

Definition filter_hetatms (df : table) (keep_hets : list string) : list table :=
  (fun hetatm => filter (fun r => residue_name r = hetatm) df) <$> keep_hets.

(** [list(chain_selection)]: the characters of the string, each as a
    one-character string. *)
Definition chars (s : string) : list string :=
  (fun a => String a EmptyString) <$> String.list_ascii_of_string s.

Definition select_chains (protein_df : table) (chain_selection : string)
  : table :=
  if decide (chain_selection ≠ "all")
  then filter_dataframe protein_df chain_id (chars chain_selection) true
  else protein_df.

(** [pd.concat] of a two-element list whose second element is itself a
    list of tables is rejected by pandas; this is what the [keep_hets]
    branch passes. *)
Definition process_dataframe (protein_df : pandas_pdb F)
    (atom_df_processing_funcs hetatom_df_processing_funcs :
       option (list (table → table)))
    (granularity chain_selection : string)
    (insertions deprotonate : bool) (keep_hets : list string)
  : result table :=
  let atoms := ATOM protein_df in
  let hetatms := HETATM protein_df in
  let atoms' :=
    match atom_df_processing_funcs with
    | Some funcs => foldl (fun a func => func a) atoms funcs
    | None => atoms
    end in
  match atom_df_processing_funcs, hetatom_df_processing_funcs with
  | Some _, None => Ok atoms'
  | _, Some funcs =>
      let hetatms := foldl (fun h func => func h) hetatms funcs in
      Ok (atoms' ++ hetatms)
  | None, None =>
      let atoms := if deprotonate then deprotonate_structure atoms else atoms in
      let atoms :=
        if decide (granularity = "atom") then atoms
        else if decide (granularity = "centroids")
             then convert_structure_to_centroids atoms
             else subset_structure_to_atom_type atoms granularity in
      match keep_hets with
      | _ :: _ => Raise TypeError
      | [] =>
          let protein_df := atoms in
          let protein_df :=
            if insertions then protein_df else remove_insertions protein_df in
          Ok (select_chains protein_df chain_selection)
      end
  end.

(** The node identifier of a row: [chain:residue_name:residue_number], with
    [:atom_name] appended at atomic granularity. *)
Definition node_id_of (granularity : string) (r : row F) : string :=
  let base := chain_id r +:+ ":" +:+ residue_name r +:+ ":"
              +:+ pretty (residue_number r) in
  if decide (granularity = "atom") then base +:+ ":" +:+ atom_name r else base.
End tables.

(** ** The residue table of [resi_atoms.py] *)

Definition RESI_THREE_TO_1 : gmap string string :=
  list_to_map [
    ("ALA", "A"); ("ASX", "B"); ("CYS", "C"); ("ASP", "D"); ("GLU", "E");
    ("PHE", "F"); ("GLY", "G"); ("HIS", "H"); ("ILE", "I"); ("LYS", "K");
    ("LEU", "L"); ("MET", "M"); ("ASN", "N"); ("PRO", "P"); ("GLN", "Q");
    ("ARG", "R"); ("SER", "S"); ("THR", "T"); ("VAL", "V"); ("TRP", "W");
    ("TYR", "Y"); ("GLX", "Z"); ("CSD", "C"); ("HYP", "P"); ("BMT", "T");
    ("3HP", "X"); ("4HP", "X"); ("5HP", "Q"); ("ACE", "X"); ("ABA", "A");
    ("AIB", "A"); ("NH2", "X"); ("CBX", "X"); ("CSW", "C"); ("OCS", "C");
    ("DAL", "A"); ("DAR", "R"); ("DSG", "N"); ("DSP", "D"); ("DCY", "C");
    ("CRO", "TYG"); ("DGL", "E"); ("DGN", "Q"); ("DHI", "H"); ("DIL", "I");
    ("DIV", "V"); ("DLE", "L"); ("DLY", "K"); ("DPN", "F"); ("DPR", "P");
    ("DSN", "S"); ("DTH", "T"); ("DTR", "W"); ("DTY", "Y"); ("DVA", "V");
    ("FOR", "X"); ("CGU", "E"); ("IVA", "X"); ("KCX", "K"); ("LLP", "K");
    ("CXM", "M"); ("FME", "M"); ("MLE", "L"); ("MVA", "V"); ("NLE", "L");
    ("PTR", "Y"); ("ORN", "A"); ("SEP", "S"); ("SEC", "U"); ("TPO", "T");
    ("PCA", "Q"); ("PVL", "X"); ("PYL", "O"); ("SAR", "G"); ("CEA", "C");
    ("CSO", "C"); ("CSS", "C"); ("CSX", "C"); ("CME", "C"); ("TYS", "Y");
    ("BOC", "X"); ("TPQ", "Y"); ("STY", "Y"); ("UNK", "X")
  ].

(** ** Graphs and the object store *)

Abbreviation loc := positive.

(** [ProteinGraphConfig], as far as this module reads and writes it. The
    function lists hold the names of the callables; a collaborator applies a
    named callable to a graph. *)
Record ProteinGraphConfig := Config {
  granularity : string;
  insertions : bool;
  verbose : bool;
  protein_df_processing_functions : option (list string);
  edge_construction_functions : option (list string);
  node_metadata_functions : option (list string);
  graph_metadata_functions : option (list string);
  edge_metadata_functions : option (list string);
}.

(** The graph-level metadata dict [G.graph]. The entries [sequence_<c>] are
    the map [sequences], keyed by the chain identifier [c]. *)
Record graph_meta (F : Type) := Meta {
  name : string;
  pdb_code : option string;
  pdb_path : option string;
  chain_ids : list string;
  pdb_df : list (row F);
  raw_pdb_df : list (row F);
  rgroup_df : list (row F);
  coords : list (F * F * F);
  node_type : string;
  sequences : gmap string string;
  config : option ProteinGraphConfig;
  atomic_dist_mat : option (list (list F));
  dist_mat : option (list (list F));
}.
Arguments Meta {F}.
Arguments name {F} _.
Arguments pdb_code {F} _.
Arguments pdb_path {F} _.
Arguments chain_ids {F} _.
Arguments pdb_df {F} _.
Arguments raw_pdb_df {F} _.
Arguments rgroup_df {F} _.
Arguments coords {F} _.
Arguments node_type {F} _.
Arguments sequences {F} _.
Arguments config {F} _.
Arguments atomic_dist_mat {F} _.
Arguments dist_mat {F} _.

(** Attribute values of nodes and edges. A [kind] attribute is a reference to
    a set object. *)
Inductive value (F : Type) :=
  | VStr (s : string)
  | VInt (z : Z)
  | VFloat (f : F)
  | VCoords (c : F * F * F)
  | VList (l : list string)
  | VSet (l : loc).
Arguments VStr {F} s.
Arguments VInt {F} z.
Arguments VFloat {F} f.
Arguments VCoords {F} c.
Arguments VList {F} l.
Arguments VSet {F} l.

Abbreviation attrs F := (gmap string (value F)).

(** The shared objects: metadata dicts and kind sets. *)
Record store (F : Type) := Store {
  metas : gmap loc (graph_meta F);
  kinds : gmap loc (gset string);
}.
Arguments Store {F}.
Arguments metas {F} _.
Arguments kinds {F} _.

(** A networkx graph: the reference to its metadata dict, its nodes with
    their attribute dicts in insertion order, and its edges. *)
Record nx (F E : Type) := Nx {
  graph : loc;
  nodes : list (string * attrs F);
  edges : E;
}.
Arguments Nx {F E}.
Arguments graph {F E} _.
Arguments nodes {F E} _.
Arguments edges {F E} _.

(** [nx.Graph]: one attribute dict per unordered node pair, kept under the
    ordered form [ekey] of the pair. *)
Abbreviation Graph F := (nx F (gmap (string * string) (attrs F))).

(** [nx.MultiGraph]: the edges in the order [edges(data=True)] lists them;
    parallel edges are separate entries. *)
Abbreviation MultiGraph F := (nx F (list (string * string * attrs F))).

Definition ekey (u v : string) : string * string :=
  if String.leb u v then (u, v) else (v, u).

(** [g.edges(data=True)] of a simple graph. *)
Definition edges_data {F} (g : Graph F) : list (string * string * attrs F) :=
  (fun '((u, v), d) => (u, v, d)) <$> map_to_list (edges g).

(** ** The state-and-exception monad *)

Definition M (F A : Type) : Type := store F → result A * store F.

#[global] Instance M_ret {F} : MRet (M F) := fun A a σ => (Ok a, σ).
#[global] Instance M_bind {F} : MBind (M F) := fun A B f m σ =>
  match m σ with
  | (Ok a, σ') => f a σ'
  | (Raise e, σ') => (Raise e, σ')
  end.

Definition raise {F A} (e : exn) : M F A := fun σ => (Raise e, σ).
Definition lift {F A} (r : result A) : M F A := fun σ => (r, σ).

(** [for x in l: body], threading an accumulator; the first exception ends
    the loop. *)
Fixpoint foldM {F A B} (f : B → A → M F B) (b : B) (l : list A) : M F B :=
  match l with
  | [] => mret b
  | x :: l' => b' ← f b x; foldM f b' l'
  end.

Fixpoint foldR {A B} (f : B → A → result B) (b : B) (l : list A) : result B :=
  match l with
  | [] => Ok b
  | x :: l' => b' ← f b x; foldR f b' l'
  end.

Definition get_meta {F} (l : loc) : M F (graph_meta F) := fun σ =>
  match metas σ !! l with
  | Some m => (Ok m, σ)
  | None => (Raise AttributeError, σ)
  end.

Definition set_meta {F} (l : loc) (m : graph_meta F) : M F unit := fun σ =>
  (Ok (), Store (<[l := m]> (metas σ)) (kinds σ)).

Definition alloc_meta {F} (m : graph_meta F) : M F loc := fun σ =>
  let l := fresh (dom (metas σ)) in
  (Ok l, Store (<[l := m]> (metas σ)) (kinds σ)).

Definition get_kind {F} (l : loc) : M F (gset string) := fun σ =>
  match kinds σ !! l with
  | Some K => (Ok K, σ)
  | None => (Raise AttributeError, σ)
  end.

Definition set_kind {F} (l : loc) (K : gset string) : M F unit := fun σ =>
  (Ok (), Store (metas σ) (<[l := K]> (kinds σ))).

Definition set_node_type {F} (m : graph_meta F) (s : string) : graph_meta F :=
  Meta (name m) (pdb_code m) (pdb_path m) (chain_ids m) (pdb_df m)
       (raw_pdb_df m) (rgroup_df m) (coords m) s (sequences m) (config m)
       (atomic_dist_mat m) (dist_mat m).

Definition set_sequence {F} (m : graph_meta F) (c s : string) : graph_meta F :=
  Meta (name m) (pdb_code m) (pdb_path m) (chain_ids m) (pdb_df m)
       (raw_pdb_df m) (rgroup_df m) (coords m) (node_type m)
       (<[c := s]> (sequences m)) (config m)
       (atomic_dist_mat m) (dist_mat m).

Definition set_config {F} (m : graph_meta F) (c : ProteinGraphConfig)
  : graph_meta F :=
  Meta (name m) (pdb_code m) (pdb_path m) (chain_ids m) (pdb_df m)
       (raw_pdb_df m) (rgroup_df m) (coords m) (node_type m)
       (sequences m) (Some c) (atomic_dist_mat m) (dist_mat m).

Definition set_atomic_dist_mat {F} (m : graph_meta F) (d : list (list F))
  : graph_meta F :=
  Meta (name m) (pdb_code m) (pdb_path m) (chain_ids m) (pdb_df m)
       (raw_pdb_df m) (rgroup_df m) (coords m) (node_type m)
       (sequences m) (config m) (Some d) (dist_mat m).

Definition set_dist_mat {F} (m : graph_meta F) (d : list (list F))
  : graph_meta F :=
  Meta (name m) (pdb_code m) (pdb_path m) (chain_ids m) (pdb_df m)
       (raw_pdb_df m) (rgroup_df m) (coords m) (node_type m)
       (sequences m) (config m) (atomic_dist_mat m) (Some d).

(** ** Collaborators

    Code outside [graphs.py] that the module calls, taken as given. A
    collaborator that can fail returns its own error ([inl]). *)
Record collaborators (F : Type) := Collaborators {
  (** [PandasPdb().read_pdb(path)] and [PandasPdb().fetch_pdb(code)] *)
  read_pdb : string → string + pandas_pdb F;
  fetch_pdb : string → string + pandas_pdb F;
  (** [utils.three_to_one_with_mods]; [None] is its [KeyError] *)
  three_to_one_with_mods : string → option string;
  get_protein_name_from_filename : string → string;
  compute_rgroup_dataframe : list (row F) → list (row F);
  compute_distmat : list (row F) → list (list F);
  (** [ProteinGraphConfig()] *)
  default_config : ProteinGraphConfig;
  (** a named edge-construction callable applied to the graph, which it
      changes in place *)
  edge_function : string → Graph F → store F → (string + Graph F) * store F;
  (** [utils.annotate_node_metadata] and its two siblings *)
  annotate_node_metadata :
    Graph F → list string → store F → (string + Graph F) * store F;
  annotate_graph_metadata :
    Graph F → list string → store F → (string + Graph F) * store F;
  annotate_edge_metadata :
    Graph F → list string → store F → (string + Graph F) * store F;
  (** Python's [str()] on an attribute value *)
  py_str : value F → string;
  (** [re.compile(pattern).search], as [Series.str.contains] uses it *)
  re_contains : string → string + (string → bool);
}.
Arguments Collaborators {F}.
Arguments read_pdb {F} _.
Arguments fetch_pdb {F} _.
Arguments three_to_one_with_mods {F} _.
Arguments get_protein_name_from_filename {F} _.
Arguments compute_rgroup_dataframe {F} _.
Arguments compute_distmat {F} _.
Arguments default_config {F} _.
Arguments edge_function {F} _.
Arguments annotate_node_metadata {F} _.
Arguments annotate_graph_metadata {F} _.
Arguments annotate_edge_metadata {F} _.
Arguments py_str {F} _.
Arguments re_contains {F} _.

Definition ext {F A} (m : store F → (string + A) * store F) : M F A := fun σ =>
  let '(r, σ') := m σ in (lift_ext r, σ').

(** ** Graph assembly *)

Definition msg_read : string :=
  "Either a PDB ID or a path to a local PDB file must be specified to read a PDB".
Definition msg_construct : string :=
  "Either a PDB ID or a path to a local PDB file must be specified to construct a graph".
Definition msg_batch : string :=
  "Iterable of pdb codes OR pdb paths required.".
Definition msg_ss : string :=
  "Secondary structure not defined for all nodes.".

(** [(pdb_code and not pdb_path) or (not pdb_code and pdb_path)] *)
Definition exactly_one (pdb_code pdb_path : option string) : bool :=
  (truthy pdb_code && negb (truthy pdb_path))
  || (negb (truthy pdb_code) && truthy pdb_path).

(** [for x in l: ...] over a fallible pure body, collecting the results. *)
Fixpoint traverse {A B} (f : A → result B) (l : list A) : result (list B) :=
  match l with
  | [] => Ok []
  | x :: l' => y ← f x; ys ← traverse f l'; Ok (y :: ys)
  end.

Section assembly.
Context {F : Type} `{!Floats F}.
Variable env : collaborators F.
Abbreviation table := (list (row F)).

Definition read_pdb_to_dataframe (pdb_path pdb_code : option string)
    (verbose : bool) (granularity : string) : result (pandas_pdb F) :=
  if negb (exactly_one pdb_code pdb_path)
  then Raise (AssertionError msg_read)
  else
    atomic_df ←
      match pdb_path with
      | Some p => lift_ext (read_pdb env p)
      | None =>
          match pdb_code with
          | Some c => lift_ext (fetch_pdb env c)
          | None => Raise TypeError
          end
      end;
    Ok (PandasPdb
          ((fun r => set_node_id r (node_id_of granularity r))
             <$> ATOM atomic_df)
          (HETATM atomic_df)).

(** [protein_df.loc[protein_df["chain_id"] == c]["residue_name"]
    .apply(three_to_one_with_mods).str.cat()] *)
Definition chain_sequence (protein_df : table) (c : string) : result string :=
  letters ←
    traverse
      (fun r =>
         match three_to_one_with_mods env (residue_name r) with
         | Some s => Ok s
         | None => Raise (KeyError (residue_name r))
         end)
      (filter (fun r => chain_id r = c) protein_df);
  Ok (String.concat "" letters).

Definition initialise_graph_with_metadata (protein_df raw_pdb_df : table)
    (granularity : string) (name pdb_code pdb_path : option string)
  : M F (Graph F) :=
  if negb (exactly_one pdb_code pdb_path)
  then raise (AssertionError msg_read)
  else
    let name :=
      if truthy name then default "" name
      else if truthy pdb_path
           then get_protein_name_from_filename env (default "" pdb_path)
           else default "" pdb_code in
    l ← alloc_meta
          (Meta name pdb_code pdb_path
             (pd_unique (chain_id <$> protein_df))
             protein_df raw_pdb_df
             (compute_rgroup_dataframe env (remove_insertions raw_pdb_df))
             ((fun r => (x_coord r, y_coord r, z_coord r)) <$> protein_df)
             "" ∅ None None None);
    m ← get_meta l;
    _ ← set_meta l (set_node_type m granularity);
    _ ← foldM
          (fun (_ : unit) c =>
             s ← lift (chain_sequence protein_df c);
             m ← get_meta l;
             set_meta l (set_sequence m c s))
          () (pd_unique (chain_id <$> protein_df));
    mret (Nx l [] ∅).

(** [add_nodes_from]: a new node gets the given attributes; a node that is
    already there has them merged into its own. *)
Definition add_node (ns : list (string * attrs F)) (nd : string * attrs F)
  : list (string * attrs F) :=
  if decide (nd.1 ∈ ns.*1)
  then (fun p => if decide (p.1 = nd.1) then (p.1, nd.2 ∪ p.2) else p) <$> ns
  else ns ++ [nd].

Definition add_nodes_from (ns : list (string * attrs F))
    (new : list (string * attrs F)) : list (string * attrs F) :=
  foldl add_node ns new.

(** [G.nodes[n][name] = v], for a node [n] of the graph. *)
Definition set_node_attr (ns : list (string * attrs F)) (n name : string)
    (v : value F) : list (string * attrs F) :=
  (fun p => if decide (p.1 = n) then (p.1, <[name := v]> (p.2)) else p) <$> ns.

(** [nx.set_node_attributes(G, dict(zip(nodes, column)), name)]: for a
    node identifier that occurs in several rows the dict keeps the value of
    the last row, which is what assigning row after row leaves. *)
Definition set_node_attributes (ns : list (string * attrs F))
    (values : list (string * value F)) (name : string)
  : list (string * attrs F) :=
  foldl (fun ns nv => set_node_attr ns nv.1 name nv.2) ns values.

Definition add_nodes_to_graph (G : Graph F) (protein_df : option table)
    (verbose : bool) : M F (Graph F) :=
  protein_df ←
    match protein_df with
    | Some df => mret df
    | None => m ← get_meta (graph G); mret (pdb_df m)
    end;
  let col (f : row F → value F) := zip (node_id <$> protein_df) (f <$> protein_df) in
  let ns := add_nodes_from (nodes G) ((fun r => (node_id r, ∅)) <$> protein_df) in
  let ns := set_node_attributes ns (col (fun r => VStr (chain_id r))) "chain_id" in
  let ns := set_node_attributes ns (col (fun r => VStr (residue_name r))) "residue_name" in
  let ns := set_node_attributes ns (col (fun r => VInt (residue_number r))) "residue_number" in
  let ns := set_node_attributes ns (col (fun r => VStr (atom_name r))) "atom_type" in
  let ns := set_node_attributes ns (col (fun r => VStr (element_symbol r))) "element_symbol" in
  let ns := set_node_attributes ns
              (col (fun r => VCoords (x_coord r, y_coord r, z_coord r))) "coords" in
  let ns := set_node_attributes ns (col (fun r => VFloat (b_factor r))) "b_factor" in
  mret (Nx (graph G) ns (edges G)).

(** The edge functions run on the graph in list order; iterating over a
    list that is [None] is a [TypeError]. *)
Definition compute_edges (G : Graph F) (funcs : option (list string))
  : M F (Graph F) :=
  m ← get_meta (graph G);
  _ ← match config m with
      | Some c =>
          if decide (granularity c = "atom")
          then set_meta (graph G)
                 (set_atomic_dist_mat m (compute_distmat env (raw_pdb_df m)))
          else set_meta (graph G)
                 (set_dist_mat m (compute_distmat env (pdb_df m)))
      | None => mret ()
      end;
  match funcs with
  | None => raise TypeError
  | Some fs => foldM (fun G f => ext (edge_function env f G)) G fs
  end.

Definition or_else {A} (a b : option A) : option A :=
  match a with Some _ => a | None => b end.

(** The source assigns the five function-list fields of the configuration
    object it is given, in place. Configurations are passed by value here:
    the assignment shows as the configuration used from there on and
    recorded in the metadata; that the caller's object is changed is not
    part of the embedding. *)
Definition construct_graph (config : option ProteinGraphConfig)
    (name pdb_path pdb_code : option string) (chain_selection : string)
    (df_processing_funcs edge_construction_funcs edge_annotation_funcs
       node_annotation_funcs graph_annotation_funcs : option (list string))
  : M F (Graph F) :=
  if negb (exactly_one pdb_code pdb_path)
  then raise (AssertionError msg_construct)
  else
    let config := default (default_config env) config in
    let config :=
      Config (granularity config) (insertions config) (verbose config)
        (or_else (protein_df_processing_functions config) df_processing_funcs)
        (or_else (edge_construction_functions config) edge_construction_funcs)
        (or_else (node_metadata_functions config) node_annotation_funcs)
        (or_else (graph_metadata_functions config) graph_annotation_funcs)
        (or_else (edge_metadata_functions config) edge_annotation_funcs) in
    raw_df ← lift (read_pdb_to_dataframe pdb_path pdb_code
                     (verbose config) (granularity config));
    protein_df ← lift (process_dataframe raw_df None None
                         (granularity config) chain_selection
                         (insertions config) true []);
    g ← initialise_graph_with_metadata protein_df (ATOM raw_df)
          (granularity config) name pdb_code pdb_path;
    g ← add_nodes_to_graph g None false;
    m ← get_meta (graph g);
    _ ← set_meta (graph g) (set_config m config);
    g ← match node_metadata_functions config with
        | Some fs => ext (annotate_node_metadata env g fs)
        | None => mret g
        end;
    g ← compute_edges g (edge_construction_functions config);
    g ← match graph_metadata_functions config with
        | Some fs => ext (annotate_graph_metadata env g fs)
        | None => mret g
        end;
    g ← match edge_metadata_functions config with
        | Some fs => ext (annotate_edge_metadata env g fs)
        | None => mret g
        end;
    mret g.

(** ** Batch construction *)

(** What comes back from a worker process: the graph together with the
    objects it refers to, or [None]. *)
Abbreviation built := (option (Graph F * store F)).

(** The task run for one input. Any exception of the construction is
    caught (and logged) and the task returns [None]. *)
Definition mp_graph_constructor (args : string * string)
    (use_pdb_code : bool) (config : ProteinGraphConfig) (σ : store F)
  : built :=
  let func := construct_graph (Some config) None in
  let run :=
    if use_pdb_code
    then func None (Some args.1) args.2 None None None None None
    else func (Some args.1) None args.2 None None None None None in
  match run σ with
  | (Ok g, σ') => Some (g, σ')
  | (Raise ex, _) => None
  end.

Inductive batch_output :=
  | AsList (graphs : list built)
  | AsDict (graphs : gmap string built).

(** [[(pdb, chain_selections[i]) for i, pdb in enumerate(pdbs)]] *)
Definition batch_args (pdbs chain_selections : list string)
  : result (list (string * string)) :=
  traverse
    (fun ip =>
       match chain_selections !! ip.1 with
       | Some cs => Ok (ip.2, cs)
       | None => Raise IndexError
       end)
    (imap (fun i pdb => (i, pdb)) pdbs).

(** [[nx.write_gpickle(g, f"{out_path}/{g.graph['name']}.pickle") for g in
    graphs]]: the files written so far are the state; reading [.graph] of a
    [None] entry is an [AttributeError]. *)
Fixpoint write_graphs (out_path : string) (graphs : list built)
    (written : list (string * (Graph F * store F)))
  : result unit * list (string * (Graph F * store F)) :=
  match graphs with
  | [] => (Ok (), written)
  | None :: _ => (Raise AttributeError, written)
  | Some (g, σ) :: rest =>
      match metas σ !! graph g with
      | None => (Raise AttributeError, written)
      | Some m =>
          write_graphs out_path rest
            (written ++ [(out_path +:+ "/" +:+ name m +:+ ".pickle", (g, σ))])
      end
  end.

(** [process_map] hands every element of the argument list to a worker
    process and returns the results in the order of the arguments. Each
    worker starts from the objects of the calling process. *)
Definition construct_graphs_mp (pdb_code_it pdb_path_it : option (list string))
    (chain_selections : option (list string)) (config : ProteinGraphConfig)
    (num_cores : Z) (return_dict : bool) (out_path : option string)
    (σ : store F)
  : result batch_output * list (string * (Graph F * store F)) :=
  match pdb_code_it, pdb_path_it with
  | None, None => (Raise (AssertionError msg_batch), [])
  | _, _ =>
      let pdbs_use :=
        match pdb_code_it with
        | Some codes => (codes, true)
        | None => ([], true)
        end in
      let '(pdbs, use_pdb_code) :=
        match pdb_path_it with
        | Some paths => (paths, false)
        | None => pdbs_use
        end in
      let chain_selections :=
        match chain_selections with
        | Some cs => cs
        | None => replicate (length pdbs) "all"
        end in
      match batch_args pdbs chain_selections with
      | Raise e => (Raise e, [])
      | Ok args =>
          let graphs :=
            (fun a => mp_graph_constructor a use_pdb_code config σ) <$> args in
          let '(w, written) :=
            match out_path with
            | Some p => write_graphs p graphs []
            | None => (Ok (), [])
            end in
          match w with
          | Raise e => (Raise e, written)
          | Ok _ =>
              if return_dict
              then (Ok (AsDict (list_to_map (reverse (zip pdbs graphs)))), written)
              else (Ok (AsList graphs), written)
          end
      end
  end.
End assembly.

(** ** Graph derivation *)

#[global] Instance value_eq_dec {F} `{EqDecision F} : EqDecision (value F).
Proof. solve_decision. Defined.

Section derivation.
Context {F : Type} `{!Floats F} `{EqDecision F}.
Variable env : collaborators F.

(** [g.nodes[n]] *)
Definition node_data (ns : list (string * attrs F)) (n : string)
  : option (attrs F) :=
  (list_to_map ns : gmap string (attrs F)) !! n.

(** [add_edge] creates an endpoint that is not yet a node. *)
Definition ensure_node (ns : list (string * attrs F)) (n : string)
  : list (string * attrs F) :=
  if decide (n ∈ ns.*1) then ns else ns ++ [(n, ∅)].

(** [d["kind"]]: the reference to the kind set of an edge. The data model
    fixes this attribute to be a set object; any other value is reported
    as a [TypeError]. *)
Definition kind_ref (d : attrs F) : result loc :=
  match d !! "kind" with
  | Some (VSet l) => Ok l
  | Some _ => Raise TypeError
  | None => Raise (KeyError "kind")
  end.

(** [H[u][v][kind] += 1], and [H[u][v][kind] = 1] on [KeyError]. *)
Definition bump_kind (hd : attrs F) (kind : string) : result (attrs F) :=
  match hd !! kind with
  | Some (VInt c) => Ok (<[kind := VInt (c + 1)]> hd)
  | Some _ => Raise TypeError
  | None => Ok (<[kind := VInt 1]> hd)
  end.

(** The body of the loop over the multigraph's edges; the state is the
    node list and the adjacency of [H]. *)
Definition collapse_edge
    (H : list (string * attrs F) * gmap (string * string) (attrs F))
    (e : string * string * attrs F)
  : M F (list (string * attrs F) * gmap (string * string) (attrs F)) :=
  let '(u, v, d) := e in
  let '(hn, adj) := H in
  match adj !! ekey u v with
  | Some hd =>
      (* H[u][v]["weight"] += len(d["kind"]) *)
      kl ← lift (kind_ref d);
      K ← get_kind kl;
      hd ← lift (match hd !! "weight" with
                 | Some (VInt w) => Ok (<["weight" := VInt (w + Z.of_nat (size K))]> hd)
                 | Some _ => Raise TypeError
                 | None => Raise (KeyError "weight")
                 end);
      (* H[u][v]["kind"].update(d["kind"]) *)
      _ ← match hd !! "kind" with
          | Some (VSet hl) =>
              HK ← get_kind hl;
              K ← get_kind kl;
              set_kind hl (HK ∪ K)
          | Some _ => raise AttributeError
          | None => raise (KeyError "kind")
          end;
      (* for kind in list(d["kind"]) *)
      K ← get_kind kl;
      hd ← lift (foldR bump_kind hd (elements K));
      mret (hn, <[ekey u v := hd]> adj)
  | None =>
      (* H.add_edge(u, v, weight=len(d["kind"]), kind=d["kind"]) *)
      kl ← lift (kind_ref d);
      K ← get_kind kl;
      let hd : attrs F :=
        <["kind" := VSet kl]> (<["weight" := VInt (Z.of_nat (size K))]> ∅) in
      let hn := ensure_node (ensure_node hn u) v in
      (* for kind in list(d["kind"]): H[u][v][kind] = 1 *)
      let hd := foldl (fun hd kind => <[kind := VInt 1]> hd) hd (elements K) in
      mret (hn, <[ekey u v := hd]> adj)
  end.

Definition compute_weighted_graph_from_multigraph (g : MultiGraph F)
  : M F (Graph F) :=
  (* H.graph = g.graph; H.add_nodes_from(g.nodes(data=True)) *)
  let hn := add_nodes_from [] (nodes g) in
  H ← foldM collapse_edge (hn, ∅) (edges g);
  mret (Nx (graph g) H.1 H.2).

Definition in_chains (chains : list string) (d : attrs F) : bool :=
  match d !! "chain_id" with
  | Some (VStr c) => bool_decide (c ∈ chains)
  | _ => false
  end.

(** Modelled from the spec: [graphein.protein.subgraphs
    .extract_subgraph_from_chains] is not part of the sources at hand. The
    specification describes the restriction as pure subsetting: keep the
    nodes whose chain id is in the subset and the edges with both endpoints
    retained; graph-level metadata is shared by reference with the derived
    graph. *)
Definition extract_subgraph_from_chains (g : Graph F) (chains : list string)
  : Graph F :=
  let keep := filter (fun nd => in_chains chains nd.2 = true) (nodes g) in
  Nx (graph g) keep
     (filter (fun kd => kd.1.1 ∈ keep.*1 ∧ kd.1.2 ∈ keep.*1) (edges g)).

(** [d[key]] read as a string that is then used as a dictionary key or a
    node name. *)
Definition str_attr (d : attrs F) (key : string) : result string :=
  match d !! key with
  | Some (VStr s) => Ok s
  | Some v => Raise (KeyError (py_str env v))
  | None => Raise (KeyError key)
  end.

Definition dict_get {V} (m : gmap string V) (k : string) : result V :=
  match m !! k with
  | Some v => Ok v
  | None => Raise (KeyError k)
  end.

(** The single pass over the source nodes that counts the residues of each
    chain and accumulates its one-letter sequence. *)
Definition chain_pass (acc : gmap string Z * gmap string string)
    (nd : string * attrs F) : result (gmap string Z * gmap string string) :=
  let '(nodes_per_chain, sequences) := acc in
  c ← str_attr nd.2 "chain_id";
  k ← dict_get nodes_per_chain c;
  let nodes_per_chain := <[c := (k + 1)%Z]> nodes_per_chain in
  c' ← str_attr nd.2 "chain_id";
  r ← str_attr nd.2 "residue_name";
  letter ← dict_get RESI_THREE_TO_1 r;
  s ← dict_get sequences c';
  Ok (nodes_per_chain, <[c' := s +:+ letter]> sequences).

Definition chain_edge (g : Graph F)
    (h : list (string * attrs F) * list (string * string * attrs F))
    (e : string * string * attrs F)
  : result (list (string * attrs F) * list (string * string * attrs F)) :=
  let '(u, v, d) := e in
  du ← from_option Ok (Raise (KeyError u)) (node_data (nodes g) u);
  cu ← str_attr du "chain_id";
  dv ← from_option Ok (Raise (KeyError v)) (node_data (nodes g) v);
  cv ← str_attr dv "chain_id";
  k ← dict_get d "kind";
  Ok (ensure_node (ensure_node h.1 cu) cv,
      h.2 ++ [(cu, cv, <["kind" := k]> (∅ : attrs F))]).

(** [h.remove_edges_from([(u, v) for u, v in h.edges() if u == v])]: one
    removal per self-loop, so all of them go. *)
Definition drop_self_loops (es : list (string * string * attrs F))
  : list (string * string * attrs F) :=
  filter (fun e => e.1.1 ≠ e.1.2) es.

Definition compute_chain_graph (g : Graph F) (chain_list : option (list string))
    (remove_self_loops return_weighted_graph : bool)
  : M F (MultiGraph F + Graph F) :=
  let g := match chain_list with
           | Some cl => extract_subgraph_from_chains g cl
           | None => g
           end in
  (* h.graph = g.graph; h.graph["node_type"] = "chain" *)
  m ← get_meta (graph g);
  _ ← set_meta (graph g) (set_node_type m "chain");
  m ← get_meta (graph g);
  let nodes_per_chain : gmap string Z :=
    list_to_map ((fun chain => (chain, 0%Z)) <$> chain_ids m) in
  let sequences : gmap string string :=
    list_to_map ((fun chain => (chain, "")) <$> chain_ids m) in
  acc ← lift (foldR chain_pass (nodes_per_chain, sequences) (nodes g));
  let '(nodes_per_chain, sequences) := acc in
  let hn := add_nodes_from [] ((fun chain => (chain, ∅)) <$> chain_ids m) in
  hn ← lift (traverse
               (fun nd : string * attrs F =>
                  k ← dict_get nodes_per_chain nd.1;
                  s ← dict_get sequences nd.1;
                  Ok (nd.1, <["sequence" := VStr s]>
                              (<["num_residues" := VInt k]> (nd.2))))
               hn);
  h ← lift (foldR (chain_edge g) (hn, []) (edges_data g));
  let he := if remove_self_loops then drop_self_loops h.2 else h.2 in
  let h : MultiGraph F := Nx (graph g) h.1 he in
  if return_weighted_graph
  then H ← compute_weighted_graph_from_multigraph h; mret (inr H)
  else mret (inl h).

(** [Series.str.contains("-")] *)
Definition contains_dash (s : string) : bool :=
  bool_decide (is_Some (String.index 0 "-" s)).

(** [ss_list[u]]: the segment identifier a node is indexed under. *)
Definition series_get (ss_list : list (string * string)) (u : string)
  : result string :=
  dict_get (list_to_map ss_list : gmap string string) u.

(** An edge of the source graph is added between the segments of its
    endpoints; a [KeyError] (endpoint filtered out, no [kind]) skips it. *)
Definition ss_edge (ss_list : list (string * string))
    (h : list (string * attrs F) * list (string * string * attrs F))
    (e : string * string * attrs F)
  : result (list (string * attrs F) * list (string * string * attrs F)) :=
  let '(u, v, d) := e in
  let added :=
    su ← series_get ss_list u;
    sv ← series_get ss_list v;
    k ← dict_get d "kind";
    Ok (ensure_node (ensure_node h.1 su) sv,
        h.2 ++ [(su, sv, <["source" := VStr (u +:+ "_" +:+ v)]>
                           (<["kind" := k]> (∅ : attrs F)))]) in
  match added with
  | Ok h' => Ok h'
  | Raise (KeyError _) => Ok h
  | Raise ex => Raise ex
  end.

(** [if "ss" not in d.keys(): raise ...] and [ss_list.append(d["ss"])] *)
Definition ss_of_node (nd : string * attrs F) : result (value F) :=
  match nd.2 !! "ss" with
  | None => Raise (ProteinGraphConfigurationError msg_ss)
  | Some v => Ok v
  end.

Definition compute_secondary_structure_graph (g : Graph F)
    (allowable_ss_elements : option (list string))
    (remove_non_ss remove_self_loops return_weighted_graph : bool)
  : M F (MultiGraph F + Graph F) :=
  (* Check nodes have secondary structure assignment & store them in list *)
  ss_list ← lift (traverse ss_of_node (nodes g));
  (* Number SS elements; index them by the nodes *)
  let ss_list := zip (nodes g).*1 (number_groups_of_runs (py_str env) ss_list) in
  let ss_list :=
    if remove_non_ss
    then filter (fun ns => contains_dash ns.2 = false) ss_list
    else ss_list in
  ss_list ←
    match allowable_ss_elements with
    | Some (a :: rest) =>
        contains ← lift (lift_ext (re_contains env (String.concat "|" (a :: rest))));
        mret (filter (fun ns => contains ns.2 = true) ss_list)
    | _ => mret ss_list
    end;
  let constituent_residues (k : string) : list string :=
    (filter (fun ns => ns.2 = k) ss_list).*1 in
  let residue_counts (k : string) : Z :=
    Z.of_nat (length (filter (fun ns => ns.2 = k) ss_list)) in
  let hn := add_nodes_from [] ((fun ns => (ns.2, ∅)) <$> ss_list) in
  let hn := (fun nd : string * attrs F =>
               (nd.1, <["constituent_residues" := VList (constituent_residues nd.1)]>
                        (<["residue_counts" := VInt (residue_counts nd.1)]> (nd.2))))
            <$> hn in
  hn ← lift (traverse
               (fun nd : string * attrs F =>
                  match nd.1 with
                  | String a _ => Ok (nd.1, <["ss" := VStr (String a "")]> (nd.2))
                  | EmptyString => Raise IndexError
                  end)
               hn);
  (* h.graph = g.graph; h.graph["node_type"] = "secondary_structure" *)
  m ← get_meta (graph g);
  _ ← set_meta (graph g) (set_node_type m "secondary_structure");
  h ← lift (foldR (ss_edge ss_list) (hn, []) (edges_data g));
  let he := if remove_self_loops then drop_self_loops h.2 else h.2 in
  let h : MultiGraph F := Nx (graph g) h.1 he in
  if return_weighted_graph
  then H ← compute_weighted_graph_from_multigraph h; mret (inr H)
  else mret (inl h).
End derivation.

(** ** Specification-side definitions and concrete instances *)

(** Rational coordinates with a missing value: the mean skips missing
    entries and is missing when nothing is left. *)
#[global] Instance Qc_floats : Floats (option Qc) := {|
  nan := None;
  mean l :=
    match omap id l with
    | [] => None
    | xs => Some (foldr Qcplus (Qc_of_Z 0) xs / Qc_of_Z (Z.of_nat (length xs)))%Qc
    end;
|}.


(** Collapse of a multigraph in the words of the specification. The edges
    between a node pair are the parallel edges of the pair; the kind set of
    an edge is the set its [kind] attribute refers to in the store the
    collapse starts from. *)
Definition edge_key {F} (e : string * string * attrs F) : string * string :=
  ekey e.1.1 e.1.2.

Definition kind_loc {F} (e : string * string * attrs F) : option loc :=
  match e.2 !! "kind" with
  | Some (VSet l) => Some l
  | _ => None
  end.

Definition edge_kind {F} (σ : store F) (e : string * string * attrs F)
  : gset string :=
  match kind_loc e with
  | Some l => default ∅ (kinds σ !! l)
  | None => ∅
  end.

Definition parallel {F} (es : list (string * string * attrs F))
    (p : string * string) : list (string * string * attrs F) :=
  filter (fun e => edge_key e = p) es.

Definition weight_spec {F} (σ : store F) (es : list (string * string * attrs F))
    (p : string * string) : Z :=
  Z.of_nat (sum_list_with (fun e => size (edge_kind σ e)) (parallel es p)).

Definition kind_spec {F} (σ : store F) (es : list (string * string * attrs F))
    (p : string * string) : gset string :=
  ⋃ (edge_kind σ <$> parallel es p).

Definition count_spec {F} (σ : store F) (es : list (string * string * attrs F))
    (p : string * string) (k : string) : Z :=
  Z.of_nat (length (filter (fun e => k ∈ edge_kind σ e) (parallel es p))).

(** What the collapse needs of its input: every edge refers to a kind set
    of the store, no label is one of the attribute names [weight] and
    [kind] that the collapsed edge uses itself, and no two edges refer to
    the same set object. *)
Definition collapsible {F} (σ : store F) (es : list (string * string * attrs F))
  : Prop :=
  (∀ e, e ∈ es →
        ∃ l K, kind_loc e = Some l ∧ kinds σ !! l = Some K
               ∧ ("weight" ∉ K) ∧ ("kind" ∉ K))
  ∧ NoDup (omap kind_loc es).

(** The sequence of a chain read off the rows of a table: one letter per row
    of the chain, in table order. *)
Definition row_sequence {F} (env : collaborators F) (df : list (row F))
    (c : string) : string :=
  String.concat ""
    (omap (fun r => three_to_one_with_mods env (residue_name r))
       (filter (fun r => chain_id r = c) df)).

(** The sequence of a chain in the words of the specification: the residues
    of the chain (its distinct residue numbers, in order of first
    appearance, each with the residue name of its first row) mapped to
    their one-letter codes. *)
Definition residue_sequence {F} (env : collaborators F) (df : list (row F))
    (c : string) : string :=
  let rows := filter (fun r => chain_id r = c) df in
  String.concat ""
    (omap
       (fun k =>
          r ← head (filter (fun r => residue_number r = k) rows);
          three_to_one_with_mods env (residue_name r))
       (pd_unique (residue_number <$> rows))).

(** [G.graph[f"sequence_{c}"]] of the outcome of a construction. *)
Definition sequence_of {F} (built : result (Graph F) * store F) (c : string)
  : option string :=
  match built with
  | (Ok g, σ) => (metas σ !! graph g) ≫= (fun m => sequences m !! c)
  | (Raise _, _) => None
  end.

(** The [CA] rows of a table. A residue is a chain identifier together with
    a residue number ([residue_key]); the row that centroid reduction is to
    put in the place of a [CA] row [r] is [r] with the mean of the
    coordinates of the rows of its residue ([centroid_row]). What the code
    writes there when the means are aligned with the [CA] rows is the mean
    over all rows that have the residue number of [r], in whatever chain
    ([group_centroid_row]). *)
Definition CA_rows {F} (df : list (row F)) : list (row F) :=
  filter (fun r => atom_name r = "CA") df.





(** An atom row with the first coordinate [x] and the others zero. *)
Definition atom_row (chain resn : string) (resi : Z) (atom : string) (x : Z)
  : row (option Qc) :=
  Row chain resn resi "" "" atom (String.substring 0 1 atom)
      (Some (Qc_of_Z x)) (Some (Qc_of_Z 0)) (Some (Qc_of_Z 0)) (Some (Qc_of_Z 0)) "".

(** One residue listed as backbone nitrogen, then alpha carbon. *)
Definition one_residue : list (row (option Qc)) :=
  [atom_row "A" "ALA" 1 "N" 0; atom_row "A" "ALA" 1 "CA" 2].

(** A small structure: chain [A] with an alanine and a glycine, chain [B]
    with an alanine; two atoms per residue, the backbone nitrogen first. *)
Definition sample_atoms : list (row (option Qc)) :=
  [ atom_row "A" "ALA" 1 "N" 0;  atom_row "A" "ALA" 1 "CA" 2;
    atom_row "A" "GLY" 2 "N" 4;  atom_row "A" "GLY" 2 "CA" 6;
    atom_row "B" "ALA" 1 "N" 10; atom_row "B" "ALA" 1 "CA" 12 ].

(** Collaborators for the examples: the accession [1ABC] resolves to the
    structure above and nothing else resolves; residue names are looked up
    in [RESI_THREE_TO_1]; the configuration has granularity [CA] and no
    edge or annotation functions. *)
Definition sample_env : collaborators (option Qc) :=
  Collaborators
    (fun path => inl "no such file")
    (fun code => if String.eqb code "1ABC"
                 then inr (PandasPdb sample_atoms [])
                 else inl "no such entry")
    (fun r => RESI_THREE_TO_1 !! r)
    (fun path => path)
    (fun df => df)
    (fun df => [])
    (Config "CA" false false None (Some []) None None None)
    (fun f g σ => (inr g, σ))
    (fun g fs σ => (inr g, σ))
    (fun g fs σ => (inr g, σ))
    (fun g fs σ => (inr g, σ))
    (fun v => match v with VStr s => s | VInt z => pretty z | _ => "" end)
    (fun pat => inr (fun s => bool_decide (is_Some (String.index 0 pat s)))).

Definition with_granularity (granularity : string) : ProteinGraphConfig :=
  Config granularity false false None (Some []) None None None.

Definition empty_store : store (option Qc) := Store ∅ ∅.

(** An attribute of the edge that the collapse builds for a node pair. *)
Definition collapsed_attr {F} (g : MultiGraph F) (σ : store F)
    (p : string * string) (k : string) : option (value F) :=
  match compute_weighted_graph_from_multigraph g σ with
  | (Ok H, _) => (edges H !! p) ≫= (fun hd => hd !! k)
  | (Raise _, _) => None
  end.

Definition kind_attr (l : loc) : attrs (option Qc) := {["kind" := VSet l]}.

Definition three_nodes : list (string * attrs (option Qc)) :=
  [("a", ∅); ("b", ∅); ("c", ∅)].

(** Two parallel edges between [a] and [b], in both orientations, and one
    edge between [a] and [c]; every edge has a kind set of its own. *)
Definition sample_multigraph : MultiGraph (option Qc) :=
  Nx 1%positive three_nodes
     [("a", "b", kind_attr 1); ("b", "a", kind_attr 2); ("a", "c", kind_attr 3)].

Definition sample_kinds : store (option Qc) :=
  Store ∅ (list_to_map [(1%positive, {["x"; "y"]}); (2%positive, {["x"]});
                        (3%positive, {["z"]})]).

(** Two parallel edges whose only label is the word [weight]. *)
Definition weight_label_multigraph : MultiGraph (option Qc) :=
  Nx 1%positive three_nodes [("a", "b", kind_attr 1); ("a", "b", kind_attr 2)].

Definition weight_label_kinds : store (option Qc) :=
  Store ∅ (list_to_map [(1%positive, {["weight"]}); (2%positive, {["weight"]})]).

(** The edge between [a] and [c] refers to the set object of the first edge
    between [a] and [b]. *)
Definition shared_set_multigraph : MultiGraph (option Qc) :=
  Nx 1%positive three_nodes
     [("a", "b", kind_attr 1); ("a", "b", kind_attr 2); ("a", "c", kind_attr 1)].

Definition shared_set_kinds : store (option Qc) :=
  Store ∅ (list_to_map [(1%positive, {["x"]}); (2%positive, {["y"]})]).

(** The chain identifiers that the nodes of a graph carry, in node order. *)
Definition node_chains {F} (ns : list (string * attrs F)) : list string :=
  omap (fun nd : string * attrs F =>
          match nd.2 !! "chain_id" with
          | Some (VStr c) => Some c
          | _ => None
          end) ns.

(** What the chain graph needs of the (restricted) source graph [g] with
    metadata [m]: every node names a chain of the chain list and a residue
    of the residue table, and every edge joins two nodes and has a [kind]. *)
Definition chain_graph_ready {F} (m : graph_meta F) (g : Graph F) : Prop :=
  (∀ nd, nd ∈ nodes g →
         ∃ c r, nd.2 !! "chain_id" = Some (VStr c) ∧ c ∈ chain_ids m
                ∧ nd.2 !! "residue_name" = Some (VStr r)
                ∧ is_Some (RESI_THREE_TO_1 !! r))
  ∧ (∀ e, e ∈ edges_data g →
          is_Some (node_data (nodes g) e.1.1)
          ∧ is_Some (node_data (nodes g) e.1.2)
          ∧ is_Some (e.2 !! "kind")).

(** The node names of a derived graph, multigraph or weighted. *)
Definition derived_nodes {F} (h : MultiGraph F + Graph F) : list string :=
  match h with
  | inl h => (nodes h).*1
  | inr H => (nodes H).*1
  end.

(** The sample structure assembled at [CA] granularity, then its chain
    graph after restriction to the chains [chain_list]. *)
Definition sample_chain_graph_nodes (chain_list : option (list string))
  : option (list string) :=
  match construct_graph sample_env None None None (Some "1ABC") "all"
          None None None None None empty_store with
  | (Ok g, σ) =>
      match compute_chain_graph sample_env g chain_list false false σ with
      | (Ok h, _) => Some (derived_nodes h)
      | (Raise _, _) => None
      end
  | (Raise _, _) => None
  end.

(** The [num_residues] attribute of the node [c] of that chain graph. *)
Definition sample_chain_graph_residues (chain_list : option (list string))
    (c : string) : option (value (option Qc)) :=
  match construct_graph sample_env None None None (Some "1ABC") "all"
          None None None None None empty_store with
  | (Ok g, σ) =>
      match compute_chain_graph sample_env g chain_list false false σ with
      | (Ok (inl h), _) => node_data (nodes h) c ≫= (fun d => d !! "num_residues")
      | _ => None
      end
  | (Raise _, _) => None
  end.

Definition sample_surviving_chains (chain_list : list string)
  : option (list string) :=
  match construct_graph sample_env None None None (Some "1ABC") "all"
          None None None None None empty_store with
  | (Ok g, σ) =>
      Some (pd_unique (node_chains (nodes (extract_subgraph_from_chains g chain_list))))
  | (Raise _, _) => None
  end.

(** A metadata dict that lists the chains [cs]. *)
Definition meta_with_chains (cs : list string) : graph_meta (option Qc) :=
  Meta "" None None cs [] [] [] [] "CA" ∅ None None None.

Definition residue_attrs (chain resn : string) : attrs (option Qc) :=
  <["chain_id" := VStr chain]> (<["residue_name" := VStr resn]> ∅).

(** Two residues in two chains, joined by one edge. *)
Definition two_chain_graph : Graph (option Qc) :=
  Nx 1%positive
     [("A:ALA:1", residue_attrs "A" "ALA"); ("B:GLY:1", residue_attrs "B" "GLY")]
     {[ekey "A:ALA:1" "B:GLY:1" := kind_attr 2]}.

Definition two_chain_store : store (option Qc) :=
  Store {[1%positive := meta_with_chains ["A"; "B"]]}
        {[2%positive := {["hbond"]}]}.

(** ** Definitions used by the further properties *)

(** What [remove_insertions] compares rows by. *)
Definition atom_key {F} (r : row F) : string * Z * string :=
  (chain_id r, residue_number r, atom_name r).

(** A row without its coordinates. *)
Definition erase_coords {F} `{!Floats F} (r : row F) : row F :=
  set_coords r nan nan nan.

(** A table in which insertions and alternate locations are resolved. *)
Definition resolved {F} (df : list (row F)) : Prop :=
  NoDup (atom_key <$> df)
  ∧ ∀ r, r ∈ df → insertion r = "" ∧ (alt_loc r = "" ∨ alt_loc r = "A").

(** The number of runs of [v] that start in [l]: an element starts a run of
    [v] when it is [v] and the element before it ([prev] for the first) is
    not. *)
Fixpoint run_count {A} `{EqDecision A} (v : A) (prev : option A) (l : list A)
  : nat :=
  match l with
  | [] => 0
  | x :: l' =>
      (if decide (x = v ∧ prev ≠ Some v) then 1 else 0) + run_count v (Some x) l'
  end.

(** The attribute dict that [add_nodes_to_graph] leaves on the node of a
    row. *)
Definition row_attrs {F} (r : row F) : attrs F :=
  list_to_map
    [ ("b_factor", VFloat (b_factor r));
      ("coords", VCoords (x_coord r, y_coord r, z_coord r));
      ("element_symbol", VStr (element_symbol r));
      ("atom_type", VStr (atom_name r));
      ("residue_number", VInt (residue_number r));
      ("residue_name", VStr (residue_name r));
      ("chain_id", VStr (chain_id r)) ].

(** The last row of a table with a given node identifier. *)
Definition last_row {F} (df : list (row F)) (n : string) : option (row F) :=
  list.last (filter (fun r => node_id r = n) df).

(** ** [assign_node_id_to_dataframe]

    The function writes the column [node_id] into the table it is given and
    returns nothing; the embedding returns the table as the call leaves it.
    At atomic granularity the column is assigned one string, the f-string
    of the two columns; [series_str] is Python's [str()] on a pandas
    [Series]. *)
Definition assign_node_id_to_dataframe {F} (series_str : list string → string)
    (protein_df : list (row F)) (granularity : string) : list (row F) :=
  let protein_df :=
    (fun r => set_node_id r (chain_id r +:+ ":" +:+ residue_name r +:+ ":"
                             +:+ pretty (residue_number r))) <$> protein_df in
  if decide (granularity = "atom")
  then
    let s := series_str (node_id <$> protein_df) +:+ ":"
             +:+ series_str (atom_name <$> protein_df) in
    (fun r => set_node_id r s) <$> protein_df
  else protein_df.

(** ** The chain graph in terms of the source graph

    The nodes of a chain, the letter of a node, and the attributes and
    edges that the chain graph is built with. *)
Definition chain_members {F} (ns : list (string * attrs F)) (c : string)
  : list (string * attrs F) :=
  filter (fun nd => in_chains [c] nd.2 = true) ns.

Definition node_letter {F} (nd : string * attrs F) : string :=
  match nd.2 !! "residue_name" with
  | Some (VStr r) => default "" (RESI_THREE_TO_1 !! r)
  | _ => ""
  end.

Definition chain_attrs {F} (ns : list (string * attrs F)) (c : string)
  : attrs F :=
  <["sequence" := VStr (String.concat "" (node_letter <$> chain_members ns c))]>
    (<["num_residues" := VInt (Z.of_nat (length (chain_members ns c)))]> ∅).

Definition chain_of {F} (ns : list (string * attrs F)) (n : string) : string :=
  match node_data ns n ≫= (fun d => d !! "chain_id") with
  | Some (VStr c) => c
  | _ => ""
  end.

Definition chain_edges {F} (g : Graph F) : list (string * string * attrs F) :=
  (fun e : string * string * attrs F =>
     (chain_of (nodes g) e.1.1, chain_of (nodes g) e.1.2,
      <["kind" := default (VStr "") (e.2 !! "kind")]> (∅ : attrs F)))
  <$> edges_data g.

(** The metadata object of a derived graph. *)
Definition derived_meta {F} (h : MultiGraph F + Graph F) : loc :=
  match h with
  | inl h => graph h
  | inr H => graph H
  end.

(** A [KeyError], whatever its key. *)
Definition is_key_error (e : exn) : Prop := ∃ k, e = KeyError k.

(** ** The secondary-structure graph in terms of the source graph

    The index of segment identifiers by node name after the two filters
    ([contains] is the compiled pattern of the allowable elements, or
    accepts everything), and the nodes and edges built from it. *)
Definition ss_filter {F} (env : collaborators F)
    (allowable_ss_elements : option (list string)) : option (string → bool) :=
  match allowable_ss_elements with
  | Some (a :: rest) =>
      match re_contains env (String.concat "|" (a :: rest)) with
      | inr contains => Some contains
      | inl _ => None
      end
  | _ => Some (fun _ => true)
  end.

Definition ss_index {F} `{EqDecision F} (env : collaborators F) (g : Graph F)
    (remove_non_ss : bool) (contains : string → bool) : list (string * string) :=
  let idx :=
    zip (nodes g).*1
      (number_groups_of_runs (py_str env)
         (omap (fun nd : string * attrs F => nd.2 !! "ss") (nodes g))) in
  let idx :=
    if remove_non_ss then filter (fun ns => contains_dash ns.2 = false) idx
    else idx in
  filter (fun ns => contains ns.2 = true) idx.

Definition first_char (s : string) : string :=
  match s with
  | String a _ => String a ""
  | EmptyString => ""
  end.

Definition ss_attrs {F} (idx : list (string * string)) (k : string) : attrs F :=
  <["ss" := VStr (first_char k)]>
    (<["constituent_residues" := VList (filter (fun ns => ns.2 = k) idx).*1]>
       (<["residue_counts" :=
            VInt (Z.of_nat (length (filter (fun ns => ns.2 = k) idx)))]> ∅)).

Definition ss_edge_of {F} (idx : list (string * string))
    (e : string * string * attrs F) : option (string * string * attrs F) :=
  su ← (list_to_map idx : gmap string string) !! e.1.1;
  sv ← (list_to_map idx : gmap string string) !! e.1.2;
  k ← e.2 !! "kind";
  Some (su, sv, <["source" := VStr (e.1.1 +:+ "_" +:+ e.1.2)]>
                  (<["kind" := k]> (∅ : attrs F))).

(** Three residues of one chain, two in a helix and one in a strand, with
    an edge between the first and the last. *)
Definition labelled_graph : Graph (option Qc) :=
  Nx 1%positive
     [("A:ALA:1", {["ss" := VStr "H"]}); ("A:GLY:2", {["ss" := VStr "H"]});
      ("A:SER:3", {["ss" := VStr "E"]})]
     {[ekey "A:ALA:1" "A:SER:3" := kind_attr 2]}.

(** ** The metadata that a construction leaves

    The metadata dict after the sequences of the chains [cs] have been
    recorded, and the node list built from a table. *)
Definition with_sequences {F} (env : collaborators F) (df : list (row F))
    (m : graph_meta F) (cs : list string) : graph_meta F :=
  foldl (fun m c => set_sequence m c (row_sequence env df c)) m cs.

Definition nodes_of_table {F} (df : list (row F)) : list (string * attrs F) :=
  (fun n => (n, from_option row_attrs ∅ (last_row df n)))
  <$> pd_unique (node_id <$> df).

(** The sample structure as the reader returns it at [CA] granularity. *)
Definition sample_raw : pandas_pdb (option Qc) :=
  PandasPdb ((fun r => set_node_id r (node_id_of "CA" r)) <$> sample_atoms) [].

(** The file that the batch writes for a built graph: its path under the
    output directory, from the [name] entry of the graph's metadata, and
    its content. *)
Definition pickle_entry {F} (out_path : string)
    (b : option (Graph F * store F)) : option (string * (Graph F * store F)) :=
  gs ← b;
  m ← metas gs.2 !! graph gs.1;
  Some (out_path +:+ "/" +:+ name m +:+ ".pickle", gs).

(** ** Which exceptions a computation can raise *)

Definition rraises_only {A} (Q : exn → Prop) (r : result A) : Prop :=
  ∀ e, r = Raise e → Q e.

Definition raises_only {F A} (Q : exn → Prop) (m : M F A) : Prop :=
  ∀ σ e, (m σ).1 = Raise e → Q e.

Definition not_assertion (e : exn) : Prop := ∀ msg, e ≠ AssertionError msg.

Definition not_config_error (e : exn) : Prop :=
  ∀ msg, e ≠ ProteinGraphConfigurationError msg.

(** Every residue name of the table has a one-letter code. *)
Definition all_named {F} (env : collaborators F) (df : list (row F)) : Prop :=
  ∀ r, r ∈ df → is_Some (three_to_one_with_mods env (residue_name r)).

(** The count attribute of a label after one more edge with the label, and
    what the collapse relies on for a label: its attribute is a count or is
    not there yet. *)
Definition bumped {F} (hd : attrs F) (k : string) : value F :=
  VInt (match hd !! k with Some (VInt c) => c + 1 | _ => 1 end).

Definition counter_or_absent {F} (hd : attrs F) (k : string) : Prop :=
  hd !! k = None ∨ ∃ c, hd !! k = Some (VInt c).

(** What holds of the adjacency of the collapsed graph and of the store
    after the edges [es] have been folded in, starting from the store
    [σ0]. *)
Definition collapse_inv {F} (σ0 : store F)
    (es : list (string * string * attrs F))
    (adj : gmap (string * string) (attrs F)) (σ : store F) : Prop :=
  (∀ p, is_Some (adj !! p) ↔ ∃ e, e ∈ es ∧ edge_key e = p)
  ∧ (∀ p hd, adj !! p = Some hd →
       hd !! "weight" = Some (VInt (weight_spec σ0 es p))
       ∧ (∃ e l, e ∈ es ∧ edge_key e = p ∧ kind_loc e = Some l
                 ∧ hd !! "kind" = Some (VSet l)
                 ∧ kinds σ !! l = Some (kind_spec σ0 es p))
       ∧ (∀ k, k ≠ "weight" → k ≠ "kind" →
               hd !! k = if decide (k ∈ kind_spec σ0 es p)
                         then Some (VInt (count_spec σ0 es p k)) else None))
  ∧ (∀ l, (∀ e, e ∈ es → kind_loc e ≠ Some l) → kinds σ !! l = kinds σ0 !! l)
  ∧ metas σ = metas σ0.

(** * Properties *)

(** ** Facts about lists *)

Lemma filter_none {A} (P : A → Prop) `{∀ x, Decision (P x)} (l : list A) :
  (∀ y, y ∈ l → ¬ P y) → filter P l = [].
Proof.
  induction l as [|x l IH]; intros Hl; [done|].
  rewrite filter_cons_False by (apply Hl; by left).
  apply IH. intros; apply Hl; by right.
Qed.

Section pd_unique_facts.
Context {A : Type} `{EqDecision A}.

Lemma pd_unique_step_elem_of (l acc : list A) (x : A) :
  x ∈ foldl (fun acc x => if decide (x ∈ acc) then acc else acc ++ [x]) acc l
  ↔ x ∈ acc ∨ x ∈ l.
Proof.
  revert acc. induction l as [|y l IH]; intros acc; cbn [foldl].
  - split; [by left|]. intros [?|Hx]; [done|]. by apply elem_of_nil in Hx.
  - rewrite IH. case_decide.
    + split; [intros [?|?]; [by left|by right; right]|].
      intros [?|[->|?]%elem_of_cons]; [by left|by left|by right].
    + rewrite elem_of_app, list_elem_of_singleton, elem_of_cons. tauto.
Qed.

Lemma pd_unique_elem_of (l : list A) (x : A) : x ∈ pd_unique l ↔ x ∈ l.
Proof.
  unfold pd_unique. rewrite pd_unique_step_elem_of. split; [|by right].
  intros [Hx|?]; [by apply elem_of_nil in Hx|done].
Qed.

Lemma pd_unique_step_NoDup (l acc : list A) :
  NoDup acc →
  NoDup (foldl (fun acc x => if decide (x ∈ acc) then acc else acc ++ [x]) acc l).
Proof.
  revert acc. induction l as [|y l IH]; intros acc Hacc; cbn [foldl]; [done|].
  apply IH. case_decide; [done|].
  apply list.NoDup_app. split; [done|]. split; [|apply NoDup_singleton].
  intros x Hx ->%list_elem_of_singleton. done.
Qed.

Lemma pd_unique_NoDup (l : list A) : NoDup (pd_unique l).
Proof. apply pd_unique_step_NoDup. constructor. Qed.

Lemma pd_unique_id (l : list A) : NoDup l → pd_unique l = l.
Proof.
  unfold pd_unique.
  assert (∀ acc, NoDup (acc ++ l) →
            foldl (fun acc x => if decide (x ∈ acc) then acc else acc ++ [x]) acc l
            = acc ++ l) as H.
  { induction l as [|y l IH]; intros acc Hnd; cbn [foldl]; [by rewrite app_nil_r|].
    rewrite decide_False.
    - rewrite IH; rewrite <- app_assoc; done.
    - apply list.NoDup_app in Hnd as (_ & Hnd & _). intros Hy. apply (Hnd y Hy). by left. }
  intros Hl. by rewrite H.
Qed.

Lemma pd_unique_length_same (l k : list A) :
  (∀ x, x ∈ l ↔ x ∈ k) → length (pd_unique l) = length (pd_unique k).
Proof.
  intros Hlk. apply Permutation_length, NoDup_Permutation; try apply pd_unique_NoDup.
  intros x. by rewrite !pd_unique_elem_of.
Qed.
End pd_unique_facts.

(** ** Which exceptions a computation can raise: closure lemmas *)


Lemma rbind_Ok {A B} (a : A) (f : A → result B) : (Ok a ≫= f) = f a.
Proof. reflexivity. Qed.


Section raises.
Context {F : Type} (Q : exn → Prop).

Lemma rro_ok {A} (a : A) : rraises_only Q (Ok a).
Proof. by intros e. Qed.

Lemma rro_raise {A} (e : exn) : Q e → rraises_only Q (@Raise A e).
Proof. intros He e' [= <-]. done. Qed.

Lemma rro_bind {A B} (r : result A) (f : A → result B) :
  rraises_only Q r → (∀ a, rraises_only Q (f a)) → rraises_only Q (r ≫= f).
Proof.
  intros Hr Hf e. destruct r as [a|e']; simpl.
  - apply Hf.
  - intros [= <-]. by apply Hr.
Qed.

Lemma rro_traverse {A B} (f : A → result B) (l : list A) :
  (∀ a, rraises_only Q (f a)) → rraises_only Q (traverse f l).
Proof.
  intros Hf. induction l as [|x l IH]; simpl; [apply rro_ok|].
  apply rro_bind; [apply Hf|]. intros y.
  apply rro_bind; [apply IH|]. intros ys. apply rro_ok.
Qed.

Lemma rro_foldR {A B} (f : B → A → result B) (b : B) (l : list A) :
  (∀ b a, rraises_only Q (f b a)) → rraises_only Q (foldR f b l).
Proof.
  intros Hf. revert b. induction l as [|x l IH]; intros b; simpl; [apply rro_ok|].
  apply rro_bind; [apply Hf|]. intros b'. apply IH.
Qed.

Lemma rro_lift_ext {A} (r : string + A) :
  (∀ s, Q (External s)) → rraises_only Q (lift_ext r).
Proof. intros HQ e. destruct r; simpl; [intros [= <-]; apply HQ|done]. Qed.

Lemma rro_dict_get {V} (m : gmap string V) (k : string) :
  (∀ s, Q (KeyError s)) → rraises_only Q (dict_get m k).
Proof. intros HQ e. unfold dict_get. destruct (m !! k); [done|]. intros [= <-]. apply HQ. Qed.

Lemma ro_ret {A} (a : A) : raises_only Q (mret a : M F A).
Proof. by intros σ e. Qed.

Lemma ro_raise {A} (e : exn) : Q e → raises_only Q (raise e : M F A).
Proof. intros He σ e' [= <-]. done. Qed.

Lemma ro_lift {A} (r : result A) : rraises_only Q r → raises_only Q (lift r : M F A).
Proof. intros Hr σ e He. by apply Hr. Qed.

Lemma ro_bind {A B} (m : M F A) (f : A → M F B) :
  raises_only Q m → (∀ a, raises_only Q (f a)) → raises_only Q (m ≫= f).
Proof.
  intros Hm Hf σ e. unfold mbind, M_bind.
  destruct (m σ) as [[a|e'] σ'] eqn:E.
  - apply Hf.
  - simpl. intros [= <-]. apply (Hm σ). by rewrite E.
Qed.

Lemma mbind_M {A B} (m : M F A) (f : A → M F B) (σ : store F) :
  (m ≫= f) σ
  = match m σ with
    | (Ok a, σ') => f a σ'
    | (Raise e, σ') => (Raise e, σ')
    end.
Proof. reflexivity. Qed.

Lemma ro_ext {A} (m : store F → (string + A) * store F) :
  (∀ s, Q (External s)) → raises_only Q (ext m).
Proof.
  intros HQ σ e. unfold ext. destruct (m σ) as [[s|a] σ']; simpl; [|done].
  intros [= <-]. apply HQ.
Qed.

Lemma ro_get_meta (l : loc) : Q AttributeError → raises_only Q (get_meta (F:=F) l).
Proof.
  intros HQ σ e. unfold get_meta. destruct (metas σ !! l); simpl; [done|].
  by intros [= <-].
Qed.

Lemma ro_get_kind (l : loc) : Q AttributeError → raises_only Q (get_kind (F:=F) l).
Proof.
  intros HQ σ e. unfold get_kind. destruct (kinds σ !! l); simpl; [done|].
  by intros [= <-].
Qed.

Lemma ro_set_meta (l : loc) (m : graph_meta F) : raises_only Q (set_meta l m).
Proof. by intros σ e. Qed.

Lemma ro_set_kind (l : loc) (K : gset string) : raises_only Q (set_kind (F:=F) l K).
Proof. by intros σ e. Qed.

Lemma ro_alloc_meta (m : graph_meta F) : raises_only Q (alloc_meta m).
Proof. by intros σ e. Qed.

Lemma ro_foldM {A B} (f : B → A → M F B) (b : B) (l : list A) :
  (∀ b a, raises_only Q (f b a)) → raises_only Q (foldM f b l).
Proof.
  intros Hf. revert b. induction l as [|x l IH]; intros b; simpl; [apply ro_ret|].
  apply ro_bind; [apply Hf|]. intros b'. apply IH.
Qed.
End raises.

(** ** Run-length segmentation *)

Section runs_facts.
Context {A : Type} `{EqDecision A} (str : A → string).

Lemma zip_with_take_l {X Y Z} (f : X → Y → Z) (xs : list X) (ys : list Y) :
  zip_with f (take (length ys) xs) ys = zip_with f xs ys.
Proof.
  revert xs. induction ys as [|y ys IH]; intros [|x xs]; simpl; try done.
  by rewrite IH.
Qed.

Lemma walk_refines (prev : option A) (counter : A → nat) (l : list A) :
  zip_with (fun v s => str v +:+ pretty s) l
    (group_cumsum counter
       (zip l (zip_with (fun p v => bool_decide (p ≠ Some v))
                 (prev :: (Some <$> l)) l)))
  = segment_walk str prev counter l.
Proof.
  revert prev counter. induction l as [|v l IH]; intros prev counter; [done|].
  cbn [fmap list_fmap zip_with zip group_cumsum segment_walk].
  assert (counter v + (if bool_decide (prev ≠ Some v) then 1 else 0)
          = if decide (prev = Some v) then counter v else S (counter v)) as ->.
  { destruct (decide (prev = Some v)) as [->|Hne].
    - rewrite bool_decide_eq_false_2; [lia|]. by intros ?.
    - rewrite bool_decide_eq_true_2; [lia|done]. }
  f_equal. apply IH.
Qed.

Lemma number_groups_of_runs_walk (l : list A) :
  number_groups_of_runs str l = segment_ids_spec str l.
Proof.
  unfold number_groups_of_runs, segment_ids_spec, run_starts, shift.
  rewrite zip_with_take_l. apply walk_refines.
Qed.
End runs_facts.

(** C2. The segment identifiers are those of the walk over the labels in
    order that gives each element its label followed by a counter, kept per
    label, which goes up by one when the label differs from the one just
    before and otherwise stays; on [A,A,B,A,A,A,B,B] they are
    [A1,A1,B1,A2,A2,A2,B2,B2]. *)
Theorem number_groups_of_runs_segments :
  (∀ l : list string, number_groups_of_runs id l = segment_ids_spec id l)
  ∧ number_groups_of_runs id ["A"; "A"; "B"; "A"; "A"; "A"; "B"; "B"]
    = ["A1"; "A1"; "B1"; "A2"; "A2"; "A2"; "B2"; "B2"].
Proof.
  split; [apply number_groups_of_runs_walk|]. by vm_compute.
Qed.

(** ** Structure-source exclusivity *)


Section exclusivity.
Context {F : Type} `{!Floats F} (env : collaborators F).

Lemma read_pdb_to_dataframe_no_assertion pdb_path pdb_code verbose granularity :
  exactly_one pdb_code pdb_path = true →
  rraises_only not_assertion
    (read_pdb_to_dataframe env pdb_path pdb_code verbose granularity).
Proof.
  intros Hone. unfold read_pdb_to_dataframe. rewrite Hone. simpl negb. cbv iota.
  apply rro_bind; [|intros; apply rro_ok].
  destruct pdb_path; [by apply rro_lift_ext|].
  destruct pdb_code; [by apply rro_lift_ext|]. by apply rro_raise.
Qed.

Lemma process_dataframe_default_ok (raw : pandas_pdb F) granularity cs ins :
  ∃ df, process_dataframe raw None None granularity cs ins true [] = Ok df.
Proof. unfold process_dataframe. eauto. Qed.

Lemma chain_sequence_no_assertion (df : list (row F)) c :
  rraises_only not_assertion (chain_sequence env df c).
Proof.
  unfold chain_sequence. apply rro_bind; [|intros; apply rro_ok].
  apply rro_traverse. intros r. destruct (three_to_one_with_mods env _);
    [apply rro_ok|by apply rro_raise].
Qed.

Lemma initialise_no_assertion df raw granularity name pdb_code pdb_path :
  exactly_one pdb_code pdb_path = true →
  raises_only not_assertion
    (initialise_graph_with_metadata env df raw granularity name pdb_code pdb_path).
Proof.
  intros Hone. unfold initialise_graph_with_metadata. rewrite Hone.
  simpl negb. cbv iota.
  apply ro_bind; [apply ro_alloc_meta|intros l].
  apply ro_bind; [by apply ro_get_meta|intros m].
  apply ro_bind; [apply ro_set_meta|intros _].
  apply ro_bind; [|intros; apply ro_ret].
  apply ro_foldM. intros _ c.
  apply ro_bind; [apply ro_lift, chain_sequence_no_assertion|intros s].
  apply ro_bind; [by apply ro_get_meta|intros m']. apply ro_set_meta.
Qed.

Lemma add_nodes_to_graph_no_assertion (G : Graph F) df verbose :
  raises_only not_assertion (add_nodes_to_graph G df verbose).
Proof.
  unfold add_nodes_to_graph. apply ro_bind; [|intros; apply ro_ret].
  destruct df; [apply ro_ret|].
  apply ro_bind; [by apply ro_get_meta|intros; apply ro_ret].
Qed.

Lemma compute_edges_no_assertion (G : Graph F) funcs :
  raises_only not_assertion (compute_edges env G funcs).
Proof.
  unfold compute_edges. apply ro_bind; [by apply ro_get_meta|intros m].
  apply ro_bind.
  - destruct (config m); [|apply ro_ret]. case_decide; apply ro_set_meta.
  - intros _. destruct funcs; [|by apply ro_raise].
    apply ro_foldM. intros G' f. by apply ro_ext.
Qed.

Lemma construct_graph_no_assertion config name pdb_path pdb_code cs f1 f2 f3 f4 f5 :
  exactly_one pdb_code pdb_path = true →
  raises_only not_assertion
    (construct_graph env config name pdb_path pdb_code cs f1 f2 f3 f4 f5).
Proof.
  intros Hone. unfold construct_graph. rewrite Hone. simpl negb. cbv iota. cbv zeta.
  apply ro_bind; [by apply ro_lift, read_pdb_to_dataframe_no_assertion|intros raw].
  apply ro_bind.
  { apply ro_lift. destruct (process_dataframe_default_ok raw
      (granularity (default (default_config env) config)) cs
      (insertions (default (default_config env) config))) as [df Hdf].
    simpl in *. rewrite Hdf. apply rro_ok. }
  intros df.
  apply ro_bind; [by apply initialise_no_assertion|intros g].
  apply ro_bind; [apply add_nodes_to_graph_no_assertion|intros g1].
  apply ro_bind; [by apply ro_get_meta|intros m].
  apply ro_bind; [apply ro_set_meta|intros _].
  apply ro_bind. { case_match; [by apply ro_ext|apply ro_ret]. }
  intros g2.
  apply ro_bind; [apply compute_edges_no_assertion|intros g3].
  apply ro_bind. { case_match; [by apply ro_ext|apply ro_ret]. }
  intros g4.
  apply ro_bind. { case_match; [by apply ro_ext|apply ro_ret]. }
  intros g5. apply ro_ret.
Qed.

Lemma exactly_one_false pdb_code pdb_path :
  exactly_one pdb_code pdb_path = false ↔ truthy pdb_code = truthy pdb_path.
Proof. unfold exactly_one. destruct (truthy pdb_code), (truthy pdb_path); naive_solver. Qed.

(** C7. Graph construction raises its assertion error exactly when not
    exactly one of the accession and the file path is supplied, that is
    when both are or neither is; it does so before anything else happens:
    the store is untouched and no collaborator has been asked. The reader
    of the structure makes the same check. *)
Theorem construct_graph_source_exclusivity
    config name pdb_path pdb_code cs f1 f2 f3 f4 f5 verbose granularity
    (σ : store F) :
  ((∃ msg, (construct_graph env config name pdb_path pdb_code cs
              f1 f2 f3 f4 f5 σ).1 = Raise (AssertionError msg))
   ↔ truthy pdb_code = truthy pdb_path)
  ∧ (truthy pdb_code = truthy pdb_path →
     construct_graph env config name pdb_path pdb_code cs f1 f2 f3 f4 f5 σ
     = (Raise (AssertionError msg_construct), σ))
  ∧ ((∃ msg, read_pdb_to_dataframe env pdb_path pdb_code verbose granularity
             = Raise (AssertionError msg))
     ↔ truthy pdb_code = truthy pdb_path).
Proof.
  rewrite <- exactly_one_false.
  assert (exactly_one pdb_code pdb_path = false →
          construct_graph env config name pdb_path pdb_code cs f1 f2 f3 f4 f5 σ
          = (Raise (AssertionError msg_construct), σ)) as Hsync.
  { intros Hone. unfold construct_graph. by rewrite Hone. }
  split; [|split; [done|]]; split.
  - intros [msg Hmsg]. destruct (exactly_one pdb_code pdb_path) eqn:Hone; [|done].
    exfalso. eapply construct_graph_no_assertion; eauto.
  - intros Hone. exists msg_construct. by rewrite Hsync.
  - intros [msg Hmsg]. destruct (exactly_one pdb_code pdb_path) eqn:Hone; [|done].
    exfalso. eapply read_pdb_to_dataframe_no_assertion; eauto.
  - intros Hone. exists msg_read. unfold read_pdb_to_dataframe. by rewrite Hone.
Qed.
End exclusivity.

Lemma construct_graph_source_exclusivity_witness :
  construct_graph sample_env None None (Some "1abc.pdb") (Some "1ABC") "all"
    None None None None None empty_store
  = (Raise (AssertionError msg_construct), empty_store).
Proof.
  apply (construct_graph_source_exclusivity sample_env None None
           (Some "1abc.pdb") (Some "1ABC") "all" None None None None None
           false "CA" empty_store).
  reflexivity.
Defined.

(** ** Batch construction *)

Section batch.
Context {F : Type} `{!Floats F} (env : collaborators F).

Lemma batch_args_all_gen (pdbs cs : list string) (ix : nat → nat) :
  (∀ i, i < length pdbs → cs !! ix i = Some "all") →
  traverse
    (fun ip : nat * string =>
       match cs !! ip.1 with
       | Some c => Ok (ip.2, c)
       | None => Raise IndexError
       end)
    (imap (fun i pdb => (ix i, pdb)) pdbs)
  = Ok ((fun pdb => (pdb, "all")) <$> pdbs).
Proof.
  revert ix. induction pdbs as [|p pdbs IH]; intros ix Hix; [done|].
  cbn [imap traverse fmap list_fmap].
  change (imap (_ ∘ S) pdbs) with (imap (fun i pdb => ((ix ∘ S) i, pdb)) pdbs).
  rewrite (IH (ix ∘ S)) by (intros i Hi; apply Hix; simpl; lia).
  cbn [fst snd]. rewrite (Hix 0) by (simpl; lia). done.
Qed.

Lemma batch_args_default (pdbs : list string) :
  batch_args pdbs (replicate (length pdbs) "all")
  = Ok ((fun pdb => (pdb, "all")) <$> pdbs).
Proof.
  unfold batch_args. apply (batch_args_all_gen pdbs _ id).
  intros i Hi. by apply lookup_replicate_2.
Qed.

Lemma write_graphs_none (out_path : string) (graphs : list (option (Graph F * store F))) written :
  None ∈ graphs → (write_graphs out_path graphs written).1 = Raise AttributeError.
Proof.
  revert written. induction graphs as [|g graphs IH]; intros written Hin.
  - by apply elem_of_nil in Hin.
  - destruct g as [[g σ]|]; [|done]. simpl.
    destruct (metas σ !! graph g); [|done].
    apply IH. apply elem_of_cons in Hin as [?|?]; [done|done].
Qed.

(** Without an output directory and with list output, the batch returns
    one entry per input, in input order: the graph of the task, or [None]
    where the construction raised. *)
Lemma construct_graphs_mp_isolates (codes : list string) config num_cores σ :
  construct_graphs_mp env (Some codes) None None config num_cores false None σ
  = (Ok (AsList ((fun c => mp_graph_constructor env (c, "all") true config σ)
                   <$> codes)), []).
Proof.
  unfold construct_graphs_mp. rewrite batch_args_default.
  by rewrite <- list_fmap_compose.
Qed.

(** With an output directory, a failed task makes the batch raise. *)
Lemma construct_graphs_mp_failed_task_raises
    (codes : list string) config num_cores return_dict out_path σ c :
  c ∈ codes →
  mp_graph_constructor env (c, "all") true config σ = None →
  (construct_graphs_mp env (Some codes) None None config num_cores
     return_dict (Some out_path) σ).1 = Raise AttributeError.
Proof.
  intros Hc Hfail. unfold construct_graphs_mp. rewrite batch_args_default.
  rewrite <- list_fmap_compose.
  pose proof (write_graphs_none out_path
    ((fun c => mp_graph_constructor env (c, "all") true config σ) <$> codes) []) as Hw.
  destruct (write_graphs _ _ _) as [w written]. simpl in Hw.
  rewrite Hw; [done|].
  apply list_elem_of_fmap. exists c. by rewrite Hfail.
Qed.

(** C9. When both a list of accessions and a list of paths are given, no
    error is raised for it: the batch behaves exactly as if only the paths
    had been given, and every task is built from a path. *)
Theorem construct_graphs_mp_paths_take_precedence
    (codes paths : list string) chain_selections config num_cores
    return_dict out_path σ :
  construct_graphs_mp env (Some codes) (Some paths) chain_selections config
    num_cores return_dict out_path σ
  = construct_graphs_mp env None (Some paths) chain_selections config
      num_cores return_dict out_path σ
  ∧ construct_graphs_mp env (Some codes) (Some paths) None config
      num_cores false None σ
    = (Ok (AsList ((fun p => mp_graph_constructor env (p, "all") false config σ)
                     <$> paths)), []).
Proof.
  split; [done|].
  unfold construct_graphs_mp. rewrite batch_args_default.
  by rewrite <- list_fmap_compose.
Qed.
End batch.

(** C3. A batch of two accessions, the second of which does not resolve, with
    an output directory: the first graph is built and written, and the batch
    call raises [AttributeError] when the writer reaches the [None] of the
    second; without the output directory the same batch returns the two
    entries, the second being [None]. *)
Theorem construct_graphs_mp_raises_on_failed_item :
  let cfg := default_config sample_env in
  (construct_graphs_mp sample_env (Some ["1ABC"; "0000"]) None None cfg 16
     false (Some "out") empty_store).1 = Raise AttributeError
  ∧ (((construct_graphs_mp sample_env (Some ["1ABC"; "0000"]) None None cfg 16
     false (Some "out") empty_store).2).*1 = ["out/1ABC.pickle"])
  ∧ ∃ g, (construct_graphs_mp sample_env (Some ["1ABC"; "0000"]) None None cfg 16
            false None empty_store).1 = Ok (AsList [Some g; None]).
Proof.
  split; [by vm_compute|]. split; [by vm_compute|].
  rewrite construct_graphs_mp_isolates. simpl fmap.
  destruct (mp_graph_constructor sample_env ("1ABC", "all") true
              (default_config sample_env) empty_store) as [g|] eqn:E;
    [|by vm_compute in E].
  exists g. simpl. do 3 f_equal. 
  by vm_compute.
Qed.

(** ** The precondition of the secondary-structure graph *)


Section segment_precondition.
Context {F : Type} `{!Floats F} `{EqDecision F} (env : collaborators F).

Lemma ss_of_node_labelled (ns : list (string * attrs F)) :
  (∀ nd, nd ∈ ns → is_Some (nd.2 !! "ss")) →
  ∃ vs, traverse ss_of_node ns = Ok vs.
Proof.
  induction ns as [|nd ns IH]; intros Hall; [by eexists|].
  destruct (Hall nd) as [v Hv]; [by left|].
  destruct IH as [vs Hvs]; [intros; apply Hall; by right|].
  exists (v :: vs). cbn [traverse]. rewrite Hvs. unfold ss_of_node. by rewrite Hv.
Qed.

Lemma ss_of_node_unlabelled (ns : list (string * attrs F)) :
  (∃ nd, nd ∈ ns ∧ nd.2 !! "ss" = None) →
  traverse ss_of_node ns = Raise (ProteinGraphConfigurationError msg_ss).
Proof.
  induction ns as [|nd ns IH]; intros (nd' & Hin & Hnone).
  - by apply elem_of_nil in Hin.
  - cbn [traverse]. destruct (nd.2 !! "ss") as [v|] eqn:Hv.
    + rewrite IH; [by unfold ss_of_node; rewrite Hv|].
      exists nd'. split; [|done].
      apply elem_of_cons in Hin as [->|?]; [congruence|done].
    + unfold ss_of_node. by rewrite Hv.
Qed.

Lemma bump_kind_no_config_error (hd : attrs F) kind :
  rraises_only not_config_error (bump_kind hd kind).
Proof.
  unfold bump_kind. repeat case_match; (apply rro_ok || by apply rro_raise).
Qed.

Lemma kind_ref_no_config_error (d : attrs F) :
  rraises_only not_config_error (kind_ref d).
Proof.
  unfold kind_ref. repeat case_match; (apply rro_ok || by apply rro_raise).
Qed.

Lemma collapse_edge_no_config_error H (e : string * string * attrs F) :
  raises_only not_config_error (collapse_edge H e).
Proof.
  destruct e as [[u v] d], H as [hn adj]. unfold collapse_edge.
  destruct (adj !! ekey u v) as [hd|].
  - apply ro_bind; [apply ro_lift, kind_ref_no_config_error|intros kl].
    apply ro_bind; [by apply ro_get_kind|intros K].
    apply ro_bind.
    { apply ro_lift. repeat case_match; (apply rro_ok || by apply rro_raise). }
    intros hd'. apply ro_bind.
    { repeat case_match; try by apply ro_raise.
      apply ro_bind; [by apply ro_get_kind|intros HK].
      apply ro_bind; [by apply ro_get_kind|intros K'']. apply ro_set_kind. }
    intros _. apply ro_bind; [by apply ro_get_kind|intros K'].
    apply ro_bind; [|intros; apply ro_ret].
    apply ro_lift, rro_foldR. intros; apply bump_kind_no_config_error.
  - apply ro_bind; [apply ro_lift, kind_ref_no_config_error|intros kl].
    apply ro_bind; [by apply ro_get_kind|intros K]. apply ro_ret.
Qed.

Lemma collapse_no_config_error (g : MultiGraph F) :
  raises_only not_config_error (compute_weighted_graph_from_multigraph g).
Proof.
  unfold compute_weighted_graph_from_multigraph.
  apply ro_bind; [|intros; apply ro_ret].
  apply ro_foldM. intros; apply collapse_edge_no_config_error.
Qed.

Lemma ss_edge_no_config_error ss_list h (e : string * string * attrs F) :
  rraises_only not_config_error (ss_edge ss_list h e).
Proof.
  destruct e as [[u v] d]. unfold ss_edge.
  match goal with |- rraises_only _ (match ?r with _ => _ end) =>
    assert (rraises_only not_config_error r) as Hr end.
  { apply rro_bind; [by apply rro_dict_get|intros su].
    apply rro_bind; [by apply rro_dict_get|intros sv].
    apply rro_bind; [by apply rro_dict_get|intros k]. apply rro_ok. }
  match goal with |- rraises_only _ (match ?r with _ => _ end) =>
    destruct r as [h'|ex] end; [apply rro_ok|].
  destruct ex; try apply rro_ok; apply rro_raise; by apply Hr.
Qed.

(** C8. The derivation of the secondary-structure graph raises the
    configuration error exactly when some source node has no [ss]
    attribute; it then raises it before touching anything. *)
Theorem compute_secondary_structure_graph_precondition
    (g : Graph F) allowable remove_non_ss remove_self_loops weighted (σ : store F) :
  ((∃ msg, (compute_secondary_structure_graph env g allowable remove_non_ss
              remove_self_loops weighted σ).1
           = Raise (ProteinGraphConfigurationError msg))
   ↔ ∃ nd, nd ∈ nodes g ∧ nd.2 !! "ss" = None)
  ∧ ((∃ nd, nd ∈ nodes g ∧ nd.2 !! "ss" = None) →
     compute_secondary_structure_graph env g allowable remove_non_ss
       remove_self_loops weighted σ
     = (Raise (ProteinGraphConfigurationError msg_ss), σ)).
Proof.
  assert ((∃ nd, nd ∈ nodes g ∧ nd.2 !! "ss" = None) →
          compute_secondary_structure_graph env g allowable remove_non_ss
            remove_self_loops weighted σ
          = (Raise (ProteinGraphConfigurationError msg_ss), σ)) as Hraise.
  { intros Hex. unfold compute_secondary_structure_graph.
    by rewrite (ss_of_node_unlabelled _ Hex). }
  split; [|done]. split; [|intros Hex; rewrite (Hraise Hex); by eexists].
  intros [msg Hmsg].
  destruct (decide (Exists (fun nd : string * attrs F => nd.2 !! "ss" = None) (nodes g)))
    as [Hex|Hall].
  { apply Exists_exists in Hex as (nd & Hnd & Hss).
    exists nd. by rewrite list_elem_of_In. }
  exfalso. revert Hmsg.
  destruct (ss_of_node_labelled (nodes g)) as [vs Hvs].
  { intros nd Hnd. destruct (nd.2 !! "ss") eqn:E; [by eexists|].
    exfalso. apply Hall, Exists_exists. exists nd. by rewrite <- list_elem_of_In. }
  unfold compute_secondary_structure_graph. rewrite Hvs.
  intros Hmsg. revert Hmsg.
  match goal with |- (?m σ).1 = _ → _ =>
    assert (raises_only not_config_error m) as Hro end.
  { apply ro_bind; [apply ro_lift, rro_ok|intros ss]. cbv zeta.
    apply ro_bind.
    { destruct allowable as [[|a rest]|]; try apply ro_ret.
      apply ro_bind; [by apply ro_lift, rro_lift_ext|intros; apply ro_ret]. }
    intros ss'. apply ro_bind.
    { apply ro_lift, rro_traverse. intros nd. destruct (nd.1);
        [by apply rro_raise|apply rro_ok]. }
    intros hn. apply ro_bind; [by apply ro_get_meta|intros m].
    apply ro_bind; [apply ro_set_meta|intros _].
    apply ro_bind; [apply ro_lift, rro_foldR; intros; apply ss_edge_no_config_error|].
    intros h. destruct weighted; [|apply ro_ret].
    apply ro_bind; [apply collapse_no_config_error|intros; apply ro_ret]. }
  intros Hmsg. by eapply Hro.
Qed.
End segment_precondition.

Lemma compute_secondary_structure_graph_precondition_witness :
  compute_secondary_structure_graph sample_env two_chain_graph None true false
    false two_chain_store
  = (Raise (ProteinGraphConfigurationError msg_ss), two_chain_store).
Proof.
  apply (compute_secondary_structure_graph_precondition sample_env
           two_chain_graph None true false false two_chain_store).
  exists ("A:ALA:1", residue_attrs "A" "ALA"). split; [by left|].
  apply (bool_decide_unpack _). by vm_compute.
Defined.

(** ** Centroid reduction *)

Section centroids.
Context {F : Type} `{!Floats F}.






End centroids.



(** ** Per-chain sequences *)

Section sequences.
Context {F : Type} `{!Floats F} (env : collaborators F).


Lemma traverse_letters (rows : list (row F)) :
  (∀ r, r ∈ rows → is_Some (three_to_one_with_mods env (residue_name r))) →
  traverse
    (fun r =>
       match three_to_one_with_mods env (residue_name r) with
       | Some s => Ok s
       | None => Raise (KeyError (residue_name r))
       end) rows
  = Ok (omap (fun r => three_to_one_with_mods env (residue_name r)) rows).
Proof.
  induction rows as [|r rows IH]; intros Hall; [done|].
  cbn [traverse omap list_omap]. destruct (Hall r) as [s Hs]; [by left|].
  rewrite Hs, IH; [reflexivity|]. intros; apply Hall; by right.
Qed.

Lemma chain_sequence_rows (df : list (row F)) c :
  all_named env df → chain_sequence env df c = Ok (row_sequence env df c).
Proof.
  intros Hall. unfold chain_sequence, row_sequence.
  rewrite traverse_letters; [done|].
  intros r Hr. apply Hall. by apply list_elem_of_filter in Hr as [_ ?].
Qed.

Lemma sequence_loop (df : list (row F)) (l : loc) (cs : list string)
    (σ : store F) (m : graph_meta F) :
  all_named env df → metas σ !! l = Some m →
  ∃ σ' m',
    foldM (fun (_ : unit) c =>
             s ← lift (chain_sequence env df c);
             m ← get_meta l;
             set_meta l (set_sequence m c s)) () cs σ = (Ok (), σ')
    ∧ metas σ' !! l = Some m'
    ∧ chain_ids m' = chain_ids m
    ∧ ∀ c, sequences m' !! c
           = if decide (c ∈ cs) then Some (row_sequence env df c)
             else sequences m !! c.
Proof.
  intros Hall. revert σ m. induction cs as [|c cs IH]; intros σ m Hm.
  - exists σ, m. split; [done|]. split; [done|]. split; [done|].
    intros c. by rewrite decide_False by set_solver.
  - cbn [foldM]. unfold mbind at 1, M_bind at 1. unfold mbind at 1, M_bind at 1.
    unfold lift at 1. rewrite (chain_sequence_rows df c Hall).
    unfold mbind at 1, M_bind at 1. unfold get_meta at 1. rewrite Hm.
    unfold set_meta at 1.
    destruct (IH (Store (<[l:=set_sequence m c (row_sequence env df c)]> (metas σ)) (kinds σ))
                (set_sequence m c (row_sequence env df c))) as (σ' & m' & Hrun & Hm' & Hids & Hseq).
    { simpl. apply lookup_insert_eq. }
    exists σ', m'. split; [exact Hrun|]. split; [done|]. split; [done|].
    intros c'. rewrite Hseq. simpl.
    destruct (decide (c' = c)) as [->|Hne].
    + rewrite (decide_True (P := c ∈ c :: cs)) by set_solver.
      rewrite lookup_insert_eq. by case_decide.
    + rewrite lookup_insert_ne by done.
      destruct (decide (c' ∈ cs)).
      * by rewrite decide_True by set_solver.
      * by rewrite decide_False by set_solver.
Qed.




Lemma filter_unique_key {A} (key : A → Z) (rows : list A) (r : A) :
  NoDup (key <$> rows) → r ∈ rows →
  filter (fun r0 => key r0 = key r) rows = [r].
Proof.
  induction rows as [|x rows IH]; intros Hnd Hin; [by apply elem_of_nil in Hin|].
  cbn [fmap list_fmap] in Hnd. apply list.NoDup_cons in Hnd as [Hx Hnd].
  apply elem_of_cons in Hin as [->|Hin].
  - rewrite filter_cons_True by done. f_equal. apply filter_none.
    intros y Hy Heq. apply Hx. rewrite <- Heq. by apply list_elem_of_fmap_2.
  - rewrite filter_cons_False; [by apply IH|].
    intros Heq. apply Hx. rewrite Heq. by apply list_elem_of_fmap_2.
Qed.

(** When a chain has one row per residue, the letters of its rows are the
    letters of its residues. *)
Lemma row_sequence_residues (df : list (row F)) c :
  NoDup (residue_number <$> filter (fun r => chain_id r = c) df) →
  row_sequence env df c = residue_sequence env df c.
Proof.
  intros Hnd. unfold row_sequence, residue_sequence. cbv zeta.
  set (rows := filter (fun r => chain_id r = c) df) in *.
  rewrite pd_unique_id by done. f_equal.
  assert (∀ rs : list (row F), (∀ r, r ∈ rs → r ∈ rows) →
            omap (fun r => three_to_one_with_mods env (residue_name r)) rs
            = omap (fun k => r ← head (filter (fun r => residue_number r = k) rows);
                             three_to_one_with_mods env (residue_name r))
                   (residue_number <$> rs)) as H.
  { induction rs as [|r rs IH]; intros Hsub; [done|].
    cbn [fmap list_fmap omap list_omap].
    rewrite <- IH by (intros; apply Hsub; by right).
    rewrite (filter_unique_key residue_number rows r Hnd) by (apply Hsub; by left).
    done. }
  by apply H.
Qed.

(** What the assembler records as the sequence of a chain: the one-letter
    codes of the residue names of the chain's rows in the reduced table,
    in table order; the chain list is the distinct chain identifiers of
    the table in order of first appearance. Where the chain has one row
    per residue this is the sequence of its residues. *)
Theorem initialise_graph_with_metadata_sequences
    (df raw : list (row F)) granularity name pdb_code pdb_path (σ : store F) :
  exactly_one pdb_code pdb_path = true →
  all_named env df →
  ∃ g σ' m,
    initialise_graph_with_metadata env df raw granularity name pdb_code pdb_path σ
    = (Ok g, σ')
    ∧ metas σ' !! graph g = Some m
    ∧ chain_ids m = pd_unique (chain_id <$> df)
    ∧ (∀ c, c ∈ chain_ids m → sequences m !! c = Some (row_sequence env df c))
    ∧ (∀ c, c ∈ chain_ids m →
            NoDup (residue_number <$> filter (fun r => chain_id r = c) df) →
            sequences m !! c = Some (residue_sequence env df c)).
Proof.
  intros Hone Hall. unfold initialise_graph_with_metadata. rewrite Hone.
  unfold negb. cbv zeta.
  rewrite mbind_M. unfold alloc_meta at 1. cbv beta iota.
  set (l := fresh (dom (metas σ))).
  rewrite mbind_M. unfold get_meta at 1. cbn [metas kinds].
  rewrite lookup_insert_eq.
  rewrite mbind_M. unfold set_meta at 1. cbn [metas kinds].
  rewrite insert_insert_eq.
  match goal with |- context [set_node_type ?m0 granularity] =>
    set (m1 := set_node_type m0 granularity) end.
  destruct (sequence_loop df l (pd_unique (chain_id <$> df))
              (Store (<[l:=m1]> (metas σ)) (kinds σ)) m1 Hall)
    as (σ' & m' & Hrun & Hm' & Hids & Hseq).
  { simpl. apply lookup_insert_eq. }
  rewrite mbind_M, Hrun.
  exists (Nx l [] ∅), σ', m'. split; [done|]. split; [done|].
  assert (∀ c, c ∈ chain_ids m' → sequences m' !! c = Some (row_sequence env df c)) as Hrows.
  { intros c Hc. rewrite Hseq. rewrite decide_True; [done|].
    rewrite Hids in Hc. exact Hc. }
  split; [by rewrite Hids|]. split; [done|].
  intros c Hc Hnd. rewrite Hrows by done. by rewrite row_sequence_residues.
Qed.
End sequences.

(** C6. The sequence of a chain depends on the granularity. For the sample
    structure, whose chain [A] has the two residues alanine and glycine,
    the graph built at [CA] or centroid granularity records [AG] for chain
    [A], the sequence of its residues; built at atomic granularity it
    records [AAGG], one letter per atom. *)
Lemma sequence_depends_on_granularity :
  let build granularity :=
    construct_graph sample_env (Some (with_granularity granularity)) None None
      (Some "1ABC") "all" None None None None None empty_store in
  sequence_of (build "atom") "A" = Some "AAGG"
  ∧ sequence_of (build "CA") "A" = Some "AG"
  ∧ sequence_of (build "centroids") "A" = Some "AG"
  ∧ residue_sequence sample_env sample_atoms "A" = "AG".
Proof. by vm_compute. Qed.

Lemma initialise_graph_with_metadata_sequences_witness :
  ∃ g σ' m,
    initialise_graph_with_metadata sample_env (CA_rows sample_atoms) sample_atoms
      "CA" None (Some "1ABC") None empty_store = (Ok g, σ')
    ∧ metas σ' !! graph g = Some m
    ∧ chain_ids m = ["A"; "B"]
    ∧ sequences m !! "A" = Some "AG".
Proof.
  destruct (initialise_graph_with_metadata_sequences sample_env
              (CA_rows sample_atoms) sample_atoms "CA" None (Some "1ABC") None
              empty_store)
    as (g & σ' & m & Hrun & Hm & Hids & Hrows & Hres).
  - reflexivity.
  - intros r Hr. vm_compute in Hr.
    repeat (apply elem_of_cons in Hr as [->|Hr]); try (by eexists);
      by apply elem_of_nil in Hr.
  - exists g, σ', m. split; [done|]. split; [done|]. split; [done|].
    rewrite Hrows; [done|]. rewrite Hids. vm_compute. set_solver.
Defined.

(** ** Collapse of a multigraph *)

Section collapse.
Context {F : Type}.
Implicit Types (e : string * string * attrs F) (es : list (string * string * attrs F)).
Implicit Types (hd : attrs F) (σ : store F) (p : string * string).

Lemma ekey_sym (u v : string) : ekey u v = ekey v u.
Proof.
  unfold ekey. destruct (String.leb u v) eqn:Huv, (String.leb v u) eqn:Hvu; try done.
  - by rewrite (String.leb_antisym _ _ Huv Hvu).
  - destruct (String.leb_total u v); congruence.
Qed.

Lemma foldl_insert_lookup hd (ks : list string) (k : string) :
  foldl (fun hd kind => <[kind := VInt 1]> hd) hd ks !! k
  = if decide (k ∈ ks) then Some (VInt 1) else hd !! k.
Proof.
  revert hd. induction ks as [|k' ks IH]; intros hd; cbn [foldl].
  - by rewrite decide_False by apply not_elem_of_nil.
  - rewrite IH. destruct (decide (k ∈ ks)).
    + by rewrite decide_True by (by right).
    + destruct (decide (k = k')) as [->|Hne].
      * rewrite lookup_insert_eq. by rewrite decide_True by (by left).
      * rewrite lookup_insert_ne by done.
        rewrite decide_False; [done|]. by intros [?|?]%elem_of_cons.
Qed.



Lemma bump_kind_ok hd k :
  counter_or_absent hd k → bump_kind hd k = Ok (<[k := bumped hd k]> hd).
Proof.
  unfold bump_kind, bumped. by intros [->|[c ->]].
Qed.

Lemma bump_fold (ks : list string) hd :
  NoDup ks → (∀ k, k ∈ ks → counter_or_absent hd k) →
  ∃ hd', foldR bump_kind hd ks = Ok hd'
         ∧ ∀ k, hd' !! k = if decide (k ∈ ks) then Some (bumped hd k) else hd !! k.
Proof.
  revert hd. induction ks as [|k' ks IH]; intros hd Hnd Hks.
  - exists hd. split; [done|]. intros k. by rewrite decide_False by apply not_elem_of_nil.
  - apply list.NoDup_cons in Hnd as [Hk' Hnd].
    cbn [foldR]. rewrite bump_kind_ok by (apply Hks; by left). simpl.
    destruct (IH (<[k' := bumped hd k']> hd) Hnd) as (hd' & Hrun & Hlook).
    { intros k Hk. unfold counter_or_absent.
      rewrite lookup_insert_ne by (intros ->; done). apply Hks. by right. }
    exists hd'. split; [done|]. intros k. rewrite Hlook.
    destruct (decide (k ∈ ks)) as [Hin|Hnin].
    + rewrite decide_True by (by right). unfold bumped.
      by rewrite lookup_insert_ne by (intros ->; done).
    + destruct (decide (k = k')) as [->|Hne].
      * rewrite lookup_insert_eq. by rewrite decide_True by (by left).
      * rewrite lookup_insert_ne by done.
        rewrite decide_False; [done|]. by intros [?|?]%elem_of_cons.
Qed.

Lemma omap_NoDup_inj {A B} (f : A → option B) (l : list A) (x y : A) (b : B) :
  NoDup (omap f l) → x ∈ l → y ∈ l → f x = Some b → f y = Some b → x = y.
Proof.
  induction l as [|a l IH]; intros Hnd Hx Hy Hfx Hfy; [by apply elem_of_nil in Hx|].
  cbn [omap list_omap] in Hnd.
  assert (∀ z, z ∈ l → f z = Some b → b ∈ omap f l) as Hin.
  { intros z Hz Hfz. apply list_elem_of_omap. eauto. }
  apply elem_of_cons in Hx as [->|Hx], Hy as [->|Hy]; [done| | |].
  - rewrite Hfx in Hnd. apply list.NoDup_cons in Hnd as [Hb _]. destruct Hb; eauto.
  - rewrite Hfy in Hnd. apply list.NoDup_cons in Hnd as [Hb _]. destruct Hb; eauto.
  - apply IH; try done. destruct (f a); [by apply list.NoDup_cons in Hnd as [_ ?]|done].
Qed.

Lemma kind_loc_ref e l : kind_loc e = Some l → kind_ref e.2 = Ok l.
Proof.
  unfold kind_loc, kind_ref. destruct (e.2 !! "kind") as [[]|]; naive_solver.
Qed.

Lemma edge_kind_loc σ e l K :
  kind_loc e = Some l → kinds σ !! l = Some K → edge_kind σ e = K.
Proof. unfold edge_kind. by intros -> ->. Qed.

Lemma parallel_snoc es e p :
  parallel (es ++ [e]) p
  = if decide (edge_key e = p) then parallel es p ++ [e] else parallel es p.
Proof.
  unfold parallel. rewrite list.filter_app. case_decide.
  - by rewrite filter_cons_True by done.
  - rewrite filter_cons_False by done. by rewrite app_nil_r.
Qed.

Lemma parallel_elem_of es e p : e ∈ parallel es p ↔ e ∈ es ∧ edge_key e = p.
Proof. unfold parallel. rewrite list_elem_of_filter. tauto. Qed.

Lemma parallel_nil es p :
  (¬ ∃ e, e ∈ es ∧ edge_key e = p) → parallel es p = [].
Proof.
  intros Hno. destruct (parallel es p) as [|e l] eqn:E; [done|].
  destruct Hno. exists e. apply parallel_elem_of. rewrite E. by left.
Qed.

Lemma weight_spec_snoc σ es e p :
  weight_spec σ (es ++ [e]) p
  = if decide (edge_key e = p)
    then (weight_spec σ es p + Z.of_nat (size (edge_kind σ e)))%Z
    else weight_spec σ es p.
Proof.
  unfold weight_spec. rewrite parallel_snoc. case_decide; [|done].
  rewrite sum_list_with_app. simpl. lia.
Qed.

Lemma kind_spec_snoc σ es e p :
  kind_spec σ (es ++ [e]) p
  = if decide (edge_key e = p) then kind_spec σ es p ∪ edge_kind σ e
    else kind_spec σ es p.
Proof.
  unfold kind_spec. rewrite parallel_snoc. case_decide; [|done].
  rewrite fmap_app, union_list_app_L. simpl. set_solver.
Qed.

Lemma count_spec_snoc σ es e p k :
  count_spec σ (es ++ [e]) p k
  = if decide (edge_key e = p)
    then (count_spec σ es p k + if decide (k ∈ edge_kind σ e) then 1 else 0)%Z
    else count_spec σ es p k.
Proof.
  unfold count_spec. rewrite parallel_snoc. case_decide; [|done].
  rewrite list.filter_app, length_app. 
  destruct (decide (k ∈ edge_kind σ e)).
  - rewrite filter_cons_True by done. simpl. lia.
  - rewrite filter_cons_False by done. simpl. lia.
Qed.

Lemma count_spec_absent σ es p k :
  k ∉ kind_spec σ es p → count_spec σ es p k = 0%Z.
Proof.
  intros Hk. unfold count_spec. rewrite filter_none; [done|].
  intros e He Hke. apply Hk. unfold kind_spec.
  apply elem_of_union_list. exists (edge_kind σ e). split; [|done].
  by apply list_elem_of_fmap_2.
Qed.
End collapse.

Section collapse_invariant.
Context {F : Type}.
Implicit Types (e : string * string * attrs F) (es : list (string * string * attrs F)).
Implicit Types (hd : attrs F) (σ : store F) (p : string * string).
Implicit Types (adj : gmap (string * string) (attrs F)).


Lemma collapse_inv_nil σ0 : collapse_inv σ0 [] ∅ σ0.
Proof.
  split; [|split; [|done]].
  - intros p. rewrite lookup_empty. split; [by intros [? ?]|].
    intros (e & He & _). by apply elem_of_nil in He.
  - intros p hd. by rewrite lookup_empty.
Qed.

Lemma collapse_edge_step σ0 es e hn adj σ :
  collapse_inv σ0 es adj σ → collapsible σ0 (es ++ [e]) →
  ∃ adj' σ',
    collapse_edge (hn, adj) e σ
    = (Ok (if decide (is_Some (adj !! edge_key e)) then hn
           else ensure_node (ensure_node hn e.1.1) e.1.2, adj'), σ')
    ∧ collapse_inv σ0 (es ++ [e]) adj' σ'.
Proof.
  intros (Hdom & Hattr & Hframe & Hmetas) [Hedges Hnodup].
  destruct (Hedges e) as (kl & K & Hkl & HK & Hw & Hk);
    [apply elem_of_app; right; by left|].
  rewrite omap_app in Hnodup. cbn [omap list_omap] in Hnodup. rewrite Hkl in Hnodup.
  apply list.NoDup_app in Hnodup as (Hnd & Hfresh & _).
  assert (∀ e', e' ∈ es → kind_loc e' ≠ Some kl) as Hkl_fresh.
  { intros e' He' Heq. apply (Hfresh kl); [|by left].
    apply list_elem_of_omap. eauto. }
  assert (kinds σ !! kl = Some K) as HKσ by (by rewrite Hframe).
  pose proof (edge_kind_loc σ0 e kl K Hkl HK) as HeK.
  pose proof (kind_loc_ref e kl Hkl) as Href.
  destruct e as [[u v] d]. unfold edge_key in *. cbn [fst snd] in *.
  unfold collapse_edge. set (p := ekey u v) in *.
  destruct (adj !! p) as [hd|] eqn:Hadj.
  - (* the pair already has an edge in H *)
    rewrite decide_True by (by eexists).
    destruct (Hattr p hd Hadj) as (Hweight & (e0 & hl & He0 & Hp0 & Hl0 & Hkind & HU) & Hcount).
    assert (hl ≠ kl) as Hne by (intros ->; by apply (Hkl_fresh e0)).
    rewrite mbind_M. unfold lift at 1. rewrite Href. cbv beta iota.
    rewrite mbind_M. unfold get_kind at 1. rewrite HKσ. cbv beta iota.
    rewrite mbind_M. unfold lift at 1. rewrite Hweight. cbv beta iota.
    set (hd1 := <["weight" := VInt (weight_spec σ0 es p + Z.of_nat (size K))]> hd).
    assert (hd1 !! "kind" = Some (VSet hl)) as Hkind1
      by (unfold hd1; by rewrite lookup_insert_ne).
    rewrite mbind_M. rewrite Hkind1.
    rewrite mbind_M. unfold get_kind at 1. rewrite HU. cbv beta iota.
    rewrite mbind_M. unfold get_kind at 1. rewrite HKσ. cbv beta iota.
    unfold set_kind at 1. cbv beta iota.
    set (σ1 := Store (metas σ) (<[hl := kind_spec σ0 es p ∪ K]> (kinds σ))).
    assert (kinds σ1 !! kl = Some K) as HKσ1
      by (unfold σ1; cbn [kinds]; by rewrite lookup_insert_ne).
    rewrite mbind_M. unfold get_kind at 1. rewrite HKσ1. cbv beta iota.
    destruct (bump_fold (elements K) hd1) as (hd2 & Hrun & Hhd2).
    { apply NoDup_elements. }
    { intros k Hk'. apply elem_of_elements in Hk'.
      assert (k ≠ "weight") as Hkw by (intros ->; done).
      assert (k ≠ "kind") as Hkk by (intros ->; done).
      unfold counter_or_absent, hd1. rewrite lookup_insert_ne by done.
      rewrite (Hcount k Hkw Hkk). case_decide; eauto. }
    rewrite mbind_M. unfold lift at 1. rewrite Hrun. cbv beta iota.
    eexists _, σ1. split; [reflexivity|].
    split; [|split; [|split; [|done]]].
    + intros p'. destruct (decide (p' = p)) as [->|Hp'].
      * rewrite lookup_insert_eq. split; [|by eexists].
        intros _. exists (u, v, d). split; [apply elem_of_app; right; by left|done].
      * rewrite lookup_insert_ne by done. rewrite Hdom. split.
        -- intros (e' & He' & <-). exists e'. split; [apply elem_of_app; by left|done].
        -- intros (e' & He' & <-). apply elem_of_app in He' as [He'|He'].
           ++ by exists e'.
           ++ apply list_elem_of_singleton in He' as ->. done.
    + intros p' hd' Hlook. destruct (decide (p' = p)) as [->|Hp'].
      * rewrite lookup_insert_eq in Hlook. injection Hlook as <-.
        rewrite weight_spec_snoc, kind_spec_snoc. unfold edge_key. cbn [fst snd].
        fold p. rewrite !decide_True by done. rewrite HeK.
        split; [|split].
        -- rewrite Hhd2. rewrite decide_False by (by rewrite elem_of_elements).
           unfold hd1. by rewrite lookup_insert_eq.
        -- exists e0, hl. split; [apply elem_of_app; by left|]. split; [done|]. split; [done|].
           split.
           ++ rewrite Hhd2. by rewrite decide_False by (by rewrite elem_of_elements).
           ++ unfold σ1. cbn [kinds]. by rewrite lookup_insert_eq.
        -- intros k Hkw Hkk. rewrite Hhd2, count_spec_snoc. unfold edge_key.
           cbn [fst snd]. fold p. rewrite (decide_True (P := p = p)) by done.
           rewrite HeK. unfold bumped, hd1. rewrite lookup_insert_ne by done.
           rewrite (Hcount k Hkw Hkk).
           destruct (decide (k ∈ elements K)) as [HkK|HkK];
             rewrite elem_of_elements in HkK.
           ** rewrite (decide_True (P := k ∈ K)) by done.
              rewrite (decide_True (P := k ∈ kind_spec σ0 es p ∪ K))
                by (apply elem_of_union; by right).
              destruct (decide (k ∈ kind_spec σ0 es p)) as [HkU|HkU]; [done|].
              by rewrite count_spec_absent.
           ** rewrite (decide_False (P := k ∈ K)) by done.
              destruct (decide (k ∈ kind_spec σ0 es p)) as [HkU|HkU].
              --- rewrite (decide_True (P := k ∈ kind_spec σ0 es p ∪ K))
                    by (apply elem_of_union; by left).
                  do 2 f_equal. lia.
              --- rewrite (decide_False (P := k ∈ kind_spec σ0 es p ∪ K)); [done|].
                  by intros [?|?]%elem_of_union.
      * rewrite lookup_insert_ne in Hlook by done.
        destruct (Hattr p' hd' Hlook) as (Hweight' & (e' & l' & He' & Hp'' & Hl' & Hkind' & HU') & Hcount').
        rewrite weight_spec_snoc, kind_spec_snoc. unfold edge_key. cbn [fst snd].
        fold p. rewrite !decide_False by done.
        split; [done|]. split.
        -- exists e', l'. split; [apply elem_of_app; by left|]. split; [done|]. split; [done|].
           split; [done|]. unfold σ1. cbn [kinds]. rewrite lookup_insert_ne; [done|].
           intros <-. apply Hp'. rewrite <- Hp'', <- Hp0.
           by rewrite (omap_NoDup_inj kind_loc es e0 e' hl Hnd He0 He' Hl0 Hl').
        -- intros k Hkw Hkk. rewrite count_spec_snoc. unfold edge_key. cbn [fst snd].
           fold p. rewrite (decide_False (P := p = p')) by done. by apply Hcount'.
    + intros l Hl. unfold σ1. cbn [kinds]. rewrite lookup_insert_ne.
      * apply Hframe. intros e' He'. apply Hl, elem_of_app. by left.
      * intros <-. apply (Hl e0); [apply elem_of_app; by left|done].
  - (* the first edge of the pair *)
    rewrite decide_False by (by intros [? ?]).
    assert (¬ ∃ e', e' ∈ es ∧ ekey e'.1.1 e'.1.2 = p) as Hnone.
    { intros Hex. apply Hdom in Hex. rewrite Hadj in Hex. by destruct Hex. }
    rewrite mbind_M. unfold lift at 1. rewrite Href. cbv beta iota.
    rewrite mbind_M. unfold get_kind at 1. rewrite HKσ. cbv beta iota. cbv zeta.
    eexists _, σ. split; [reflexivity|].
    split; [|split; [|split; [|done]]].
    + intros p'. destruct (decide (p' = p)) as [->|Hp'].
      * rewrite lookup_insert_eq. split; [|by eexists].
        intros _. exists (u, v, d). split; [apply elem_of_app; right; by left|done].
      * rewrite lookup_insert_ne by done. rewrite Hdom. split.
        -- intros (e' & He' & <-). exists e'. split; [apply elem_of_app; by left|done].
        -- intros (e' & He' & <-). apply elem_of_app in He' as [He'|He'].
           ++ by exists e'.
           ++ apply list_elem_of_singleton in He' as ->. done.
    + intros p' hd' Hlook. destruct (decide (p' = p)) as [->|Hp'].
      * rewrite lookup_insert_eq in Hlook. injection Hlook as <-.
        assert (parallel es p = []) as Hpar by (by apply parallel_nil).
        assert (weight_spec σ0 es p = 0%Z) as Hw0 by (unfold weight_spec; by rewrite Hpar).
        assert (kind_spec σ0 es p = ∅) as Hk0 by (unfold kind_spec; by rewrite Hpar).
        assert (∀ k, count_spec σ0 es p k = 0%Z) as Hc0
          by (intros k; unfold count_spec; by rewrite Hpar).
        rewrite weight_spec_snoc, kind_spec_snoc. unfold edge_key. cbn [fst snd].
        fold p. rewrite !decide_True by done. rewrite HeK, Hw0, Hk0.
        rewrite union_empty_l_L.
        split; [|split].
        -- rewrite foldl_insert_lookup.
           rewrite decide_False by (by rewrite elem_of_elements).
           rewrite lookup_insert_ne by done. by rewrite lookup_insert_eq.
        -- exists (u, v, d), kl. split; [apply elem_of_app; right; by left|]. split; [done|]. split; [done|].
           split; [|done]. rewrite foldl_insert_lookup.
           rewrite decide_False by (by rewrite elem_of_elements).
           by rewrite lookup_insert_eq.
        -- intros k Hkw Hkk. rewrite foldl_insert_lookup, count_spec_snoc.
           unfold edge_key. cbn [fst snd]. fold p.
           rewrite (decide_True (P := p = p)) by done. rewrite HeK, Hc0.
           destruct (decide (k ∈ elements K)) as [HkK|HkK];
             rewrite elem_of_elements in HkK.
           ** by rewrite !decide_True by done.
           ** rewrite decide_False by done.
              rewrite !lookup_insert_ne by done. by rewrite lookup_empty.
      * rewrite lookup_insert_ne in Hlook by done.
        destruct (Hattr p' hd' Hlook) as (Hweight' & (e' & l' & He' & Hp'' & Hl' & Hkind' & HU') & Hcount').
        rewrite weight_spec_snoc, kind_spec_snoc. unfold edge_key. cbn [fst snd].
        fold p. rewrite !decide_False by done.
        split; [done|]. split.
        -- exists e', l'. split; [apply elem_of_app; by left|]. done.
        -- intros k Hkw Hkk. rewrite count_spec_snoc. unfold edge_key. cbn [fst snd].
           fold p. rewrite (decide_False (P := p = p')) by done. by apply Hcount'.
    + intros l Hl. apply Hframe. intros e' He'. apply Hl, elem_of_app. by left.
Qed.
End collapse_invariant.

Section collapse_result.
Context {F : Type}.
Implicit Types (e : string * string * attrs F) (es : list (string * string * attrs F)).
Implicit Types (hd : attrs F) (σ : store F) (p : string * string).
Implicit Types (adj : gmap (string * string) (attrs F)).
Implicit Types (hn : list (string * attrs F)).

Lemma collapsible_prefix σ es1 es2 :
  collapsible σ (es1 ++ es2) → collapsible σ es1.
Proof.
  intros [Hedges Hnd]. split.
  - intros e He. apply Hedges, elem_of_app. by left.
  - rewrite omap_app in Hnd. by apply list.NoDup_app in Hnd as (? & _ & _).
Qed.

Lemma collapse_fold σ0 es rest hn adj σ :
  collapse_inv σ0 es adj σ → collapsible σ0 (es ++ rest) →
  ∃ hn' adj' σ',
    foldM collapse_edge (hn, adj) rest σ = (Ok (hn', adj'), σ')
    ∧ collapse_inv σ0 (es ++ rest) adj' σ'.
Proof.
  revert es hn adj σ. induction rest as [|e rest IH]; intros es hn adj σ Hinv Hok.
  - exists hn, adj, σ. by rewrite app_nil_r.
  - assert (es ++ e :: rest = (es ++ [e]) ++ rest) as Heq by (by rewrite <- app_assoc).
    rewrite Heq in Hok |- *.
    destruct (collapse_edge_step σ0 es e hn adj σ Hinv) as (adj1 & σ1 & Hstep & Hinv1).
    { by eapply collapsible_prefix. }
    set (hn1 := if decide (is_Some (adj !! edge_key e)) then hn
                else ensure_node (ensure_node hn e.1.1) e.1.2) in *.
    destruct (IH (es ++ [e]) hn1 adj1 σ1 Hinv1 Hok) as (hn' & adj' & σ' & Hrun & Hinv').
    exists hn', adj', σ'. split; [|done].
    cbn [foldM]. rewrite mbind_M, Hstep. exact Hrun.
Qed.

Lemma collapsible_labels σ es e k :
  collapsible σ es → e ∈ es → k ∈ edge_kind σ e → k ≠ "weight" ∧ k ≠ "kind".
Proof.
  intros [Hedges _] He Hk. destruct (Hedges e He) as (l & K & Hl & HK & Hw & Hki).
  rewrite (edge_kind_loc σ e l K Hl HK) in Hk. split; by intros ->.
Qed.

Lemma kind_spec_labels σ es p k :
  collapsible σ es → k ∈ kind_spec σ es p → k ≠ "weight" ∧ k ≠ "kind".
Proof.
  intros Hok Hk. unfold kind_spec in Hk.
  apply elem_of_union_list in Hk as (K & HK & Hk).
  apply list_elem_of_fmap in HK as (e & -> & He).
  apply parallel_elem_of in He as [He _]. by eapply collapsible_labels.
Qed.

(** The node side of the collapse. *)
Lemma add_node_fresh hn (nd : string * attrs F) :
  nd.1 ∉ hn.*1 → add_node hn nd = hn ++ [nd].
Proof. intros Hnd. unfold add_node. by rewrite decide_False. Qed.

Lemma add_nodes_from_fresh hn (new : list (string * attrs F)) :
  NoDup (hn.*1 ++ new.*1) → add_nodes_from hn new = hn ++ new.
Proof.
  revert hn. induction new as [|nd new IH]; intros hn Hnd.
  - by rewrite app_nil_r.
  - unfold add_nodes_from in *. cbn [foldl].
    cbn [fmap list_fmap] in Hnd.
    rewrite add_node_fresh.
    + rewrite IH; [by rewrite <- app_assoc|].
      rewrite fmap_app. cbn [fmap list_fmap]. by rewrite <- app_assoc.
    + apply list.NoDup_app in Hnd as (_ & Hnd & _). intros Hin.
      apply (Hnd _ Hin). by left.
Qed.

Lemma ensure_node_present hn (n : string) : n ∈ hn.*1 → ensure_node hn n = hn.
Proof. intros Hn. unfold ensure_node. by rewrite decide_True. Qed.

Lemma collapse_edge_frame hn adj e σ r σ' :
  collapse_edge (hn, adj) e σ = (r, σ') →
  metas σ' = metas σ
  ∧ ∀ hn' adj', r = Ok (hn', adj') →
      hn' = hn ∨ hn' = ensure_node (ensure_node hn e.1.1) e.1.2.
Proof.
  destruct e as [[u v] d]. unfold collapse_edge.
  unfold mbind, M_bind, lift, get_kind, set_kind, raise, mret, M_ret.
  intros Hrun.
  repeat (case_match; simplify_eq; cbn [metas kinds fst snd] in * ).
  all: split; [done|]; intros; simplify_eq; auto.
Qed.

Lemma collapse_fold_frame es hn adj σ r σ' :
  (∀ e, e ∈ es → e.1.1 ∈ hn.*1 ∧ e.1.2 ∈ hn.*1) →
  foldM collapse_edge (hn, adj) es σ = (r, σ') →
  metas σ' = metas σ ∧ ∀ hn' adj', r = Ok (hn', adj') → hn' = hn.
Proof.
  revert adj σ. induction es as [|e es IH]; intros adj σ Hends Hrun.
  - cbv [foldM mret M_ret] in Hrun. simplify_eq. split; [done|]. intros; by simplify_eq.
  - cbn [foldM] in Hrun. rewrite mbind_M in Hrun.
    destruct (collapse_edge (hn, adj) e σ) as [[[hn1 adj1]|ex] σ1] eqn:Hstep.
    + destruct (collapse_edge_frame _ _ _ _ _ _ Hstep) as [Hm Hn].
      assert (hn1 = hn) as ->.
      { destruct (Hn hn1 adj1 eq_refl) as [->| ->]; [done|].
        destruct (Hends e) as [Hu Hv]; [by left|].
        rewrite (ensure_node_present hn _ Hu). by apply ensure_node_present. }
      destruct (IH adj1 σ1) as [Hm' Hn']; [intros; apply Hends; by right|done|].
      split; [congruence|done].
    + destruct (collapse_edge_frame _ _ _ _ _ _ Hstep) as [Hm _].
      simplify_eq. split; [done|]. intros; done.
Qed.

(** C1, as amended. For a multigraph whose edges each refer to a kind set
    of their own and whose labels are none of [weight] and [kind], the
    collapse returns a simple graph with an edge for exactly the node pairs
    of the multigraph, and on the edge of a pair: [weight] is the sum of
    the sizes of the kind sets of the pair's parallel edges, [kind] is a set
    holding the union of those kind sets, and every label of the union has
    a count attribute equal to the number of parallel edges whose kind set
    holds the label; no other attribute is set. *)
Theorem collapse_weights_kinds_counts (g : MultiGraph F) σ :
  collapsible σ (edges g) →
  ∃ H σ',
    compute_weighted_graph_from_multigraph g σ = (Ok H, σ')
    ∧ (∀ p, is_Some (edges H !! p) ↔ ∃ e, e ∈ edges g ∧ edge_key e = p)
    ∧ ∀ p hd, edges H !! p = Some hd →
        hd !! "weight" = Some (VInt (weight_spec σ (edges g) p))
        ∧ (∃ l, hd !! "kind" = Some (VSet l)
                ∧ kinds σ' !! l = Some (kind_spec σ (edges g) p))
        ∧ (∀ k, k ∈ kind_spec σ (edges g) p →
                hd !! k = Some (VInt (count_spec σ (edges g) p k)))
        ∧ (∀ k, k ∉ kind_spec σ (edges g) p → k ≠ "weight" → k ≠ "kind" →
                hd !! k = None).
Proof.
  intros Hok.
  destruct (collapse_fold σ [] (edges g) (add_nodes_from [] (nodes g)) ∅ σ
              (collapse_inv_nil σ) Hok) as (hn & adj & σ' & Hrun & Hinv).
  cbn [app] in Hinv. destruct Hinv as (Hdom & Hattr & _ & _).
  exists (Nx (graph g) hn adj), σ'. split.
  { unfold compute_weighted_graph_from_multigraph. rewrite mbind_M, Hrun. done. }
  split; [exact Hdom|]. cbn [edges]. intros p hd Hp.
  destruct (Hattr p hd Hp) as (Hw & (e & l & _ & _ & _ & Hk & HU) & Hc).
  split; [done|]. split; [by exists l|]. split.
  - intros k Hk'. destruct (kind_spec_labels σ (edges g) p k Hok Hk') as [? ?].
    rewrite Hc by done. by rewrite decide_True.
  - intros k Hk' ? ?. rewrite Hc by done. by rewrite decide_False.
Qed.

Lemma collapse_frame (g : MultiGraph F) σ r σ' :
  NoDup (nodes g).*1 →
  (∀ e, e ∈ edges g → e.1.1 ∈ (nodes g).*1 ∧ e.1.2 ∈ (nodes g).*1) →
  compute_weighted_graph_from_multigraph g σ = (r, σ') →
  metas σ' = metas σ ∧ ∀ H, r = Ok H → nodes H = nodes g ∧ graph H = graph g.
Proof.
  intros Hnd Hends. unfold compute_weighted_graph_from_multigraph.
  rewrite mbind_M. rewrite (add_nodes_from_fresh [] (nodes g)) by done.
  cbn [app].
  destruct (foldM collapse_edge (nodes g, ∅) (edges g) σ) as [[[hn adj]|ex] σ1] eqn:Hrun;
    destruct (collapse_fold_frame _ _ _ _ _ _ Hends Hrun) as [Hm Hn].
  - intros [= <- <-]. split; [done|]. intros H [= <-]. cbn [nodes graph fst].
    split; [|done]. by apply (Hn hn adj).
  - intros [= <- <-]. split; [done|]. intros H. done.
Qed.

(** C10. The collapse leaves the node side alone: whenever it returns, the
    graph it returns has the nodes of the multigraph with their attributes
    and refers to the same metadata object, and no metadata object of the
    store has changed (not even when it raises). It does return on every
    multigraph that meets the precondition of the collapse. *)
Theorem collapse_keeps_nodes_and_metadata (g : MultiGraph F) σ :
  NoDup (nodes g).*1 →
  (∀ e, e ∈ edges g → e.1.1 ∈ (nodes g).*1 ∧ e.1.2 ∈ (nodes g).*1) →
  (∀ r σ', compute_weighted_graph_from_multigraph g σ = (r, σ') →
     metas σ' = metas σ
     ∧ ∀ H, r = Ok H → nodes H = nodes g ∧ graph H = graph g)
  ∧ (collapsible σ (edges g) →
     ∃ H σ', compute_weighted_graph_from_multigraph g σ = (Ok H, σ')).
Proof.
  intros Hnd Hends. split.
  - intros r σ'. by apply collapse_frame.
  - intros Hok.
    destruct (collapse_fold σ [] (edges g) (add_nodes_from [] (nodes g)) ∅ σ
                (collapse_inv_nil σ) Hok) as (hn & adj & σ' & Hrun & _).
    exists (Nx (graph g) hn adj), σ'.
    unfold compute_weighted_graph_from_multigraph. by rewrite mbind_M, Hrun.
Qed.
End collapse_result.

(** C1, counterexample. With two parallel edges that each carry the one
    label [weight], the collapsed weight is 3 and not the sum 2 of the
    kind-set sizes; when the edge of another pair refers to the set object
    of an already collapsed edge, its weight is 2 and not the size 1 of its
    kind set. *)
Lemma collapse_weight_not_sum :
  collapsed_attr weight_label_multigraph weight_label_kinds (ekey "a" "b") "weight"
  = Some (VInt 3)
  ∧ weight_spec weight_label_kinds (edges weight_label_multigraph) (ekey "a" "b") = 2%Z
  ∧ collapsed_attr shared_set_multigraph shared_set_kinds (ekey "a" "c") "weight"
    = Some (VInt 2)
  ∧ weight_spec shared_set_kinds (edges shared_set_multigraph) (ekey "a" "c") = 1%Z.
Proof. by vm_compute. Qed.

Lemma sample_multigraph_collapsible :
  collapsible sample_kinds (edges sample_multigraph).
Proof.
  split.
  - intros e He. cbn in He.
    repeat (apply elem_of_cons in He as [->|He]); [| | |by apply elem_of_nil in He].
    + exists 1%positive, {["x"; "y"]}. repeat split; try done; set_solver.
    + exists 2%positive, {["x"]}. repeat split; try done; set_solver.
    + exists 3%positive, {["z"]}. repeat split; try done; set_solver.
  - apply (bool_decide_unpack _). by vm_compute.
Defined.

Lemma collapse_weights_kinds_counts_witness :
  collapsible sample_kinds (edges sample_multigraph)
  ∧ ∃ H σ' hd,
      compute_weighted_graph_from_multigraph sample_multigraph sample_kinds = (Ok H, σ')
      ∧ edges H !! ekey "a" "b" = Some hd
      ∧ hd !! "weight" = Some (VInt 3)
      ∧ hd !! "x" = Some (VInt 2)
      ∧ hd !! "y" = Some (VInt 1).
Proof.
  split; [exact sample_multigraph_collapsible|].
  destruct (collapse_weights_kinds_counts sample_multigraph sample_kinds
              sample_multigraph_collapsible) as (H & σ' & Hrun & Hdom & Hattr).
  destruct (proj2 (Hdom (ekey "a" "b"))) as [hd Hhd].
  { exists ("a", "b", kind_attr 1). split; [by left|done]. }
  destruct (Hattr _ hd Hhd) as (Hw & _ & Hc & _).
  exists H, σ', hd. split; [done|]. split; [done|]. split; [exact Hw|].
  split; apply Hc; apply (bool_decide_unpack _); by vm_compute.
Defined.

Lemma collapse_keeps_nodes_and_metadata_witness :
  ∃ H σ',
    compute_weighted_graph_from_multigraph sample_multigraph sample_kinds = (Ok H, σ')
    ∧ nodes H = three_nodes ∧ graph H = 1%positive ∧ metas σ' = ∅.
Proof.
  destruct (collapse_keeps_nodes_and_metadata sample_multigraph sample_kinds)
    as [Hframe Hruns].
  - apply (bool_decide_unpack _). by vm_compute.
  - intros e He. cbn in He.
    repeat (apply elem_of_cons in He as [->|He]); [| | |by apply elem_of_nil in He];
      split; apply (bool_decide_unpack _); by vm_compute.
  - destruct (Hruns sample_multigraph_collapsible) as (H & σ' & Hrun).
    destruct (Hframe _ _ Hrun) as [Hm Hn]. destruct (Hn H eq_refl) as [Hnodes Hgraph].
    exists H, σ'. done.
Defined.
(** ** The chain graph *)

(** C5. The sample structure has the chains [A] and [B]. Its graph,
    restricted to chain [A], keeps the nodes of chain [A] only; yet the
    chain graph derived with the chain list [A] has the two nodes [A] and
    [B], the second without a residue. The nodes of the chain graph are
    taken from the chain list of the metadata, which the restricted graph
    shares with the source graph, and not from the surviving nodes. Without
    a restriction the chain graph has the two nodes of the two chains. *)
Lemma sample_chain_graph_restricted :
  sample_surviving_chains ["A"] = Some ["A"]
  ∧ sample_chain_graph_nodes (Some ["A"]) = Some ["A"; "B"]
  ∧ sample_chain_graph_residues (Some ["A"]) "B" = Some (VInt 0)
  ∧ sample_chain_graph_nodes None = Some ["A"; "B"].
Proof. by vm_compute. Qed.


Section chain_graph.
Context {F : Type} (env : collaborators F).
Implicit Types (ns hn : list (string * attrs F)) (g : Graph F).

Lemma add_node_names hn (c : string) :
  (add_node hn (c, ∅)).*1 = if decide (c ∈ hn.*1) then hn.*1 else hn.*1 ++ [c].
Proof.
  unfold add_node. cbn [fst snd]. case_decide.
  - rewrite <- list_fmap_compose. apply list_fmap_ext. intros i p _.
    cbn. by case_decide.
  - by rewrite fmap_app.
Qed.

Lemma add_nodes_from_names (cs : list string) hn :
  (add_nodes_from hn ((fun c => (c, ∅)) <$> cs)).*1
  = foldl (fun acc x => if decide (x ∈ acc) then acc else acc ++ [x]) hn.*1 cs.
Proof.
  revert hn. induction cs as [|c cs IH]; intros hn; [done|].
  unfold add_nodes_from in *. cbn [fmap list_fmap foldl].
  rewrite IH, add_node_names. done.
Qed.

Lemma chain_nodes_names (cs : list string) :
  (add_nodes_from ([] : list (string * attrs F)) ((fun c => (c, ∅)) <$> cs)).*1
  = pd_unique cs.
Proof. by rewrite add_nodes_from_names. Qed.

Lemma chain_pass_ok (nd : string * attrs F) (npc : gmap string Z)
    (seqs : gmap string string) c r k s letter :
  nd.2 !! "chain_id" = Some (VStr c) → nd.2 !! "residue_name" = Some (VStr r) →
  npc !! c = Some k → RESI_THREE_TO_1 !! r = Some letter → seqs !! c = Some s →
  chain_pass env (npc, seqs) nd
  = Ok (<[c := (k + 1)%Z]> npc, <[c := s +:+ letter]> seqs).
Proof.
  intros Hc Hr Hk Hletter Hs. unfold chain_pass, str_attr, dict_get.
  rewrite Hc, rbind_Ok, Hk, rbind_Ok, rbind_Ok, Hr, rbind_Ok, Hletter, rbind_Ok.
  by rewrite Hs.
Qed.

Lemma chain_pass_fold (D : gset string) ns (npc : gmap string Z)
    (seqs : gmap string string) :
  (∀ nd, nd ∈ ns →
         ∃ c r, nd.2 !! "chain_id" = Some (VStr c) ∧ c ∈ D
                ∧ nd.2 !! "residue_name" = Some (VStr r)
                ∧ is_Some (RESI_THREE_TO_1 !! r)) →
  dom npc = D → dom seqs = D →
  ∃ npc' seqs', foldR (chain_pass env) (npc, seqs) ns = Ok (npc', seqs')
                ∧ dom npc' = D ∧ dom seqs' = D.
Proof.
  revert npc seqs. induction ns as [|nd ns IH]; intros npc seqs Hns Hn Hs.
  - by exists npc, seqs.
  - destruct (Hns nd) as (c & r & Hc & HcD & Hr & [letter Hletter]); [by left|].
    assert (is_Some (npc !! c)) as [k Hk] by (apply elem_of_dom; by rewrite Hn).
    assert (is_Some (seqs !! c)) as [s Hs'] by (apply elem_of_dom; by rewrite Hs).
    destruct (IH (<[c := (k + 1)%Z]> npc) (<[c := s +:+ letter]> seqs))
      as (npc' & seqs' & Hrun & Hn' & Hs'').
    + intros; apply Hns; by right.
    + rewrite dom_insert_L, Hn. apply subseteq_union_1_L.
      by apply singleton_subseteq_l.
    + rewrite dom_insert_L, Hs. apply subseteq_union_1_L.
      by apply singleton_subseteq_l.
    + exists npc', seqs'. split; [|done]. cbn [foldR].
      rewrite (chain_pass_ok nd npc seqs c r k s letter) by done.
      exact Hrun.
Qed.

Lemma chain_attrs_traverse (D : gset string) hn (npc : gmap string Z)
    (seqs : gmap string string) :
  (∀ c, c ∈ hn.*1 → c ∈ D) → dom npc = D → dom seqs = D →
  ∃ hn', traverse
           (fun nd : string * attrs F =>
              k ← dict_get npc nd.1;
              s ← dict_get seqs nd.1;
              Ok (nd.1, <["sequence" := VStr s]>
                          (<["num_residues" := VInt k]> (nd.2))))
           hn = Ok hn'
         ∧ hn'.*1 = hn.*1.
Proof.
  intros Hsub Hn Hs. induction hn as [|nd hn IH]; [by exists []|].
  destruct IH as (hn' & Hrun & Hnames); [intros; apply Hsub; by right|].
  assert (nd.1 ∈ D) as HD by (apply Hsub; by left).
  assert (is_Some (npc !! nd.1)) as [k Hk] by (apply elem_of_dom; by rewrite Hn).
  assert (is_Some (seqs !! nd.1)) as [s Hs'] by (apply elem_of_dom; by rewrite Hs).
  eexists. cbn [traverse]. rewrite Hrun. unfold dict_get.
  rewrite Hk, rbind_Ok, Hs', !rbind_Ok. split; [done|].
  cbn [fmap list_fmap fst]. by rewrite Hnames.
Qed.

Lemma node_data_elem_of ns (n : string) (d : attrs F) :
  node_data ns n = Some d → (n, d) ∈ ns.
Proof. unfold node_data. apply elem_of_list_to_map_2. Qed.

Lemma chain_edge_ok g hn (acc : list (string * string * attrs F))
    (u v : string) (d du dv : attrs F) cu cv k :
  node_data (nodes g) u = Some du → du !! "chain_id" = Some (VStr cu) →
  node_data (nodes g) v = Some dv → dv !! "chain_id" = Some (VStr cv) →
  d !! "kind" = Some k → cu ∈ hn.*1 → cv ∈ hn.*1 →
  chain_edge env g (hn, acc) (u, v, d)
  = Ok (hn, acc ++ [(cu, cv, <["kind" := k]> (∅ : attrs F))]).
Proof.
  intros Hu Hcu Hv Hcv Hk Hcu' Hcv'. unfold chain_edge. rewrite Hu, Hv.
  cbn [from_option]. unfold str_attr, dict_get.
  rewrite rbind_Ok, Hcu, rbind_Ok, rbind_Ok, Hcv, rbind_Ok, Hk, !rbind_Ok.
  cbn [fst snd]. unfold ensure_node.
  rewrite (decide_True (P := cu ∈ hn.*1)) by done.
  rewrite (decide_True (P := cv ∈ hn.*1)) by done. reflexivity.
Qed.

Lemma chain_edge_fold g hn (es acc : list (string * string * attrs F)) :
  (∀ nd, nd ∈ nodes g → ∃ c, nd.2 !! "chain_id" = Some (VStr c) ∧ c ∈ hn.*1) →
  (∀ e, e ∈ es →
        is_Some (node_data (nodes g) e.1.1)
        ∧ is_Some (node_data (nodes g) e.1.2)
        ∧ is_Some (e.2 !! "kind")) →
  ∃ he, foldR (chain_edge env g) (hn, acc) es = Ok (hn, he)
        ∧ ∀ e, e ∈ he → e ∈ acc ∨ (e.1.1 ∈ hn.*1 ∧ e.1.2 ∈ hn.*1).
Proof.
  intros Hnodes. revert acc. induction es as [|e es IH]; intros acc Hes.
  - exists acc. split; [done|]. by left.
  - destruct (Hes e) as ([du Hu] & [dv Hv] & [k Hk]); [by left|].
    destruct e as [[u v] d]. cbn [fst snd] in *.
    destruct (Hnodes _ (node_data_elem_of _ _ _ Hu)) as (cu & Hcu & Hcu').
    destruct (Hnodes _ (node_data_elem_of _ _ _ Hv)) as (cv & Hcv & Hcv').
    cbn [snd] in *.
    destruct (IH (acc ++ [(cu, cv, <["kind" := k]> (∅ : attrs F))]))
      as (he & Hrun & Hhe); [intros; apply Hes; by right|].
    exists he. split.
    + cbn [foldR].
      rewrite (chain_edge_ok g hn acc u v d du dv cu cv k) by done.
      exact Hrun.
    + intros e He. destruct (Hhe e He) as [[?| ->%list_elem_of_singleton]%elem_of_app|?];
        [by left|by right|by right].
Qed.

(** The nodes of the chain graph are those of the chain list. On a source
    graph that is ready for it, the chain graph (after the optional
    restriction to a list of chains) is built and has one node per
    distinct entry of the chain list of the metadata; where every listed
    chain has a node in the (restricted) source graph, that is the number
    of distinct chain ids among its nodes. The weighted graph, when the
    collapse returns it, has the same nodes. *)
Theorem compute_chain_graph_nodes g chain_list remove_self_loops
    (σ : store F) (m : graph_meta F) :
  let g' := match chain_list with
            | Some cl => extract_subgraph_from_chains g cl
            | None => g
            end in
  metas σ !! graph g = Some m →
  chain_graph_ready m g' →
  (∃ h σ',
      compute_chain_graph env g chain_list remove_self_loops false σ
      = (Ok (inl h), σ')
      ∧ (nodes h).*1 = pd_unique (chain_ids m)
      ∧ ((∀ c, c ∈ chain_ids m → c ∈ node_chains (nodes g')) →
         length (nodes h) = length (pd_unique (node_chains (nodes g')))))
  ∧ (∀ H σ',
       compute_chain_graph env g chain_list remove_self_loops true σ
       = (Ok (inr H), σ') →
       (nodes H).*1 = pd_unique (chain_ids m)).
Proof.
  intros g' Hm [Hnodes Hedges].
  assert (graph g' = graph g) as Hgraph by (unfold g'; by destruct chain_list).
  set (D := list_to_set (chain_ids m) : gset string).
  set (σ1 := Store (<[graph g := set_node_type m "chain"]> (metas σ)) (kinds σ)).
  destruct (chain_pass_fold D (nodes g')
              (list_to_map ((fun chain => (chain, 0%Z)) <$> chain_ids m))
              (list_to_map ((fun chain => (chain, "")) <$> chain_ids m)))
    as (npc & seqs & Hpass & Hn & Hs).
  { intros nd Hnd. destruct (Hnodes nd Hnd) as (c & r & ? & ? & ? & ?).
    exists c, r. repeat split; try done. by apply elem_of_list_to_set. }
  { rewrite dom_list_to_map_L, <- list_fmap_compose. unfold D. f_equal.
    by rewrite list_fmap_id. }
  { rewrite dom_list_to_map_L, <- list_fmap_compose. unfold D. f_equal.
    by rewrite list_fmap_id. }
  set (hn0 := add_nodes_from ([] : list (string * attrs F))
                ((fun chain => (chain, ∅)) <$> chain_ids m)).
  destruct (chain_attrs_traverse D hn0 npc seqs) as (hn1 & Htrav & Hnames);
    [|done|done|].
  { intros c Hc. unfold hn0 in Hc. rewrite chain_nodes_names in Hc.
    rewrite pd_unique_elem_of in Hc. unfold D. by apply elem_of_list_to_set. }
  assert (hn1.*1 = pd_unique (chain_ids m)) as Hnames1
    by (rewrite Hnames; apply chain_nodes_names).
  destruct (chain_edge_fold g' hn1 (edges_data g') []) as (he & Hfold & Hhe);
    [|done|].
  { intros nd Hnd. destruct (Hnodes nd Hnd) as (c & r & ? & ? & ? & ?).
    exists c. split; [done|]. rewrite Hnames1. by apply pd_unique_elem_of. }
  assert (∀ weighted,
    compute_chain_graph env g chain_list remove_self_loops weighted σ
    = (let h : MultiGraph F :=
         Nx (graph g) hn1 (if remove_self_loops then drop_self_loops he else he) in
       if weighted
       then H ← compute_weighted_graph_from_multigraph h; mret (inr H)
       else mret (inl h)) σ1) as Hrun.
  { intros weighted. unfold compute_chain_graph. fold g'. rewrite Hgraph.
    rewrite mbind_M. unfold get_meta at 1. rewrite Hm. cbv beta iota.
    rewrite mbind_M. unfold set_meta at 1. cbv beta iota. fold σ1.
    rewrite mbind_M. unfold get_meta at 1. cbn [metas σ1].
    rewrite lookup_insert_eq. cbv beta iota. cbn [chain_ids set_node_type].
    rewrite mbind_M. unfold lift at 1. rewrite Hpass. cbv beta iota.
    fold hn0. rewrite mbind_M. unfold lift at 1. rewrite Htrav. cbv beta iota.
    rewrite mbind_M. unfold lift at 1. rewrite Hfold. cbv beta iota.
    cbn [fst snd]. done. }
  split.
  - eexists _, σ1. split; [by rewrite Hrun|]. cbn [nodes].
    split; [done|]. intros Hall.
    rewrite <- (length_fmap fst), Hnames1. apply pd_unique_length_same.
    intros c. split; [apply Hall|].
    intros Hc. apply list_elem_of_omap in Hc as (nd & Hnd & Hc).
    destruct (Hnodes nd Hnd) as (c' & r & Hc' & ? & _). rewrite Hc' in Hc.
    by simplify_eq.
  - intros H σ'. rewrite Hrun. cbv zeta. rewrite mbind_M.
    destruct (compute_weighted_graph_from_multigraph _ σ1) as [[H'|ex] σ2] eqn:Hcoll;
      [|done].
    intros [= <- <-].
    assert (NoDup hn1.*1) as Hnd1 by (rewrite Hnames1; apply pd_unique_NoDup).
    assert (∀ e, e ∈ (if remove_self_loops then drop_self_loops he else he) →
                 e.1.1 ∈ hn1.*1 ∧ e.1.2 ∈ hn1.*1) as Hends.
    { intros e He. assert (e ∈ he) as He'.
      { destruct remove_self_loops; [|done].
        by apply list_elem_of_filter in He as [_ ?]. }
      destruct (Hhe e He') as [Hnil|?]; [by apply elem_of_nil in Hnil|done]. }
    destruct (collapse_frame
                (Nx (graph g) hn1 (if remove_self_loops then drop_self_loops he else he))
                σ1 (Ok H') σ2 Hnd1 Hends Hcoll) as [_ Hn'].
    destruct (Hn' H' eq_refl) as [-> _]. done.
Qed.
End chain_graph.
Lemma compute_chain_graph_nodes_witness :
  ∃ h σ',
    compute_chain_graph sample_env two_chain_graph None false false two_chain_store
    = (Ok (inl h), σ')
    ∧ (nodes h).*1 = ["A"; "B"]
    ∧ length (nodes h) = 2.
Proof.
  destruct (compute_chain_graph_nodes sample_env two_chain_graph None false
              two_chain_store (meta_with_chains ["A"; "B"]))
    as [(h & σ' & Hrun & Hnames & Hcount) _].
  - reflexivity.
  - split.
    + intros nd Hnd. unfold two_chain_graph in Hnd. cbn [nodes] in Hnd.
      repeat (apply elem_of_cons in Hnd as [->|Hnd]); [| |by apply elem_of_nil in Hnd].
      * exists "A", "ALA". split; [done|]. split; [by left|]. split; [done|].
        apply (bool_decide_unpack _). by vm_compute.
      * exists "B", "GLY". split; [done|]. split; [by right; left|]. split; [done|].
        apply (bool_decide_unpack _). by vm_compute.
    + intros e He. vm_compute in He.
      apply list_elem_of_singleton in He as ->.
      split; [|split]; apply (bool_decide_unpack _); by vm_compute.
  - exists h, σ'. split; [done|]. split; [done|].
    rewrite Hcount; [done|]. intros c Hc.
    change (c ∈ ["A"; "B"]) in Hc.
    assert (node_chains (nodes two_chain_graph) = ["A"; "B"]) as -> by (by vm_compute).
    exact Hc.
Defined.

(** ** Insertions and alternate locations *)

Section remove_insertions_facts.
Context {F : Type} `{!Floats F}.
Implicit Types (df : list (row F)) (r : row F).

Lemma filter_all {A} (P : A → Prop) `{∀ x, Decision (P x)} (l : list A) :
  (∀ x, x ∈ l → P x) → filter P l = l.
Proof.
  induction l as [|x l IH]; intros Hl; [done|].
  rewrite filter_cons_True by (apply Hl; by left).
  f_equal. apply IH. intros; apply Hl; by right.
Qed.

Lemma fmap_key_inj {A B} (f : A → B) (l : list A) (x y : A) :
  NoDup (f <$> l) → x ∈ l → y ∈ l → f x = f y → x = y.
Proof.
  induction l as [|a l IH]; intros Hnd Hx Hy Hf; [by apply elem_of_nil in Hx|].
  cbn [fmap list_fmap] in Hnd. apply list.NoDup_cons in Hnd as [Ha Hnd].
  apply elem_of_cons in Hx as [->|Hx], Hy as [->|Hy]; [done| | |by apply IH].
  - destruct Ha. rewrite Hf. by apply list_elem_of_fmap_2.
  - destruct Ha. rewrite <- Hf. by apply list_elem_of_fmap_2.
Qed.

Lemma drop_duplicated_sublist seen df : drop_duplicated seen df `sublist_of` df.
Proof.
  revert seen. induction df as [|r df IH]; intros seen; cbn [drop_duplicated]; [done|].
  case_decide; [apply sublist_cons|apply sublist_skip]; apply IH.
Qed.

Lemma drop_duplicated_keys seen df :
  NoDup (atom_key <$> drop_duplicated seen df)
  ∧ ∀ r, r ∈ drop_duplicated seen df → atom_key r ∉ seen.
Proof.
  revert seen. induction df as [|r df IH]; intros seen; cbn [drop_duplicated].
  - split; [constructor|]. intros r Hr. by apply elem_of_nil in Hr.
  - fold (atom_key r). case_decide as Hseen; [apply IH|].
    destruct (IH (atom_key r :: seen)) as [Hnd Hfresh].
    split.
    + cbn [fmap list_fmap]. apply list.NoDup_cons. split; [|done].
      intros (r' & Hk & Hr')%list_elem_of_fmap.
      apply (Hfresh r' Hr'). rewrite <- Hk. by left.
    + intros r' [->|Hr']%elem_of_cons; [done|].
      intros Hin. apply (Hfresh r' Hr'). by right.
Qed.

Lemma drop_duplicated_id seen df :
  NoDup (atom_key <$> df) → (∀ r, r ∈ df → atom_key r ∉ seen) →
  drop_duplicated seen df = df.
Proof.
  revert seen. induction df as [|r df IH]; intros seen Hnd Hseen; [done|].
  cbn [drop_duplicated]. fold (atom_key r).
  cbn [fmap list_fmap] in Hnd. apply list.NoDup_cons in Hnd as [Hr Hnd].
  rewrite decide_False by (apply Hseen; by left). f_equal.
  apply IH; [done|]. intros r' Hr' [Hk|Hin]%elem_of_cons.
  - apply Hr. rewrite <- Hk. by apply list_elem_of_fmap_2.
  - by apply (Hseen r'); [right|].
Qed.

Lemma drop_duplicated_first seen (pre post : list (row F)) r :
  atom_key r ∉ seen → atom_key r ∉ atom_key <$> pre →
  r ∈ drop_duplicated seen (pre ++ r :: post).
Proof.
  revert seen. induction pre as [|x pre IH]; intros seen Hseen Hpre.
  - cbn [app drop_duplicated]. fold (atom_key r). rewrite decide_False by done. by left.
  - cbn [app drop_duplicated]. fold (atom_key x).
    cbn [fmap list_fmap] in Hpre. apply not_elem_of_cons in Hpre as [Hx Hpre].
    case_decide; [by apply IH|]. right. apply IH; [|done].
    by intros [?|?]%elem_of_cons.
Qed.

Lemma filter_dataframe_elem_of df (col : row F → string) vals r :
  r ∈ filter_dataframe df col vals true ↔ col r ∈ vals ∧ r ∈ df.
Proof.
  unfold filter_dataframe. rewrite list_elem_of_filter.
  by rewrite bool_decide_eq_true.
Qed.

Lemma remove_insertions_sublist df : remove_insertions df `sublist_of` df.
Proof.
  unfold remove_insertions, filter_dataframe.
  etrans; [apply sublist_filter|]. etrans; [apply sublist_filter|].
  apply drop_duplicated_sublist.
Qed.

Lemma remove_insertions_resolved df : resolved (remove_insertions df).
Proof.
  split.
  - eapply sublist_NoDup; [apply (drop_duplicated_keys [] df)|].
    apply fmap_sublist. unfold remove_insertions, filter_dataframe.
    etrans; apply sublist_filter.
  - intros r Hr. unfold remove_insertions in Hr.
    apply filter_dataframe_elem_of in Hr as [Halt Hr].
    apply filter_dataframe_elem_of in Hr as [Hins Hr].
    split.
    + by apply list_elem_of_singleton in Hins.
    + apply elem_of_cons in Halt as [?|Halt]; [by left|].
      apply list_elem_of_singleton in Halt. by right.
Qed.

Lemma remove_insertions_fixpoint df : resolved df → remove_insertions df = df.
Proof.
  intros [Hnd Hrows]. unfold remove_insertions, filter_dataframe.
  rewrite drop_duplicated_id; [|done|intros; apply not_elem_of_nil].
  rewrite (filter_all _ df).
  - apply filter_all. intros r Hr. apply bool_decide_eq_true.
    destruct (Hrows r Hr) as [_ [-> | ->]]; [by left|by right; left].
  - intros r Hr. apply bool_decide_eq_true.
    destruct (Hrows r Hr) as [-> _]. by left.
Qed.

(** X1. Removing insertions keeps rows of the table in their order, leaves
    at most one row per chain, residue number and atom name, leaves only
    rows with an empty insertion code and an alternate location that is
    empty or [A], and changes nothing when applied again. *)
Theorem remove_insertions_resolves df :
  remove_insertions df `sublist_of` df
  ∧ NoDup (atom_key <$> remove_insertions df)
  ∧ (∀ r, r ∈ remove_insertions df →
          insertion r = "" ∧ (alt_loc r = "" ∨ alt_loc r = "A"))
  ∧ remove_insertions (remove_insertions df) = remove_insertions df.
Proof.
  split; [apply remove_insertions_sublist|].
  destruct (remove_insertions_resolved df) as [Hnd Hrows].
  split; [done|]. split; [done|].
  by apply remove_insertions_fixpoint.
Qed.

(** X2. The duplicates are resolved before the alternate locations are
    looked at: when the first row of an atom (chain, residue number, atom
    name) has an insertion code, or an alternate location other than the
    empty one and [A], no row of that atom is left, whatever the later
    rows of the atom are. *)
Theorem remove_insertions_first_row_decides (pre post : list (row F)) r :
  atom_key r ∉ atom_key <$> pre →
  insertion r ≠ "" ∨ (alt_loc r ≠ "" ∧ alt_loc r ≠ "A") →
  ∀ r', r' ∈ remove_insertions (pre ++ r :: post) → atom_key r' ≠ atom_key r.
Proof.
  intros Hfirst Hbad r' Hr' Hkey.
  pose proof Hr' as Hin. unfold remove_insertions in Hin.
  apply filter_dataframe_elem_of in Hin as [Halt Hin].
  apply filter_dataframe_elem_of in Hin as [Hins Hin].
  assert (r' = r) as ->.
  { apply (fmap_key_inj atom_key (drop_duplicated [] (pre ++ r :: post)));
      [apply drop_duplicated_keys|done| |done].
    apply drop_duplicated_first; [apply not_elem_of_nil|done]. }
  destruct Hbad as [Hbad|[Hb1 Hb2]].
  - apply Hbad. by apply list_elem_of_singleton in Hins.
  - apply elem_of_cons in Halt as [?|Halt]; [done|].
    by apply list_elem_of_singleton in Halt.
Qed.
End remove_insertions_facts.

Lemma remove_insertions_first_row_decides_witness :
  Forall (fun r' => atom_key r' ≠ ("A", 1%Z, "CA"))
    (remove_insertions
       [atom_row "A" "ALA" 1 "N" 0;
        Row "A" "ALA" 1 "" "B" "CA" "C" (Some (Qc_of_Z 1)) None None None "";
        Row "A" "ALA" 1 "" "A" "CA" "C" (Some (Qc_of_Z 2)) None None None ""]).
Proof.
  apply list.Forall_forall.
  apply (remove_insertions_first_row_decides
           [atom_row "A" "ALA" 1 "N" 0]
           [Row "A" "ALA" 1 "" "A" "CA" "C" (Some (Qc_of_Z 2)) None None None ""]
           (Row "A" "ALA" 1 "" "B" "CA" "C" (Some (Qc_of_Z 1)) None None None "")).
  - apply (bool_decide_unpack _). by vm_compute.
  - right. split; by intros [=].
Defined.

(** ** Centroid and alpha-carbon granularity *)

Section same_rows.
Context {F : Type} `{!Floats F}.
Implicit Types (df : list (row F)) (r : row F).

Lemma erase_set_coords r x y z : erase_coords (set_coords r x y z) = erase_coords r.
Proof. by destruct r. Qed.

Lemma convert_structure_to_centroids_rows df :
  erase_coords <$> convert_structure_to_centroids df = erase_coords <$> CA_rows df.
Proof.
  unfold convert_structure_to_centroids, CA_rows. rewrite fmap_imap.
  apply list_eq. intros i. rewrite list_lookup_imap, list_lookup_fmap.
  destruct (filter _ df !! i) as [r|]; [|done]. cbn.
  destruct (calculate_centroid_positions df !! i) as [[k [[x y] z]]|];
    by rewrite erase_set_coords.
Qed.

Lemma subset_CA df : subset_structure_to_atom_type df "CA" = CA_rows df.
Proof.
  unfold subset_structure_to_atom_type, filter_dataframe, CA_rows.
  apply list_filter_iff. intros r. rewrite bool_decide_eq_true.
  by rewrite list_elem_of_singleton.
Qed.

(** Filters that do not look at the coordinates commute with erasing
    them. *)
Lemma filter_erased (P : row F → Prop) `{∀ r, Decision (P r)} (l1 l2 : list (row F)) :
  (∀ r, P r ↔ P (erase_coords r)) →
  erase_coords <$> l1 = erase_coords <$> l2 →
  erase_coords <$> filter P l1 = erase_coords <$> filter P l2.
Proof.
  intros HP. revert l2. induction l1 as [|r1 l1 IH]; intros [|r2 l2] Heq;
    try done. cbn [fmap list_fmap] in Heq.
  assert (erase_coords r1 = erase_coords r2) as Hr by congruence.
  assert (erase_coords <$> l1 = erase_coords <$> l2) as Hl by congruence.
  destruct (decide (P r1)) as [Hp1|Hp1].
  - assert (P r2) as Hp2
      by (apply (proj2 (HP r2)); rewrite <- Hr; by apply (proj1 (HP r1))).
    rewrite !filter_cons_True by done.
    cbn [fmap list_fmap]. by rewrite Hr, (IH l2).
  - assert (¬ P r2) as Hp2.
    { intros Hp2. apply Hp1, (proj2 (HP r1)). rewrite Hr. by apply (proj1 (HP r2)). }
    rewrite !filter_cons_False by done. by apply IH.
Qed.

Lemma drop_duplicated_erased seen (l1 l2 : list (row F)) :
  erase_coords <$> l1 = erase_coords <$> l2 →
  erase_coords <$> drop_duplicated seen l1 = erase_coords <$> drop_duplicated seen l2.
Proof.
  revert seen l2. induction l1 as [|r1 l1 IH]; intros seen [|r2 l2] Heq; try done.
  cbn [fmap list_fmap] in Heq.
  assert (erase_coords r1 = erase_coords r2) as Hr by congruence.
  assert (erase_coords <$> l1 = erase_coords <$> l2) as Hl by congruence.
  cbn [drop_duplicated].
  assert ((chain_id r1, residue_number r1, atom_name r1)
          = (chain_id r2, residue_number r2, atom_name r2)) as ->.
  { destruct r1, r2. unfold erase_coords, set_coords in Hr. cbn in Hr. by simplify_eq. }
  case_decide; [by apply IH|].
  cbn [fmap list_fmap]. by rewrite Hr, (IH _ l2).
Qed.

Lemma remove_insertions_erased (l1 l2 : list (row F)) :
  erase_coords <$> l1 = erase_coords <$> l2 →
  erase_coords <$> remove_insertions l1 = erase_coords <$> remove_insertions l2.
Proof.
  intros Heq. unfold remove_insertions, filter_dataframe.
  apply filter_erased; [by intros []|].
  apply filter_erased; [by intros []|].
  by apply drop_duplicated_erased.
Qed.

Lemma select_chains_erased (l1 l2 : list (row F)) cs :
  erase_coords <$> l1 = erase_coords <$> l2 →
  erase_coords <$> select_chains l1 cs = erase_coords <$> select_chains l2 cs.
Proof.
  intros Heq. unfold select_chains. case_decide; [|done].
  unfold filter_dataframe. apply filter_erased; [by intros []|done].
Qed.

(** X3. Centroid and alpha-carbon granularity give the same table except
    for the coordinates: the same rows in the same order, so the same node
    identifiers, chains and residue names. *)
Theorem process_dataframe_centroids_like_CA (raw : pandas_pdb F)
    chain_selection insertions deprotonate :
  ∃ dfc dfa,
    process_dataframe raw None None "centroids" chain_selection insertions
      deprotonate [] = Ok dfc
    ∧ process_dataframe raw None None "CA" chain_selection insertions
        deprotonate [] = Ok dfa
    ∧ erase_coords <$> dfc = erase_coords <$> dfa.
Proof.
  unfold process_dataframe. cbn [decide]. 
  rewrite (decide_False (P := "centroids" = "atom")) by done.
  rewrite (decide_True (P := "centroids" = "centroids")) by done.
  rewrite (decide_False (P := "CA" = "atom")) by done.
  rewrite (decide_False (P := "CA" = "centroids")) by done.
  eexists _, _. split; [done|]. split; [done|].
  apply select_chains_erased. rewrite subset_CA.
  destruct insertions.
  - apply convert_structure_to_centroids_rows.
  - apply remove_insertions_erased, convert_structure_to_centroids_rows.
Qed.
End same_rows.
(** ** More on run-length segmentation *)

Section run_counts.
Context {A : Type} `{EqDecision A} (str : A → string).

Lemma segment_walk_length (prev : option A) (counter : A → nat) (l : list A) :
  length (segment_walk str prev counter l) = length l.
Proof.
  revert prev counter. induction l as [|x l IH]; intros prev counter; [done|].
  cbn [segment_walk length]. by rewrite IH.
Qed.

Lemma segment_walk_lookup (prev : option A) (counter : A → nat) (l : list A)
    (i : nat) (v : A) :
  l !! i = Some v →
  segment_walk str prev counter l !! i
  = Some (str v +:+ pretty (counter v + run_count v prev (take (S i) l))).
Proof.
  revert prev counter i. induction l as [|x l IH]; intros prev counter i Hi;
    [done|].
  destruct i as [|i].
  - injection Hi as ->. cbn [segment_walk lookup list_lookup take run_count].
    assert ((if decide (prev = Some v) then counter v else S (counter v))
            = counter v + ((if decide (v = v ∧ prev ≠ Some v) then 1 else 0) + 0))
      as ->; [|done].
    destruct (decide (prev = Some v)) as [->|Hne].
    + rewrite decide_False by (intros [_ ?]; done). lia.
    + rewrite decide_True by done. lia.
  - cbn [segment_walk]. rewrite lookup_cons_ne_0 by done. cbn [Nat.pred].
    cbn [lookup list_lookup] in Hi.
    rewrite (IH _ _ i Hi).
    change (take (S (S i)) (x :: l)) with (x :: take (S i) l).
    cbn [run_count].
    match goal with |- Some (_ +:+ pretty ?a) = Some (_ +:+ pretty ?b) =>
      assert (a = b) as ->; [|done] end.
    destruct (decide (x = v)) as [->|Hxv].
    + rewrite fn_lookup_insert. destruct (decide (prev = Some v)) as [->|Hne].
      * rewrite decide_False by (intros [_ ?]; done). lia.
      * rewrite decide_True by done. lia.
    + rewrite fn_lookup_insert_ne by done.
      rewrite decide_False by (intros [? _]; done). lia.
Qed.

(** X5. Segment identifiers in closed form: the output has one identifier
    per element, and the identifier of an element with label [v] is the
    label followed by the number of runs of [v] that have started up to
    and including the element. Two neighbours with the same label get the
    same identifier. *)
Theorem number_groups_of_runs_counts_runs (l : list A) (i : nat) (v : A) :
  l !! i = Some v →
  length (number_groups_of_runs str l) = length l
  ∧ number_groups_of_runs str l !! i
    = Some (str v +:+ pretty (run_count v None (take (S i) l)))
  ∧ (l !! S i = Some v →
     number_groups_of_runs str l !! S i = number_groups_of_runs str l !! i).
Proof.
  intros Hi. rewrite number_groups_of_runs_walk. unfold segment_ids_spec.
  split; [apply segment_walk_length|].
  rewrite (segment_walk_lookup None _ l i v Hi). split; [done|].
  intros Hi'. rewrite (segment_walk_lookup None _ l (S i) v Hi').
  cbn [Nat.add].
  match goal with |- Some (_ +:+ pretty ?a) = Some (_ +:+ pretty ?b) =>
    assert (a = b) as ->; [|done] end.
  rewrite (take_S_r l (S i) v Hi').
  assert (∀ (pre : list A) prev, list.last pre = Some v →
            run_count v prev (pre ++ [v]) = run_count v prev pre) as Hsnoc.
  { induction pre as [|x pre IH]; intros prev Hlast; [done|].
    cbn [app run_count]. destruct pre as [|y pre].
    - injection Hlast as ->. cbn [app run_count].
      rewrite (decide_False (P := v = v ∧ Some v ≠ Some v)) by (intros [_ ?]; done).
      done.
    - rewrite IH; [done|]. by rewrite last_cons_cons in Hlast. }
  apply Hsnoc. rewrite (take_S_r l i v Hi). apply last_snoc.
Qed.
End run_counts.

Lemma number_groups_of_runs_counts_runs_witness :
  number_groups_of_runs id ["H"; "H"; "E"; "H"] !! 3 = Some "H2".
Proof.
  destruct (number_groups_of_runs_counts_runs id ["H"; "H"; "E"; "H"] 3 "H")
    as (_ & -> & _); reflexivity.
Defined.
(** ** Residues without a one-letter code *)

Section unknown_residues.
Context {F : Type} `{!Floats F} (env : collaborators F).

Lemma traverse_letters_inv (rows : list (row F)) :
  match traverse
          (fun r =>
             match three_to_one_with_mods env (residue_name r) with
             | Some s => Ok s
             | None => Raise (KeyError (residue_name r))
             end) rows with
  | Ok _ => ∀ r, r ∈ rows → is_Some (three_to_one_with_mods env (residue_name r))
  | Raise e => ∃ r, r ∈ rows ∧ three_to_one_with_mods env (residue_name r) = None
                    ∧ e = KeyError (residue_name r)
  end.
Proof.
  induction rows as [|r rows IH]; [intros r Hr; by apply elem_of_nil in Hr|].
  cbn [traverse].
  destruct (three_to_one_with_mods env (residue_name r)) as [s|] eqn:Hs.
  - rewrite rbind_Ok.
    destruct (traverse _ rows) as [ys|e].
    + rewrite rbind_Ok. intros r' [->|Hr']%elem_of_cons; [by exists s|by apply IH].
    + destruct IH as (r' & Hr' & Hnone & ->). exists r'.
      split; [by right|done].
  - exists r. split; [by left|done].
Qed.

Lemma chain_sequence_inv (df : list (row F)) (c : string) :
  match chain_sequence env df c with
  | Ok _ => ∀ r, r ∈ df → chain_id r = c →
                 is_Some (three_to_one_with_mods env (residue_name r))
  | Raise e => ∃ r, r ∈ df ∧ three_to_one_with_mods env (residue_name r) = None
                    ∧ e = KeyError (residue_name r)
  end.
Proof.
  unfold chain_sequence.
  pose proof (traverse_letters_inv (filter (fun r => chain_id r = c) df)) as H.
  destruct (traverse _ _) as [ys|e].
  - rewrite rbind_Ok. intros r Hr Hc. apply H. by apply list_elem_of_filter.
  - destruct H as (r & Hr & Hnone & ->). exists r.
    apply list_elem_of_filter in Hr as [_ Hr]. done.
Qed.

Lemma sequence_loop_unknown (df : list (row F)) (l : loc) (cs : list string)
    (σ : store F) (m : graph_meta F) (r : row F) :
  r ∈ df → three_to_one_with_mods env (residue_name r) = None →
  chain_id r ∈ cs → metas σ !! l = Some m →
  ∃ r' σ',
    r' ∈ df ∧ three_to_one_with_mods env (residue_name r') = None
    ∧ foldM (fun (_ : unit) c =>
               s ← lift (chain_sequence env df c);
               m ← get_meta l;
               set_meta l (set_sequence m c s)) () cs σ
      = (Raise (KeyError (residue_name r')), σ').
Proof.
  intros Hr Hnone. revert σ m. induction cs as [|c cs IH]; intros σ m Hc Hm;
    [by apply elem_of_nil in Hc|].
  cbn [foldM]. rewrite !mbind_M. unfold lift at 1.
  pose proof (chain_sequence_inv df c) as Hseq.
  destruct (chain_sequence env df c) as [s|e].
  - rewrite mbind_M. unfold get_meta at 1. rewrite Hm. unfold set_meta at 1.
    apply elem_of_cons in Hc as [Hc|Hc].
    { destruct (Hseq r Hr Hc) as [s' Hs']. congruence. }
    apply (IH _ (set_sequence m c s) Hc). simpl. apply lookup_insert_eq.
  - destruct Hseq as (r' & Hr' & Hnone' & ->). by exists r', σ.
Qed.

(** X6. The assembler fails on a residue name without a one-letter code:
    when exactly one structure source is given and some row of the
    reduced table has such a residue name, the call raises the [KeyError]
    of the code lookup for a row of the table, and no graph is
    returned. *)
Theorem initialise_graph_with_metadata_unknown_residue
    (df raw : list (row F)) granularity name pdb_code pdb_path (σ : store F)
    (r : row F) :
  exactly_one pdb_code pdb_path = true →
  r ∈ df → three_to_one_with_mods env (residue_name r) = None →
  ∃ r' σ',
    r' ∈ df ∧ three_to_one_with_mods env (residue_name r') = None
    ∧ initialise_graph_with_metadata env df raw granularity name pdb_code
        pdb_path σ
      = (Raise (KeyError (residue_name r')), σ').
Proof.
  intros Hone Hr Hnone. unfold initialise_graph_with_metadata. rewrite Hone.
  unfold negb. cbv zeta.
  rewrite mbind_M. unfold alloc_meta at 1. cbv beta iota.
  set (l := fresh (dom (metas σ))).
  rewrite mbind_M. unfold get_meta at 1. cbn [metas kinds].
  rewrite lookup_insert_eq.
  rewrite mbind_M. unfold set_meta at 1. cbn [metas kinds].
  rewrite insert_insert_eq.
  match goal with |- context [set_node_type ?m0 granularity] =>
    set (m1 := set_node_type m0 granularity) end.
  destruct (sequence_loop_unknown df l (pd_unique (chain_id <$> df))
              (Store (<[l:=m1]> (metas σ)) (kinds σ)) m1 r Hr Hnone)
    as (r' & σ' & Hr' & Hnone' & Hrun).
  { apply pd_unique_elem_of. by apply list_elem_of_fmap_2. }
  { simpl. apply lookup_insert_eq. }
  exists r', σ'. split; [done|]. split; [done|].
  by rewrite mbind_M, Hrun.
Qed.
End unknown_residues.

Lemma initialise_graph_with_metadata_unknown_residue_witness :
  ∃ r' σ',
    r' ∈ [atom_row "A" "HOH" 1 "O" 0]
    ∧ three_to_one_with_mods sample_env (residue_name r') = None
    ∧ initialise_graph_with_metadata sample_env [atom_row "A" "HOH" 1 "O" 0] []
        "CA" None (Some "1ABC") None empty_store
      = (Raise (KeyError (residue_name r')), σ').
Proof.
  apply (initialise_graph_with_metadata_unknown_residue sample_env
           [atom_row "A" "HOH" 1 "O" 0] [] "CA" None (Some "1ABC") None
           empty_store (atom_row "A" "HOH" 1 "O" 0)).
  - reflexivity.
  - apply list_elem_of_singleton. reflexivity.
  - by vm_compute.
Defined.
(** ** Nodes from rows *)

Section nodes_from_rows.
Context {F : Type}.
Implicit Types (df : list (row F)) (ns : list (string * attrs F)).

Lemma zip_fmap_fmap {A B C} (f : A → B) (g : A → C) (l : list A) :
  zip (f <$> l) (g <$> l) = (fun x => (f x, g x)) <$> l.
Proof. induction l as [|x l IH]; [done|]. cbn. by rewrite IH. Qed.

Lemma add_nodes_from_empty_attrs (cs acc : list string) :
  add_nodes_from ((fun n => (n, ∅)) <$> acc : list (string * attrs F))
    ((fun c => (c, ∅)) <$> cs)
  = (fun n => (n, ∅)) <$>
      foldl (fun acc x => if decide (x ∈ acc) then acc else acc ++ [x]) acc cs.
Proof.
  revert acc. induction cs as [|c cs IH]; intros acc; [done|].
  unfold add_nodes_from in *. cbn [fmap list_fmap foldl].
  assert (add_node ((fun n => (n, ∅)) <$> acc : list (string * attrs F)) (c, ∅)
          = (fun n => (n, ∅)) <$> (if decide (c ∈ acc) then acc else acc ++ [c]))
    as ->; [|apply IH].
  unfold add_node. cbn [fst snd].
  rewrite <- list_fmap_compose.
  assert ((fst ∘ (fun n : string => (n, (∅ : attrs F)))) <$> acc = acc) as ->.
  { apply list_fmap_id. }
  case_decide.
  - rewrite <- list_fmap_compose. apply list_fmap_ext. intros i n _. cbn.
    case_decide; [|done]. by rewrite (left_id_L ∅ (∪)).
  - by rewrite fmap_app.
Qed.

Lemma last_row_snoc df (r : row F) n :
  last_row (df ++ [r]) n
  = if decide (node_id r = n) then Some r else last_row df n.
Proof.
  unfold last_row. rewrite list.filter_app.
  case_decide.
  - rewrite filter_cons_True by done. rewrite filter_nil. apply last_snoc.
  - rewrite filter_cons_False by done. by rewrite filter_nil, app_nil_r.
Qed.

Lemma last_row_is_Some df n : n ∈ node_id <$> df → is_Some (last_row df n).
Proof.
  intros (r & -> & Hr)%list_elem_of_fmap. unfold last_row.
  assert (r ∈ filter (fun r0 => node_id r0 = node_id r) df) as Hin
    by (by apply list_elem_of_filter).
  destruct (filter _ df) as [|x l] using rev_ind; [by apply elem_of_nil in Hin|].
  rewrite last_snoc. by eexists.
Qed.

Lemma last_row_NoDup df r :
  NoDup (node_id <$> df) → r ∈ df → last_row df (node_id r) = Some r.
Proof.
  intros Hnd Hr. unfold last_row.
  induction df as [|x df IH]; [by apply elem_of_nil in Hr|].
  cbn [fmap list_fmap] in Hnd. apply list.NoDup_cons in Hnd as [Hx Hnd].
  apply elem_of_cons in Hr as [->|Hr].
  - rewrite filter_cons_True by done. rewrite filter_none; [done|].
    intros y Hy Heq. apply Hx. rewrite <- Heq. by apply list_elem_of_fmap_2.
  - rewrite filter_cons_False; [by apply IH|].
    intros Heq. apply Hx. rewrite Heq. by apply list_elem_of_fmap_2.
Qed.

(** One attribute column written to the nodes: a node gets the value of
    the last row with its identifier, a node without a row keeps its
    attributes. *)
Lemma set_node_attributes_column ns df (f : row F → value F) (name : string) :
  set_node_attributes ns (zip (node_id <$> df) (f <$> df)) name
  = (fun p : string * attrs F =>
       match last_row df p.1 with
       | Some r => (p.1, <[name := f r]> (p.2))
       | None => p
       end) <$> ns.
Proof.
  rewrite zip_fmap_fmap. unfold set_node_attributes.
  induction df as [|r df IH] using rev_ind.
  - cbn. symmetry. apply list_fmap_id.
  - rewrite fmap_app, foldl_app. cbn [fmap list_fmap foldl fst snd].
    rewrite IH. unfold set_node_attr. rewrite <- list_fmap_compose.
    apply list_fmap_ext. intros i p _. cbn [compose].
    rewrite last_row_snoc.
    destruct (last_row df p.1) as [r0|]; cbn [fst snd].
    + destruct (decide (p.1 = node_id r)) as [Heq|Hne].
      * rewrite decide_True by done. by rewrite insert_insert_eq.
      * by rewrite decide_False by done.
    + destruct (decide (p.1 = node_id r)) as [Heq|Hne].
      * rewrite decide_True by done. by destruct p.
      * by rewrite decide_False by done.
Qed.

Lemma add_nodes_to_graph_nodes (G : Graph F) df verbose (σ : store F) :
  nodes G = [] →
  add_nodes_to_graph G (Some df) verbose σ
  = (Ok (Nx (graph G)
           ((fun n => (n, from_option row_attrs ∅ (last_row df n)))
              <$> pd_unique (node_id <$> df))
           (edges G)), σ).
Proof.
  intros HG. unfold add_nodes_to_graph. rewrite mbind_M. cbv [mret M_ret].
  cbv zeta. do 3 f_equal.
  rewrite HG.
  assert (((fun r : row F => (node_id r, (∅ : attrs F))) <$> df)
          = (fun n => (n, ∅)) <$> (node_id <$> df)) as ->
    by (by rewrite <- list_fmap_compose).
  change [] with ((fun n => (n, (∅ : attrs F))) <$> ([] : list string)) at 1.
  rewrite add_nodes_from_empty_attrs. fold (pd_unique (node_id <$> df)).
  rewrite !set_node_attributes_column. rewrite <- !list_fmap_compose.
  apply list_fmap_ext. intros i n _. cbn [compose fst snd].
  destruct (last_row df n) as [r|] eqn:Hl;
    repeat (cbn [fst snd]; rewrite Hl); done.
Qed.

(** X7. Adding the nodes of a table to a graph without nodes: the call
    returns, leaves the store, the metadata reference and the edges as
    they are, and the graph gets one node per distinct node identifier of
    the table, in order of first appearance; the attributes of a node are
    those of the last row with its identifier. A table with distinct node
    identifiers gives one node per row, in row order. *)
Theorem add_nodes_to_graph_rows (G : Graph F) df verbose (σ : store F) :
  nodes G = [] →
  ∃ G',
    add_nodes_to_graph G (Some df) verbose σ = (Ok G', σ)
    ∧ graph G' = graph G ∧ edges G' = edges G
    ∧ (nodes G').*1 = pd_unique (node_id <$> df)
    ∧ (∀ n r, last_row df n = Some r → node_data (nodes G') n = Some (row_attrs r))
    ∧ (NoDup (node_id <$> df) →
       nodes G' = (fun r => (node_id r, row_attrs r)) <$> df).
Proof.
  intros HG. eexists. split; [by apply add_nodes_to_graph_nodes|].
  cbn [graph edges nodes]. split; [done|]. split; [done|].
  assert (((fun n => (n, from_option row_attrs (∅ : attrs F) (last_row df n)))
             <$> pd_unique (node_id <$> df)).*1 = pd_unique (node_id <$> df))
    as Hnames.
  { rewrite <- list_fmap_compose. apply list_fmap_id. }
  split; [done|]. split.
  - intros n r Hlast. unfold node_data. apply elem_of_list_to_map_1.
    + rewrite Hnames. apply pd_unique_NoDup.
    + apply list_elem_of_fmap. exists n. rewrite Hlast. split; [done|].
      apply pd_unique_elem_of. unfold last_row in Hlast.
      apply last_Some_elem_of in Hlast.
      apply list_elem_of_filter in Hlast as [<- Hr].
      by apply list_elem_of_fmap_2.
  - intros Hnd. rewrite pd_unique_id by done. rewrite <- list_fmap_compose.
    apply list_fmap_ext. intros i r Hi. cbn [compose].
    rewrite last_row_NoDup; [done|done|]. by eapply list_elem_of_lookup_2.
Qed.
End nodes_from_rows.

Lemma add_nodes_to_graph_rows_witness :
  ∃ G',
    add_nodes_to_graph (Nx 1%positive [] ∅) (Some one_residue) false empty_store
    = (Ok G', empty_store)
    ∧ (nodes G').*1 = [""].
Proof.
  destruct (add_nodes_to_graph_rows (Nx 1%positive [] ∅ : Graph (option Qc))
              one_residue false empty_store)
    as (G' & Hrun & _ & _ & Hnames & _); [reflexivity|].
  exists G'. split; [exact Hrun|]. rewrite Hnames. reflexivity.
Defined.
(** ** Node identifiers written back to a table *)

Section assign_node_ids.
Context {F : Type} (series_str : list string → string).
Implicit Types (df : list (row F)).

Lemma pd_unique_constant {A} `{EqDecision A} (l : list A) (a : A) :
  (∀ x, x ∈ l → x = a) → (length (pd_unique l) ≤ 1)%nat.
Proof.
  intros Hall.
  assert (pd_unique l ⊆ [a]) as Hsub.
  { intros x Hx. rewrite pd_unique_elem_of in Hx.
    apply list_elem_of_singleton. by apply Hall. }
  assert (pd_unique l ⊆+ [a]) as Hsm.
  { apply NoDup_submseteq; [apply pd_unique_NoDup|]. intros x Hx. by apply Hsub. }
  apply submseteq_length in Hsm. exact Hsm.
Qed.

(** X8. Node identifiers written back to a table. At a granularity other
    than [atom] every row gets the identifier that the structure reader
    assigns. At [atom] granularity every row gets one and the same
    identifier, so that the nodes added from the table collapse into at
    most one node. *)
Theorem assign_node_id_to_dataframe_atom_single_node
    df (granularity : string) (G : Graph F) (verbose : bool) (σ : store F) :
  nodes G = [] →
  (granularity ≠ "atom" →
   assign_node_id_to_dataframe series_str df granularity
   = (fun r => set_node_id r (node_id_of granularity r)) <$> df)
  ∧ (∀ r1 r2, r1 ∈ assign_node_id_to_dataframe series_str df "atom" →
              r2 ∈ assign_node_id_to_dataframe series_str df "atom" →
              node_id r1 = node_id r2)
  ∧ ∃ G',
      add_nodes_to_graph G
        (Some (assign_node_id_to_dataframe series_str df "atom")) verbose σ
      = (Ok G', σ)
      ∧ (length (nodes G') ≤ 1)%nat.
Proof.
  intros HG. split; [|split].
  - intros Hg. unfold assign_node_id_to_dataframe, node_id_of.
    destruct (decide (granularity = "atom")); [done|]. reflexivity.
  - unfold assign_node_id_to_dataframe. rewrite decide_True by done. cbv zeta.
    intros r1 r2 (a1 & -> & _)%list_elem_of_fmap (a2 & -> & _)%list_elem_of_fmap.
    done.
  - rewrite add_nodes_to_graph_nodes by done. eexists. split; [done|].
    cbn [nodes]. rewrite length_fmap.
    unfold assign_node_id_to_dataframe. rewrite decide_True by done. cbv zeta.
    rewrite <- list_fmap_compose. eapply pd_unique_constant.
    intros n (r & -> & _)%list_elem_of_fmap.
    unfold compose, set_node_id. cbn [node_id]. reflexivity.
Qed.
End assign_node_ids.

Lemma assign_node_id_to_dataframe_atom_single_node_witness :
  ∃ G',
    add_nodes_to_graph (Nx 1%positive [] ∅)
      (Some (assign_node_id_to_dataframe (String.concat ",") sample_atoms "atom"))
      false empty_store
    = (Ok G', empty_store)
    ∧ (length (nodes G') ≤ 1)%nat.
Proof.
  apply (assign_node_id_to_dataframe_atom_single_node (String.concat ",")
           sample_atoms "atom" (Nx 1%positive [] ∅) false empty_store).
  reflexivity.
Defined.
(** ** The chain graph *)

Lemma string_app_nil_r (s : string) : s +:+ "" = s.
Proof.
  induction s as [|a s IH]; [done|].
  change (String a (s +:+ "") = String a s). by rewrite IH.
Qed.

Lemma string_app_assoc (s1 s2 s3 : string) :
  (s1 +:+ s2) +:+ s3 = s1 +:+ (s2 +:+ s3).
Proof.
  induction s1 as [|a s1 IH]; [done|].
  change (String a ((s1 +:+ s2) +:+ s3) = String a (s1 +:+ (s2 +:+ s3))).
  by rewrite IH.
Qed.

Lemma string_concat_cons (s : string) (l : list string) :
  String.concat "" (s :: l) = s +:+ String.concat "" l.
Proof.
  destruct l as [|y l]; [|done].
  change (s = s +:+ ""). symmetry. apply string_app_nil_r.
Qed.

Section chain_graph_contents.
Context {F : Type} (env : collaborators F).
Implicit Types (ns hn : list (string * attrs F)) (g : Graph F).

Lemma chain_members_cons nd ns c c0 :
  nd.2 !! "chain_id" = Some (VStr c0) →
  chain_members (nd :: ns) c
  = if decide (c = c0) then nd :: chain_members ns c else chain_members ns c.
Proof.
  intros Hc. unfold chain_members. case_decide as Heq.
  - subst. rewrite filter_cons_True; [done|].
    unfold in_chains. rewrite Hc. apply bool_decide_eq_true. by left.
  - rewrite filter_cons_False; [done|].
    unfold in_chains. rewrite Hc. intros Hin%bool_decide_eq_true.
    by apply list_elem_of_singleton in Hin.
Qed.

Lemma chain_pass_fold_values (D : gset string) ns (npc : gmap string Z)
    (seqs : gmap string string) :
  (∀ nd, nd ∈ ns →
         ∃ c r, nd.2 !! "chain_id" = Some (VStr c) ∧ c ∈ D
                ∧ nd.2 !! "residue_name" = Some (VStr r)
                ∧ is_Some (RESI_THREE_TO_1 !! r)) →
  dom npc = D → dom seqs = D →
  ∃ npc' seqs',
    foldR (chain_pass env) (npc, seqs) ns = Ok (npc', seqs')
    ∧ ∀ c,
        npc' !! c
        = (fun k => (k + Z.of_nat (length (chain_members ns c)))%Z) <$> npc !! c
        ∧ seqs' !! c
          = (fun s => s +:+ String.concat "" (node_letter <$> chain_members ns c))
              <$> seqs !! c.
Proof.
  revert npc seqs. induction ns as [|nd ns IH]; intros npc seqs Hns Hn Hs.
  - exists npc, seqs. split; [done|]. intros c. cbn.
    destruct (npc !! c) as [k|]; destruct (seqs !! c) as [s|]; cbn;
      rewrite ?Z.add_0_r, ?string_app_nil_r; done.
  - destruct (Hns nd) as (c0 & r & Hc & HcD & Hr & [letter Hletter]); [by left|].
    assert (is_Some (npc !! c0)) as [k Hk] by (apply elem_of_dom; by rewrite Hn).
    assert (is_Some (seqs !! c0)) as [s Hs'] by (apply elem_of_dom; by rewrite Hs).
    destruct (IH (<[c0 := (k + 1)%Z]> npc) (<[c0 := s +:+ letter]> seqs))
      as (npc' & seqs' & Hrun & Hval).
    + intros; apply Hns; by right.
    + rewrite dom_insert_L, Hn. apply subseteq_union_1_L.
      by apply singleton_subseteq_l.
    + rewrite dom_insert_L, Hs. apply subseteq_union_1_L.
      by apply singleton_subseteq_l.
    + exists npc', seqs'. split.
      { cbn [foldR].
        rewrite (chain_pass_ok env nd npc seqs c0 r k s letter) by done.
        exact Hrun. }
      intros c. destruct (Hval c) as [Hv1 Hv2]. rewrite Hv1, Hv2.
      rewrite (chain_members_cons nd ns c c0 Hc).
      destruct (decide (c = c0)) as [->|Hne].
      * rewrite !lookup_insert_eq, Hk, Hs'. cbn [fmap option_fmap option_map length].
        cbn [fmap list_fmap]. rewrite string_concat_cons.
        assert (node_letter nd = letter) as ->.
        { unfold node_letter. by rewrite Hr, Hletter. }
        rewrite string_app_assoc. split; [f_equal; lia|done].
      * by rewrite !lookup_insert_ne by done.
Qed.

Lemma chain_attrs_traverse_values ns (cs : list string) (npc : gmap string Z)
    (seqs : gmap string string) :
  (∀ c, c ∈ cs →
        npc !! c = Some (Z.of_nat (length (chain_members ns c)))
        ∧ seqs !! c
          = Some (String.concat "" (node_letter <$> chain_members ns c))) →
  traverse
    (fun nd : string * attrs F =>
       k ← dict_get npc nd.1;
       s ← dict_get seqs nd.1;
       Ok (nd.1, <["sequence" := VStr s]>
                   (<["num_residues" := VInt k]> (nd.2))))
    ((fun c => (c, ∅)) <$> cs)
  = Ok ((fun c => (c, chain_attrs ns c)) <$> cs).
Proof.
  induction cs as [|c cs IH]; intros Hcs; [done|].
  cbn [fmap list_fmap traverse]. rewrite IH by (intros; apply Hcs; by right).
  destruct (Hcs c) as [Hk Hs]; [by left|]. unfold dict_get. cbn [fst snd].
  by rewrite Hk, rbind_Ok, Hs, !rbind_Ok.
Qed.

Lemma chain_edge_fold_values g hn (es acc : list (string * string * attrs F)) :
  (∀ nd, nd ∈ nodes g → ∃ c, nd.2 !! "chain_id" = Some (VStr c) ∧ c ∈ hn.*1) →
  (∀ e, e ∈ es →
        is_Some (node_data (nodes g) e.1.1)
        ∧ is_Some (node_data (nodes g) e.1.2)
        ∧ is_Some (e.2 !! "kind")) →
  foldR (chain_edge env g) (hn, acc) es
  = Ok (hn, acc ++
            ((fun e : string * string * attrs F =>
                (chain_of (nodes g) e.1.1, chain_of (nodes g) e.1.2,
                 <["kind" := default (VStr "") (e.2 !! "kind")]> (∅ : attrs F)))
             <$> es)).
Proof.
  intros Hnodes. revert acc. induction es as [|e es IH]; intros acc Hes.
  - by rewrite app_nil_r.
  - destruct (Hes e) as ([du Hu] & [dv Hv] & [k Hk]); [by left|].
    destruct e as [[u v] d]. cbn [fst snd] in *.
    destruct (Hnodes _ (node_data_elem_of _ _ _ Hu)) as (cu & Hcu & Hcu').
    destruct (Hnodes _ (node_data_elem_of _ _ _ Hv)) as (cv & Hcv & Hcv').
    cbn [snd] in *. cbn [foldR].
    rewrite (chain_edge_ok env g hn acc u v d du dv cu cv k) by done.
    rewrite rbind_Ok, IH by (intros; apply Hes; by right).
    cbn [fmap list_fmap fst snd]. rewrite <- app_assoc. cbn [app].
    unfold chain_of. rewrite Hu, Hv. cbn [mbind option_bind].
    by rewrite Hcu, Hcv, Hk.
Qed.

(** X9. The chain graph of a source graph that is ready for it, in full:
    one node per distinct entry of the chain list, carrying the number of
    source nodes of the chain as [num_residues] and the one-letter codes
    of their residue names, in node order, as [sequence]; one edge per
    edge of the source graph, between the chains of its endpoints and
    with its [kind], self-loops being left out on request; the graph
    shares the metadata object of the source, whose [node_type] now reads
    [chain]. *)
Theorem compute_chain_graph_contents g chain_list (remove_self_loops : bool)
    (σ : store F) (m : graph_meta F) :
  let g' := match chain_list with
            | Some cl => extract_subgraph_from_chains g cl
            | None => g
            end in
  metas σ !! graph g = Some m →
  chain_graph_ready m g' →
  compute_chain_graph env g chain_list remove_self_loops false σ
  = (Ok (inl (Nx (graph g)
                ((fun c => (c, chain_attrs (nodes g') c))
                   <$> pd_unique (chain_ids m))
                (if remove_self_loops then drop_self_loops (chain_edges g')
                 else chain_edges g'))),
     Store (<[graph g := set_node_type m "chain"]> (metas σ)) (kinds σ)).
Proof.
  intros g' Hm [Hnodes Hedges].
  assert (graph g' = graph g) as Hgraph by (unfold g'; by destruct chain_list).
  set (D := list_to_set (chain_ids m) : gset string).
  set (σ1 := Store (<[graph g := set_node_type m "chain"]> (metas σ)) (kinds σ)).
  destruct (chain_pass_fold_values D (nodes g')
              (list_to_map ((fun chain => (chain, 0%Z)) <$> chain_ids m))
              (list_to_map ((fun chain => (chain, "")) <$> chain_ids m)))
    as (npc & seqs & Hpass & Hval).
  { intros nd Hnd. destruct (Hnodes nd Hnd) as (c & r & ? & ? & ? & ?).
    exists c, r. split; [done|]. split; [by apply elem_of_list_to_set|done]. }
  { rewrite dom_list_to_map_L, <- list_fmap_compose. unfold D. f_equal.
    by rewrite list_fmap_id. }
  { rewrite dom_list_to_map_L, <- list_fmap_compose. unfold D. f_equal.
    by rewrite list_fmap_id. }
  assert (add_nodes_from ([] : list (string * attrs F))
            ((fun chain => (chain, ∅)) <$> chain_ids m)
          = (fun c => (c, ∅)) <$> pd_unique (chain_ids m)) as Hhn0.
  { change ([] : list (string * attrs F))
      with ((fun n => (n, (∅ : attrs F))) <$> ([] : list string)).
    by rewrite add_nodes_from_empty_attrs. }
  assert (∀ c, c ∈ pd_unique (chain_ids m) →
            npc !! c = Some (Z.of_nat (length (chain_members (nodes g') c)))
            ∧ seqs !! c
              = Some (String.concat "" (node_letter <$> chain_members (nodes g') c)))
    as Hcs.
  { intros c Hc. rewrite pd_unique_elem_of in Hc.
    destruct (Hval c) as [-> ->].
    assert (∀ {V} (v : V),
              (list_to_map ((fun chain => (chain, v)) <$> chain_ids m)
                 : gmap string V) !! c = Some v) as Hinit.
    { intros V v.
      destruct ((list_to_map ((fun chain => (chain, v)) <$> chain_ids m)
                   : gmap string V) !! c) as [v'|] eqn:Hl.
      - apply elem_of_list_to_map_2 in Hl.
        apply list_elem_of_fmap in Hl as (c' & [= -> ->] & _). done.
      - apply not_elem_of_list_to_map_2 in Hl. exfalso. apply Hl.
        rewrite <- list_fmap_compose. apply list_elem_of_fmap. by exists c. }
    rewrite !Hinit. done. }
  pose proof (chain_attrs_traverse_values (nodes g') (pd_unique (chain_ids m))
                npc seqs Hcs) as Htrav.
  set (hn1 := (fun c => (c, chain_attrs (nodes g') c)) <$> pd_unique (chain_ids m)).
  assert (hn1.*1 = pd_unique (chain_ids m)) as Hnames1.
  { unfold hn1. rewrite <- list_fmap_compose. apply list_fmap_id. }
  pose proof (chain_edge_fold_values g' hn1 (edges_data g') []) as Hfold.
  unfold compute_chain_graph. fold g'. rewrite Hgraph.
  rewrite mbind_M. unfold get_meta at 1. rewrite Hm. cbv beta iota.
  rewrite mbind_M. unfold set_meta at 1. cbv beta iota. fold σ1.
  rewrite mbind_M. unfold get_meta at 1. cbn [metas σ1].
  rewrite lookup_insert_eq. cbv beta iota. cbn [chain_ids set_node_type].
  rewrite mbind_M. unfold lift at 1. rewrite Hpass. cbv beta iota.
  rewrite Hhn0. rewrite mbind_M. unfold lift at 1. rewrite Htrav. cbv beta iota.
  fold hn1. rewrite mbind_M. unfold lift at 1. rewrite Hfold; [|..|done].
  - cbv beta iota. cbn [fst snd app]. fold (chain_edges g'). done.
  - intros nd Hnd. destruct (Hnodes nd Hnd) as (c & r & ? & ? & ? & ?).
    exists c. split; [done|]. rewrite Hnames1. by apply pd_unique_elem_of.
Qed.
End chain_graph_contents.

Lemma compute_chain_graph_contents_witness :
  compute_chain_graph sample_env two_chain_graph None true false two_chain_store
  = (Ok (inl (Nx 1%positive
                [("A", chain_attrs (nodes two_chain_graph) "A");
                 ("B", chain_attrs (nodes two_chain_graph) "B")]
                (drop_self_loops (chain_edges two_chain_graph)))),
     Store {[1%positive := set_node_type (meta_with_chains ["A"; "B"]) "chain"]}
           (kinds two_chain_store)).
Proof.
  rewrite (compute_chain_graph_contents sample_env two_chain_graph None true
             two_chain_store (meta_with_chains ["A"; "B"])).
  - reflexivity.
  - reflexivity.
  - split.
    + intros nd Hnd. unfold two_chain_graph in Hnd. cbn [nodes] in Hnd.
      apply elem_of_cons in Hnd as [->|Hnd].
      { exists "A", "ALA". split; [reflexivity|]. split; [by left|].
        split; [reflexivity|]. by vm_compute; eexists. }
      apply list_elem_of_singleton in Hnd as ->.
      exists "B", "GLY". split; [reflexivity|]. split; [by right; left|].
      split; [reflexivity|]. by vm_compute; eexists.
    + intros e He. unfold edges_data, two_chain_graph in He. cbn [edges] in He.
      rewrite map_to_list_singleton in He.
      apply list_elem_of_singleton in He as ->.
      split; [by vm_compute; eexists|]. split; by vm_compute; eexists.
Defined.
(** ** What deriving a chain graph does to its source *)

Section chain_graph_effects.
Context {F : Type} (env : collaborators F).
Implicit Types (ns hn : list (string * attrs F)) (g : Graph F).

Lemma collapse_fold_metas (es : list (string * string * attrs F))
    (H : list (string * attrs F) * gmap (string * string) (attrs F))
    (σ : store F) :
  metas (foldM collapse_edge H es σ).2 = metas σ.
Proof.
  revert H σ. induction es as [|e es IH]; intros H σ; [done|].
  cbn [foldM]. rewrite mbind_M. destruct H as [hn adj].
  destruct (collapse_edge (hn, adj) e σ) as [[H1|ex] σ1] eqn:Hstep;
    apply collapse_edge_frame in Hstep as [Hm _].
  - by rewrite IH.
  - done.
Qed.

Lemma collapse_metas (h : MultiGraph F) (σ : store F) :
  metas (compute_weighted_graph_from_multigraph h σ).2 = metas σ
  ∧ ∀ H, (compute_weighted_graph_from_multigraph h σ).1 = Ok H →
         graph H = graph h.
Proof.
  unfold compute_weighted_graph_from_multigraph. rewrite mbind_M.
  pose proof (collapse_fold_metas (edges h) (add_nodes_from [] (nodes h), ∅) σ)
    as Hm.
  destruct (foldM collapse_edge _ (edges h) σ) as [[H1|ex] σ1].
  - split; [done|]. by intros H [= <-].
  - split; [done|]. by intros H [=].
Qed.

Lemma compute_chain_graph_run g chain_list
    (remove_self_loops weighted : bool) (σ : store F) (m : graph_meta F) r σ' :
  metas σ !! graph g = Some m →
  compute_chain_graph env g chain_list remove_self_loops weighted σ = (r, σ') →
  metas σ' = <[graph g := set_node_type m "chain"]> (metas σ)
  ∧ ∀ h, r = Ok h → derived_meta h = graph g.
Proof.
  intros Hm. unfold compute_chain_graph.
  set (g' := match chain_list with
             | Some cl => extract_subgraph_from_chains g cl
             | None => g
             end).
  assert (graph g' = graph g) as Hgraph by (unfold g'; by destruct chain_list).
  rewrite Hgraph.
  set (σ1 := Store (<[graph g := set_node_type m "chain"]> (metas σ)) (kinds σ)).
  rewrite mbind_M. unfold get_meta at 1. rewrite Hm. cbv beta iota.
  rewrite mbind_M. unfold set_meta at 1. cbv beta iota. fold σ1.
  rewrite mbind_M. unfold get_meta at 1. cbn [metas σ1].
  rewrite lookup_insert_eq. cbv beta iota.
  rewrite mbind_M. unfold lift at 1.
  destruct (foldR (chain_pass env) _ (nodes g')) as [[npc seqs]|e];
    [|intros [= <- <-]; split; [done|intros h Hh; discriminate Hh]].
  cbv beta iota. rewrite mbind_M. unfold lift at 1.
  destruct (traverse _ _) as [hn|e];
    [|intros [= <- <-]; split; [done|intros h Hh; discriminate Hh]].
  cbv beta iota. rewrite mbind_M. unfold lift at 1.
  destruct (foldR (chain_edge env g') _ _) as [[hn' he]|e];
    [|intros [= <- <-]; split; [done|intros h Hh; discriminate Hh]].
  cbv beta iota. cbn [fst snd]. destruct weighted.
  - rewrite mbind_M.
    match goal with |- context [compute_weighted_graph_from_multigraph ?h0 σ1] =>
      destruct (collapse_metas h0 σ1) as [Hmetas Hg];
      destruct (compute_weighted_graph_from_multigraph h0 σ1) as [[H|ex] σ2]
    end; cbn [fst snd] in *.
    + intros [= <- <-]. split; [exact Hmetas|]. intros h [= <-].
      cbn [derived_meta]. by rewrite (Hg H eq_refl).
    + intros [= <- <-]. split; [exact Hmetas|]. intros h Hh; discriminate Hh.
  - intros [= <- <-]. split; [done|]. by intros h [= <-].
Qed.

(** X10. Deriving a chain graph writes to the source graph: the derived
    graph takes the metadata object of the source, not a copy, and the
    [node_type] entry of that object is set to [chain] before anything
    else is looked at. So after the call, whether it returned a graph or
    raised, the metadata of the source reads [chain], and nothing else in
    the metadata has changed. *)
Theorem compute_chain_graph_marks_source g chain_list
    (remove_self_loops weighted : bool) (σ : store F) (m : graph_meta F) :
  metas σ !! graph g = Some m →
  let out := compute_chain_graph env g chain_list remove_self_loops weighted σ in
  metas out.2 = <[graph g := set_node_type m "chain"]> (metas σ)
  ∧ ∀ h, out.1 = Ok h → derived_meta h = graph g.
Proof.
  intros Hm. cbv zeta.
  destruct (compute_chain_graph env g chain_list remove_self_loops weighted σ)
    as [r σ'] eqn:Hrun.
  by apply (compute_chain_graph_run g chain_list remove_self_loops weighted σ m).
Qed.

Lemma str_attr_key_error (d : attrs F) key :
  rraises_only is_key_error (str_attr env d key).
Proof.
  unfold str_attr. intros e.
  destruct (d !! key) as [[]|]; intros [= <-]; by eexists.
Qed.

Lemma dict_get_key_error {V} (mp : gmap string V) k :
  rraises_only is_key_error (dict_get mp k).
Proof. apply rro_dict_get. intros s. by exists s. Qed.

Lemma chain_pass_key_error acc (nd : string * attrs F) :
  rraises_only is_key_error (chain_pass env acc nd).
Proof.
  unfold chain_pass. destruct acc as [npc seqs].
  apply rro_bind; [apply str_attr_key_error|]. intros c.
  apply rro_bind; [apply dict_get_key_error|]. intros k.
  apply rro_bind; [apply str_attr_key_error|]. intros c'.
  apply rro_bind; [apply str_attr_key_error|]. intros r.
  apply rro_bind; [apply dict_get_key_error|]. intros letter.
  apply rro_bind; [apply dict_get_key_error|]. intros s. apply rro_ok.
Qed.

Lemma chain_pass_unknown acc (nd : string * attrs F) r :
  nd.2 !! "residue_name" = Some (VStr r) → RESI_THREE_TO_1 !! r = None →
  ∃ k, chain_pass env acc nd = Raise (KeyError k).
Proof.
  intros Hr Hnone. pose proof (chain_pass_key_error acc nd) as Hke.
  destruct (chain_pass env acc nd) as [acc'|e] eqn:E.
  - exfalso. unfold chain_pass in E. destruct acc as [npc seqs].
    destruct (str_attr env nd.2 "chain_id") as [c|?]; [|done].
    rewrite rbind_Ok in E.
    destruct (dict_get npc c) as [k|?]; [|done]. rewrite !rbind_Ok in E.
    unfold str_attr at 1 in E. rewrite Hr, rbind_Ok in E.
    assert (dict_get RESI_THREE_TO_1 r = Raise (KeyError r)) as Hd
      by (unfold dict_get; by rewrite Hnone).
    by rewrite Hd in E.
  - destruct (Hke e eq_refl) as [k ->]. by exists k.
Qed.

Lemma chain_pass_fold_unknown ns acc (nd : string * attrs F) r :
  nd ∈ ns →
  nd.2 !! "residue_name" = Some (VStr r) → RESI_THREE_TO_1 !! r = None →
  ∃ k, foldR (chain_pass env) acc ns = Raise (KeyError k).
Proof.
  intros Hin Hr Hnone. revert acc. induction ns as [|x ns IH]; intros acc;
    [by apply elem_of_nil in Hin|].
  cbn [foldR]. apply elem_of_cons in Hin as [<-|Hin].
  - destruct (chain_pass_unknown acc nd r Hr Hnone) as [k ->]. by exists k.
  - pose proof (chain_pass_key_error acc x) as Hke.
    destruct (chain_pass env acc x) as [acc'|e].
    + rewrite rbind_Ok. by apply IH.
    + destruct (Hke e eq_refl) as [k ->]. by exists k.
Qed.

(** X11. The chain graph looks residue names up in the plain residue
    table: when a node of the (restricted) source graph has a residue name
    that the table does not list, the call raises a [KeyError] and
    returns no graph, whatever the options. *)
Theorem compute_chain_graph_unknown_residue g chain_list
    (remove_self_loops weighted : bool) (σ : store F) (m : graph_meta F)
    (nd : string * attrs F) (r : string) :
  let g' := match chain_list with
            | Some cl => extract_subgraph_from_chains g cl
            | None => g
            end in
  metas σ !! graph g = Some m →
  nd ∈ nodes g' →
  nd.2 !! "residue_name" = Some (VStr r) → RESI_THREE_TO_1 !! r = None →
  ∃ k, (compute_chain_graph env g chain_list remove_self_loops weighted σ).1
       = Raise (KeyError k).
Proof.
  intros g' Hm Hin Hr Hnone. unfold compute_chain_graph. fold g'.
  assert (graph g' = graph g) as Hgraph by (unfold g'; by destruct chain_list).
  rewrite Hgraph.
  rewrite mbind_M. unfold get_meta at 1. rewrite Hm. cbv beta iota.
  rewrite mbind_M. unfold set_meta at 1. cbv beta iota.
  rewrite mbind_M. unfold get_meta at 1. cbn [metas].
  rewrite lookup_insert_eq. cbv beta iota.
  rewrite mbind_M. unfold lift at 1.
  match goal with |- context [foldR (chain_pass env) ?acc (nodes g')] =>
    destruct (chain_pass_fold_unknown (nodes g') acc nd r Hin Hr Hnone) as [k ->]
  end.
  by exists k.
Qed.
End chain_graph_effects.

Lemma compute_chain_graph_marks_source_witness :
  (metas (compute_chain_graph sample_env two_chain_graph None true true
            two_chain_store).2 : gmap loc (graph_meta (option Qc)))
  = <[1%positive := set_node_type (meta_with_chains ["A"; "B"]) "chain"]>
      (metas two_chain_store).
Proof.
  apply (compute_chain_graph_marks_source sample_env two_chain_graph None true
           true two_chain_store (meta_with_chains ["A"; "B"])).
  reflexivity.
Defined.

Lemma compute_chain_graph_unknown_residue_witness :
  ∃ k, (compute_chain_graph sample_env
          (Nx 1%positive [("A:HOH:1", residue_attrs "A" "HOH")] ∅)
          None true false two_chain_store).1
       = Raise (KeyError k).
Proof.
  apply (compute_chain_graph_unknown_residue sample_env
           (Nx 1%positive [("A:HOH:1", residue_attrs "A" "HOH")] ∅)
           None true false two_chain_store (meta_with_chains ["A"; "B"])
           ("A:HOH:1", residue_attrs "A" "HOH") "HOH").
  - reflexivity.
  - apply list_elem_of_singleton. reflexivity.
  - reflexivity.
  - by vm_compute.
Defined.
(** ** More on the collapse of a multigraph *)

Section collapse_effects.
Context {F : Type}.
Implicit Types (e : string * string * attrs F) (es : list (string * string * attrs F)).
Implicit Types (σ : store F) (p : string * string).

Lemma collapse_edge_without_kind
    (H : list (string * attrs F) * gmap (string * string) (attrs F)) e σ :
  e.2 !! "kind" = None →
  collapse_edge H e σ = (Raise (KeyError "kind"), σ).
Proof.
  intros Hk. destruct e as [[u v] d]. destruct H as [hn adj].
  cbn [snd] in Hk. unfold collapse_edge.
  assert (kind_ref d = Raise (KeyError "kind")) as Href
    by (unfold kind_ref; by rewrite Hk).
  destruct (adj !! ekey u v); rewrite mbind_M; unfold lift at 1; by rewrite Href.
Qed.

Lemma collapse_fold_without_kind es
    (H : list (string * attrs F) * gmap (string * string) (attrs F)) e σ :
  e ∈ es → e.2 !! "kind" = None →
  ∃ ex, (foldM collapse_edge H es σ).1 = Raise ex.
Proof.
  intros Hin Hk. revert H σ. induction es as [|x es IH]; intros H σ;
    [by apply elem_of_nil in Hin|].
  cbn [foldM]. rewrite mbind_M.
  apply elem_of_cons in Hin as [<-|Hin].
  - rewrite collapse_edge_without_kind by done. by eexists.
  - destruct (collapse_edge H x σ) as [[H1|ex] σ1]; [by apply IH|by eexists].
Qed.

(** X12. The collapse needs a [kind] on every edge: when some edge of the
    multigraph has no [kind] attribute, the call raises and returns no
    graph; the metadata objects are as before. *)
Theorem collapse_requires_kind (g : MultiGraph F) σ e :
  e ∈ edges g → e.2 !! "kind" = None →
  (∃ ex, (compute_weighted_graph_from_multigraph g σ).1 = Raise ex)
  ∧ metas (compute_weighted_graph_from_multigraph g σ).2 = metas σ.
Proof.
  intros Hin Hk. split; [|apply collapse_metas].
  unfold compute_weighted_graph_from_multigraph. rewrite mbind_M.
  destruct (collapse_fold_without_kind (edges g)
              (add_nodes_from [] (nodes g), ∅) e σ Hin Hk) as [ex Hex].
  destruct (foldM collapse_edge _ (edges g) σ) as [[H1|ex'] σ1]; [done|].
  by eexists.
Qed.

(** X13. The collapsed graph shares its kind sets with the multigraph: the
    [kind] of the edge of a node pair is the set object of one of the
    pair's edges in the multigraph, which after the call holds the union
    over the pair, so that edge of the multigraph has been changed too.
    Set objects that no edge of the multigraph refers to, and all
    metadata objects, are as before. *)
Theorem collapse_shares_kind_sets (g : MultiGraph F) σ :
  collapsible σ (edges g) →
  ∃ H σ',
    compute_weighted_graph_from_multigraph g σ = (Ok H, σ')
    ∧ (∀ p hd, edges H !! p = Some hd →
         ∃ e l, e ∈ edges g ∧ edge_key e = p
                ∧ e.2 !! "kind" = Some (VSet l)
                ∧ hd !! "kind" = Some (VSet l)
                ∧ edge_kind σ' e = kind_spec σ (edges g) p)
    ∧ (∀ l, (∀ e, e ∈ edges g → kind_loc e ≠ Some l) →
            kinds σ' !! l = kinds σ !! l)
    ∧ metas σ' = metas σ.
Proof.
  intros Hok.
  destruct (collapse_fold σ [] (edges g) (add_nodes_from [] (nodes g)) ∅ σ
              (collapse_inv_nil σ) Hok) as (hn & adj & σ' & Hrun & Hinv).
  cbn [app] in Hinv. destruct Hinv as (_ & Hattr & Hframe & Hmetas).
  exists (Nx (graph g) hn adj), σ'. split.
  { unfold compute_weighted_graph_from_multigraph. rewrite mbind_M, Hrun. done. }
  split; [|done]. cbn [edges]. intros p hd Hp.
  destruct (Hattr p hd Hp) as (_ & (e & l & He & Hkey & Hl & Hk & HU) & _).
  exists e, l. split; [done|]. split; [done|].
  assert (e.2 !! "kind" = Some (VSet l)) as Hkind.
  { unfold kind_loc in Hl. destruct (e.2 !! "kind") as [[]|]; by simplify_eq. }
  split; [done|]. split; [done|].
  unfold edge_kind. by rewrite Hl, HU.
Qed.
End collapse_effects.

Lemma collapse_requires_kind_witness :
  ∃ ex, (compute_weighted_graph_from_multigraph
           (Nx 1%positive three_nodes [("a", "b", kind_attr 1); ("a", "c", ∅)])
           sample_kinds).1 = Raise ex.
Proof.
  apply (collapse_requires_kind
           (Nx 1%positive three_nodes [("a", "b", kind_attr 1); ("a", "c", ∅)])
           sample_kinds ("a", "c", ∅)).
  - apply elem_of_cons. right. apply list_elem_of_singleton. reflexivity.
  - reflexivity.
Defined.

Lemma collapse_shares_kind_sets_witness :
  ∃ H σ',
    compute_weighted_graph_from_multigraph sample_multigraph sample_kinds
    = (Ok H, σ')
    ∧ metas σ' = metas sample_kinds.
Proof.
  destruct (collapse_shares_kind_sets sample_multigraph sample_kinds
              sample_multigraph_collapsible) as (H & σ' & Hrun & _ & _ & Hm).
  by exists H, σ'.
Defined.
(** ** More on batch construction *)

Section batch_pairs.
Context {F : Type} `{!Floats F} (env : collaborators F).
Local Open Scope nat_scope.

Lemma batch_args_from (pdbs cs : list string) (ix : nat → nat) (k : nat) :
  (∀ i, ix i = k + i) →
  traverse
    (fun ip : nat * string =>
       match cs !! ip.1 with
       | Some c => Ok (ip.2, c)
       | None => Raise IndexError
       end)
    (imap (fun i pdb => (ix i, pdb)) pdbs)
  = if decide (k + length pdbs ≤ length cs ∨ pdbs = [])
    then Ok (zip pdbs (drop k cs)) else Raise IndexError.
Proof.
  revert ix k. induction pdbs as [|p pdbs IH]; intros ix k Hix.
  - cbn. rewrite decide_True by (by right). done.
  - cbn [imap traverse fst snd]. rewrite Hix, Nat.add_0_r.
    change (imap (_ ∘ S) pdbs) with (imap (fun i pdb => ((ix ∘ S) i, pdb)) pdbs).
    rewrite (IH (ix ∘ S) (S k)) by (intros i; cbn; rewrite Hix; lia).
    destruct (cs !! k) as [c|] eqn:Hc.
    + rewrite rbind_Ok. rewrite (drop_S cs c k Hc). cbn [zip zip_with length].
      destruct (decide (S k + length pdbs ≤ length cs ∨ pdbs = [])) as [Hd|Hd].
      * rewrite rbind_Ok. rewrite decide_True; [done|]. left.
        destruct Hd as [?| ->]; [lia|].
        apply lookup_lt_Some in Hc. simpl. lia.
      * rewrite decide_False; [done|]. intros [?|?]; [|done].
        apply Hd. left. lia.
    + apply lookup_ge_None in Hc.
      destruct (decide (k + length (p :: pdbs) ≤ length cs ∨ p :: pdbs = []))
        as [[?|?]|?]; [cbn [length] in *; lia|done|reflexivity].
Qed.

Lemma batch_args_lengths (pdbs cs : list string) :
  batch_args pdbs cs
  = if decide (length pdbs ≤ length cs) then Ok (zip pdbs cs) else Raise IndexError.
Proof.
  unfold batch_args. rewrite (batch_args_from pdbs cs (fun i => i) 0) by done.
  rewrite drop_0. cbn [Nat.add].
  destruct (decide (length pdbs ≤ length cs)) as [Hl|Hl].
  - rewrite decide_True by (by left). done.
  - rewrite decide_False; [done|]. intros [?| ->]; [done|].
    apply Hl. cbn. lia.
Qed.

(** X14. Chain selections are paired with the inputs by position. With
    list output and no output directory, the batch raises [IndexError]
    when there are fewer selections than inputs, and otherwise runs one
    task per input with the selection at the input's position, surplus
    selections being ignored. When there are fewer selections than
    inputs, the batch raises [IndexError] whatever the other options are,
    and nothing is written. *)
Theorem construct_graphs_mp_selections_by_position
    (codes : option (list string)) (paths cs : list string) config num_cores
    (return_dict : bool) (out_path : option string) (σ : store F) :
  construct_graphs_mp env codes (Some paths) (Some cs) config num_cores
    false None σ
  = (if decide (length paths ≤ length cs)
     then (Ok (AsList ((fun a => mp_graph_constructor env a false config σ)
                         <$> zip paths cs)), [])
     else (Raise IndexError, []))
  ∧ (length cs < length paths →
     construct_graphs_mp env codes (Some paths) (Some cs) config num_cores
       return_dict out_path σ
     = (Raise IndexError, [])).
Proof.
  split.
  - unfold construct_graphs_mp. rewrite batch_args_lengths.
    destruct codes; by case_decide.
  - intros Hlt. unfold construct_graphs_mp. rewrite batch_args_lengths.
    rewrite decide_False by lia. by destruct codes.
Qed.

Lemma list_to_map_reverse_last {V} (l : list (string * V)) (k : string) :
  (list_to_map (reverse l) : gmap string V) !! k
  = snd <$> list.last (filter (fun a => a.1 = k) l).
Proof.
  induction l as [|x l IH] using rev_ind; [done|].
  rewrite reverse_snoc. cbn [list_to_map foldr]. rewrite list.filter_app.
  destruct (decide (x.1 = k)) as [<-|Hne].
  - rewrite lookup_insert_eq. rewrite filter_cons_True by done.
    rewrite filter_nil. by rewrite last_snoc.
  - rewrite lookup_insert_ne by done. rewrite filter_cons_False by done.
    by rewrite filter_nil, app_nil_r.
Qed.

Lemma zip_fmap_zip {B} (f : string * string → B) (pdbs cs : list string) :
  zip pdbs (f <$> zip pdbs cs)
  = (fun a => (a.1, f a)) <$> zip pdbs cs.
Proof.
  revert cs. induction pdbs as [|p pdbs IH]; intros [|c cs]; try done.
  cbn. by rewrite IH.
Qed.

Lemma filter_fmap_key {B} (f : string * string → B)
    (l : list (string * string)) (k : string) :
  filter (fun b : string * B => b.1 = k) ((fun a => (a.1, f a)) <$> l)
  = (fun a => (a.1, f a)) <$> filter (fun a => a.1 = k) l.
Proof.
  induction l as [|a l IH]; [done|]. cbn [fmap list_fmap].
  destruct (decide (a.1 = k)) as [Heq|Hne].
  - rewrite !filter_cons_True by done. cbn [fmap list_fmap]. by rewrite IH.
  - by rewrite !filter_cons_False by done.
Qed.

(** X15. Dict output is keyed by the inputs, so an input that occurs more
    than once has one entry: the graph (or [None]) of the task at its last
    position, built with the chain selection of that position. An input
    that does not occur has no entry. *)
Theorem construct_graphs_mp_dict_last_wins
    (codes cs : list string) config num_cores (σ : store F) :
  length codes ≤ length cs →
  ∃ d,
    construct_graphs_mp env (Some codes) None (Some cs) config num_cores
      true None σ
    = (Ok (AsDict d), [])
    ∧ ∀ p, d !! p
           = (fun a => mp_graph_constructor env a true config σ)
               <$> list.last (filter (fun a => a.1 = p) (zip codes cs)).
Proof.
  intros Hlen. eexists. split.
  - unfold construct_graphs_mp. rewrite batch_args_lengths.
    rewrite decide_True by done. reflexivity.
  - intros p. rewrite list_to_map_reverse_last, zip_fmap_zip, filter_fmap_key.
    rewrite fmap_last. by destruct (list.last _).
Qed.
End batch_pairs.

Lemma construct_graphs_mp_selections_by_position_witness :
  construct_graphs_mp sample_env None (Some ["a.pdb"; "b.pdb"]) (Some ["A"])
    (default_config sample_env) 16 true (Some "out") empty_store
  = (Raise IndexError, []).
Proof.
  apply (construct_graphs_mp_selections_by_position sample_env None
           ["a.pdb"; "b.pdb"] ["A"] (default_config sample_env) 16 true
           (Some "out") empty_store).
  simpl. lia.
Defined.

Lemma construct_graphs_mp_dict_last_wins_witness :
  ∃ d,
    construct_graphs_mp sample_env (Some ["1ABC"; "1ABC"]) None (Some ["A"; "B"])
      (default_config sample_env) 16 true None empty_store
    = (Ok (AsDict d), [])
    ∧ d !! "1ABC"
      = Some (mp_graph_constructor sample_env ("1ABC", "B") true
                (default_config sample_env) empty_store).
Proof.
  destruct (construct_graphs_mp_dict_last_wins sample_env ["1ABC"; "1ABC"]
              ["A"; "B"] (default_config sample_env) 16 empty_store)
    as (d & Hrun & Hd); [simpl; lia|].
  exists d. split; [exact Hrun|]. rewrite Hd. reflexivity.
Defined.
(** ** The secondary-structure graph *)

Lemma pretty_N_go_ne_nil (x : N) (s : string) : s ≠ "" → pretty_N_go x s ≠ "".
Proof.
  revert s. induction (N.lt_wf_0 x) as [x _ IH]; intros s Hs.
  destruct (decide (0 < x)%N) as [Hx|Hx].
  - rewrite pretty_N_go_step by done. apply IH; [|done].
    apply N.div_lt; lia.
  - assert (x = 0%N) as -> by lia. by rewrite pretty_N_go_0.
Qed.

Lemma pretty_nat_ne_nil (n : nat) : pretty n ≠ "".
Proof.
  unfold pretty, pretty_nat, pretty, pretty_N.
  case_decide; [done|].
  rewrite pretty_N_go_step by lia. by apply pretty_N_go_ne_nil.
Qed.

Lemma string_app_ne_nil (s t : string) : t ≠ "" → s +:+ t ≠ "".
Proof. intros Ht. by destruct s. Qed.

Lemma number_groups_of_runs_ne_nil {A} `{EqDecision A} (str : A → string)
    (l : list A) (s : string) :
  s ∈ number_groups_of_runs str l → s ≠ "".
Proof.
  unfold number_groups_of_runs. intros Hs.
  apply list_elem_of_lookup in Hs as [i Hi].
  apply lookup_zip_with_Some in Hi as (v & c & -> & _ & _).
  apply string_app_ne_nil, pretty_nat_ne_nil.
Qed.

Lemma sum_counts_by_key {A} (key : A → string) (l : list A) (ks : list string) :
  NoDup ks → (∀ x, x ∈ l → key x ∈ ks) →
  sum_list_with (fun k => length (filter (fun x => key x = k) l)) ks = length l.
Proof.
  intros Hnd. induction l as [|x l IH]; intros Hks.
  - induction ks as [|k ks IHk]; [done|]. cbn [sum_list_with].
    apply list.NoDup_cons in Hnd as [_ Hnd]. rewrite IHk; [done|done|].
    intros y Hy. by apply elem_of_nil in Hy.
  - cbn [length]. rewrite <- IH by (intros; apply Hks; by right).
    assert (key x ∈ ks) as Hin by (apply Hks; by left).
    clear IH Hks. induction ks as [|k ks IHk]; [by apply elem_of_nil in Hin|].
    apply list.NoDup_cons in Hnd as [Hk Hnd]. cbn [sum_list_with].
    destruct (decide (key x = k)) as [Heq|Hne].
    + rewrite filter_cons_True by done. cbn [length].
      assert (sum_list_with (fun k0 => length (filter (fun x0 => key x0 = k0) (x :: l))) ks
              = sum_list_with (fun k0 => length (filter (fun x0 => key x0 = k0) l)) ks)
        as ->; [|lia].
      clear IHk Hnd Hin. induction ks as [|k' ks IHk']; [done|].
      cbn [sum_list_with]. rewrite IHk'.
      * rewrite filter_cons_False; [done|].
        intros Heq'. apply Hk. rewrite <- Heq, Heq'. by left.
      * intros Hin. apply Hk. by right.
    + rewrite filter_cons_False by done.
      apply elem_of_cons in Hin as [?|Hin]; [done|].
      rewrite (IHk Hnd Hin). lia.
Qed.

Section segment_graph.
Context {F : Type} `{EqDecision F} (env : collaborators F).
Implicit Types (hn : list (string * attrs F)) (g : Graph F).

Lemma ss_labels_traverse (ns : list (string * attrs F)) :
  (∀ nd, nd ∈ ns → is_Some (nd.2 !! "ss")) →
  traverse ss_of_node ns
  = Ok (omap (fun nd : string * attrs F => nd.2 !! "ss") ns).
Proof.
  induction ns as [|nd ns IH]; intros Hall; [done|].
  cbn [traverse omap list_omap]. destruct (Hall nd) as [v Hv]; [by left|].
  assert (ss_of_node nd = Ok v) as -> by (unfold ss_of_node; by rewrite Hv).
  rewrite rbind_Ok, IH by (intros; apply Hall; by right).
  by rewrite Hv.
Qed.

Lemma first_char_traverse hn :
  (∀ n, n ∈ hn.*1 → n ≠ "") →
  traverse
    (fun nd : string * attrs F =>
       match nd.1 with
       | String a _ => Ok (nd.1, <["ss" := VStr (String a "")]> (nd.2))
       | EmptyString => Raise IndexError
       end) hn
  = Ok ((fun nd : string * attrs F =>
           (nd.1, <["ss" := VStr (first_char nd.1)]> (nd.2))) <$> hn).
Proof.
  induction hn as [|nd hn IH]; intros Hne; [done|].
  cbn [traverse fmap list_fmap]. rewrite IH by (intros; apply Hne; by right).
  assert (nd.1 ≠ "") as Hnd by (apply Hne; by left).
  destruct nd as [[|a n] d]; [done|]. done.
Qed.

Lemma ss_edge_step (idx : list (string * string)) hn
    (acc : list (string * string * attrs F)) (e : string * string * attrs F) :
  (∀ s, s ∈ idx.*2 → s ∈ hn.*1) →
  ss_edge idx (hn, acc) e
  = Ok (hn, match ss_edge_of idx e with
            | Some e' => acc ++ [e']
            | None => acc
            end).
Proof.
  intros Hhn. destruct e as [[u v] d].
  assert (∀ n s, (list_to_map idx : gmap string string) !! n = Some s →
                 s ∈ hn.*1) as Hin.
  { intros n s Hs. apply Hhn. apply elem_of_list_to_map_2 in Hs.
    apply list_elem_of_fmap. by exists (n, s). }
  unfold ss_edge, ss_edge_of, series_get, dict_get. cbn [fst snd].
  destruct ((list_to_map idx : gmap string string) !! u) as [su|] eqn:Hu;
    [|reflexivity].
  destruct ((list_to_map idx : gmap string string) !! v) as [sv|] eqn:Hv;
    [|reflexivity].
  destruct (d !! "kind") as [k|]; [|reflexivity].
  rewrite !rbind_Ok. cbn [mbind option_bind].
  rewrite (ensure_node_present hn su) by (by eapply Hin).
  rewrite (ensure_node_present hn sv) by (by eapply Hin).
  reflexivity.
Qed.

Lemma ss_edge_fold (idx : list (string * string)) hn
    (es acc : list (string * string * attrs F)) :
  (∀ s, s ∈ idx.*2 → s ∈ hn.*1) →
  foldR (ss_edge idx) (hn, acc) es = Ok (hn, acc ++ omap (ss_edge_of idx) es).
Proof.
  intros Hhn. revert acc. induction es as [|e es IH]; intros acc.
  - by rewrite app_nil_r.
  - cbn [foldR omap list_omap]. rewrite ss_edge_step by done.
    rewrite rbind_Ok, IH. destruct (ss_edge_of idx e); [|done].
    by rewrite <- app_assoc.
Qed.

(** X16. The secondary-structure graph of a source graph whose nodes all
    carry an [ss] label, in full. The segment identifiers of the nodes are
    filtered as the options say; the graph has one node per distinct
    identifier left, in order of first appearance, with the source nodes
    of the segment as [constituent_residues], their number as
    [residue_counts] and the first character of the identifier as [ss];
    every retained source node is counted in exactly one segment; there is
    one edge per source edge that has a [kind] and whose two endpoints
    were retained, and the other edges are skipped without an error. The
    graph shares the metadata object of the source, whose [node_type] now
    reads [secondary_structure]. Indexing the first character of an
    identifier never fails. *)
Theorem compute_secondary_structure_graph_contents g allowable
    (remove_non_ss remove_self_loops : bool) (σ : store F)
    (m : graph_meta F) (contains : string → bool) :
  (∀ nd, nd ∈ nodes g → is_Some (nd.2 !! "ss")) →
  ss_filter env allowable = Some contains →
  metas σ !! graph g = Some m →
  let idx := ss_index env g remove_non_ss contains in
  let es := omap (ss_edge_of idx) (edges_data g) in
  compute_secondary_structure_graph env g allowable remove_non_ss
    remove_self_loops false σ
  = (Ok (inl (Nx (graph g)
                ((fun k => (k, ss_attrs idx k)) <$> pd_unique idx.*2)
                (if remove_self_loops then drop_self_loops es else es))),
     Store (<[graph g := set_node_type m "secondary_structure"]> (metas σ))
           (kinds σ))
  ∧ sum_list_with (fun k => length (filter (fun ns => ns.2 = k) idx))
      (pd_unique idx.*2)
    = length idx.
Proof.
  intros Hall Hfilter Hm idx es. split.
  2:{ apply sum_counts_by_key; [apply pd_unique_NoDup|].
      intros x Hx. apply pd_unique_elem_of. by apply list_elem_of_fmap_2. }
  unfold compute_secondary_structure_graph.
  rewrite mbind_M. unfold lift at 1. rewrite (ss_labels_traverse _ Hall).
  cbv beta iota zeta.
  set (idx0 := if remove_non_ss
               then filter (fun ns : string * string => contains_dash ns.2 = false)
                      (zip (nodes g).*1
                         (number_groups_of_runs (py_str env)
                            (omap (fun nd : string * attrs F => nd.2 !! "ss") (nodes g))))
               else zip (nodes g).*1
                      (number_groups_of_runs (py_str env)
                         (omap (fun nd : string * attrs F => nd.2 !! "ss") (nodes g)))).
  assert (idx = filter (fun ns : string * string => contains ns.2 = true) idx0)
    as Hidx by done.
  assert ((match allowable with
           | Some (a :: rest) =>
               contains0 ← lift (lift_ext (re_contains env (String.concat "|" (a :: rest))));
               mret (filter (fun ns : string * string => contains0 ns.2 = true) idx0)
           | _ => mret idx0
           end : M F _) σ = (Ok idx, σ)) as Hsel.
  { unfold ss_filter in Hfilter. destruct allowable as [[|a rest]|].
    - injection Hfilter as <-. rewrite Hidx.
      rewrite filter_all; [done|]. by intros.
    - rewrite mbind_M. unfold lift at 1.
      destruct (re_contains env _) as [?|f]; [done|]. injection Hfilter as <-.
      by rewrite Hidx.
    - injection Hfilter as <-. rewrite Hidx.
      rewrite filter_all; [done|]. by intros. }
  rewrite mbind_M, Hsel. cbv beta iota zeta.
  assert (add_nodes_from ([] : list (string * attrs F))
            ((fun ns : string * string => (ns.2, ∅)) <$> idx)
          = (fun n => (n, ∅)) <$> pd_unique idx.*2) as ->.
  { change ([] : list (string * attrs F))
      with ((fun n => (n, (∅ : attrs F))) <$> ([] : list string)).
    assert (((fun ns : string * string => (ns.2, (∅ : attrs F))) <$> idx)
            = (fun c => (c, ∅)) <$> idx.*2) as ->
      by (by rewrite <- list_fmap_compose).
    by rewrite add_nodes_from_empty_attrs. }
  rewrite <- list_fmap_compose.
  rewrite mbind_M. unfold lift at 1. rewrite first_char_traverse.
  2:{ intros n Hn. rewrite <- !list_fmap_compose in Hn.
      apply list_elem_of_fmap in Hn as (k & -> & Hk). cbn.
      rewrite pd_unique_elem_of in Hk.
      apply list_elem_of_fmap in Hk as ([n s] & -> & Hns). cbn.
      rewrite Hidx in Hns. apply list_elem_of_filter in Hns as [_ Hns].
      assert ((n, s) ∈ zip (nodes g).*1
                (number_groups_of_runs (py_str env)
                   (omap (fun nd : string * attrs F => nd.2 !! "ss") (nodes g))))
        as Hz.
      { unfold idx0 in Hns. destruct remove_non_ss; [|done].
        by apply list_elem_of_filter in Hns as [_ ?]. }
      apply elem_of_zip_r in Hz.
      by apply number_groups_of_runs_ne_nil in Hz. }
  cbv beta iota. rewrite <- list_fmap_compose.
  rewrite mbind_M. unfold get_meta at 1. rewrite Hm. cbv beta iota.
  rewrite mbind_M. unfold set_meta at 1. cbv beta iota.
  rewrite mbind_M. unfold lift at 1. rewrite ss_edge_fold.
  - cbv beta iota. cbn [fst snd app]. reflexivity.
  - intros s Hs. rewrite <- list_fmap_compose.
    assert ((fst ∘ ((fun nd : string * attrs F =>
                       (nd.1, <["ss" := VStr (first_char nd.1)]> (nd.2)))
                    ∘ ((fun nd : string * attrs F =>
                          (nd.1, <["constituent_residues" :=
                                     VList (filter (fun ns : string * string => ns.2 = nd.1) idx).*1]>
                                   (<["residue_counts" :=
                                        VInt (Z.of_nat (length (filter (fun ns : string * string => ns.2 = nd.1) idx)))]>
                                      (nd.2))))
                       ∘ (fun n : string => (n, (∅ : attrs F))))))
            <$> pd_unique idx.*2 = pd_unique idx.*2) as ->
      by apply list_fmap_id.
    by apply pd_unique_elem_of.
Qed.
End segment_graph.

Lemma compute_secondary_structure_graph_contents_witness :
  ∃ h σ',
    compute_secondary_structure_graph sample_env labelled_graph None false
      false false two_chain_store
    = (Ok (inl h), σ')
    ∧ (nodes h).*1 = ["H1"; "E1"]
    ∧ (edges h).*1 = [("H1", "E1")].
Proof.
  destruct (compute_secondary_structure_graph_contents sample_env
              labelled_graph None false false two_chain_store
              (meta_with_chains ["A"; "B"]) (fun _ => true)) as [Hrun _].
  - intros nd Hnd. unfold labelled_graph in Hnd. cbn [nodes] in Hnd.
    repeat (apply elem_of_cons in Hnd as [->|Hnd]); [| | |by apply elem_of_nil in Hnd];
      by eexists.
  - reflexivity.
  - reflexivity.
  - eexists _, _. split; [exact Hrun|]. split; by vm_compute.
Defined.
(** ** Construction, end to end *)

Section construction.
Context {F : Type} `{!Floats F} (env : collaborators F).

Lemma with_sequences_fields (df : list (row F)) (cs : list string)
    (m : graph_meta F) :
  let m' := with_sequences env df m cs in
  name m' = name m ∧ chain_ids m' = chain_ids m ∧ pdb_df m' = pdb_df m
  ∧ raw_pdb_df m' = raw_pdb_df m ∧ node_type m' = node_type m
  ∧ coords m' = coords m ∧ config m' = config m
  ∧ atomic_dist_mat m' = atomic_dist_mat m ∧ dist_mat m' = dist_mat m
  ∧ ∀ c, sequences m' !! c
         = if decide (c ∈ cs) then Some (row_sequence env df c)
           else sequences m !! c.
Proof.
  cbv zeta. revert m. induction cs as [|c cs IH]; intros m.
  - repeat (split; [done|]). intros c. by rewrite decide_False by apply not_elem_of_nil.
  - unfold with_sequences in *. cbn [foldl].
    destruct (IH (set_sequence m c (row_sequence env df c)))
      as (-> & -> & -> & -> & -> & -> & -> & -> & -> & Hseq).
    repeat (split; [done|]). intros c'. rewrite Hseq. cbn [sequences set_sequence].
    destruct (decide (c' = c)) as [->|Hne].
    + rewrite (decide_True (P := c ∈ c :: cs)) by (by left).
      rewrite lookup_insert_eq. by case_decide.
    + rewrite lookup_insert_ne by done.
      destruct (decide (c' ∈ cs)) as [Hin|Hin].
      * by rewrite decide_True by (by right).
      * rewrite decide_False; [done|].
        intros [?|?]%elem_of_cons; done.
Qed.

Lemma sequence_loop_store (df : list (row F)) (l : loc) (cs : list string)
    (σ : store F) (m : graph_meta F) :
  all_named env df → metas σ !! l = Some m →
  foldM (fun (_ : unit) c =>
           s ← lift (chain_sequence env df c);
           m ← get_meta l;
           set_meta l (set_sequence m c s)) () cs σ
  = (Ok (), Store (<[l := with_sequences env df m cs]> (metas σ)) (kinds σ)).
Proof.
  intros Hall. revert σ m. induction cs as [|c cs IH]; intros σ m Hm.
  - cbn [foldM with_sequences foldl]. rewrite insert_id by done. by destruct σ.
  - cbn [foldM]. rewrite !mbind_M. unfold lift at 1.
    rewrite (chain_sequence_rows env df c Hall).
    rewrite mbind_M. unfold get_meta at 1. rewrite Hm. unfold set_meta at 1.
    rewrite (IH _ (set_sequence m c (row_sequence env df c)))
      by (simpl; apply lookup_insert_eq).
    cbn [metas kinds]. by rewrite insert_insert_eq.
Qed.

Lemma add_nodes_to_graph_stored (G : Graph F) (verbose : bool) (σ : store F)
    (m : graph_meta F) :
  metas σ !! graph G = Some m →
  add_nodes_to_graph G None verbose σ
  = add_nodes_to_graph G (Some (pdb_df m)) verbose σ.
Proof.
  intros Hm. unfold add_nodes_to_graph. rewrite !mbind_M.
  unfold get_meta at 1. rewrite Hm. reflexivity.
Qed.

(** X17. Construction without edge and annotation functions, end to end.
    When the structure is read and every residue name of the processed
    table has a one-letter code, the call returns a graph without edges
    whose nodes are those of the processed table (one per distinct node
    identifier, with the attributes of the last row of the identifier);
    its metadata is a new object that holds the processed table, the
    table as read, the granularity as [node_type], the chains in order of
    first appearance with their sequences, and the configuration, in
    which the processing functions passed to the call are recorded but
    which the call does not apply to the table. At [atom] granularity the
    distance matrix is that of the table as read, not of the processed
    table; otherwise it is that of the processed table. The other
    metadata objects and the kind sets are as before. The configuration
    object of the caller is outside this statement: the call assigns its
    function-list fields in place, and the configuration recorded in the
    metadata is that object after the assignment. *)
Theorem construct_graph_without_edges (c : ProteinGraphConfig)
    (name pdb_path pdb_code : option string) (chain_selection : string)
    (df_processing_funcs : option (list string)) (σ : store F)
    (raw : pandas_pdb F) (df : list (row F)) :
  edge_construction_functions c = Some [] →
  node_metadata_functions c = None →
  graph_metadata_functions c = None →
  edge_metadata_functions c = None →
  read_pdb_to_dataframe env pdb_path pdb_code (verbose c) (granularity c)
  = Ok raw →
  process_dataframe raw None None (granularity c) chain_selection
    (insertions c) true [] = Ok df →
  all_named env df →
  ∃ g σ' m,
    construct_graph env (Some c) name pdb_path pdb_code chain_selection
      df_processing_funcs None None None None σ
    = (Ok g, σ')
    ∧ nodes g = nodes_of_table df ∧ edges g = ∅
    ∧ graph g ∉ dom (metas σ)
    ∧ metas σ' = <[graph g := m]> (metas σ) ∧ kinds σ' = kinds σ
    ∧ pdb_df m = df ∧ raw_pdb_df m = ATOM raw
    ∧ node_type m = granularity c
    ∧ chain_ids m = pd_unique (chain_id <$> df)
    ∧ (∀ ch, ch ∈ chain_ids m → sequences m !! ch = Some (row_sequence env df ch))
    ∧ config m
      = Some (Config (granularity c) (insertions c) (verbose c)
                (or_else (protein_df_processing_functions c) df_processing_funcs)
                (Some []) None None None)
    ∧ (if decide (granularity c = "atom")
       then atomic_dist_mat m = Some (compute_distmat env (ATOM raw))
            ∧ dist_mat m = None
       else dist_mat m = Some (compute_distmat env df)
            ∧ atomic_dist_mat m = None).
Proof.
  intros He Hn Hg Hem Hread Hproc Hall.
  assert (exactly_one pdb_code pdb_path = true) as Hone.
  { destruct (exactly_one pdb_code pdb_path) eqn:Hx; [done|].
    unfold read_pdb_to_dataframe in Hread. by rewrite Hx in Hread. }
  unfold construct_graph. rewrite Hone. unfold negb. cbv zeta.
  cbn [default granularity insertions verbose protein_df_processing_functions
       edge_construction_functions node_metadata_functions
       graph_metadata_functions edge_metadata_functions].
  unfold id. rewrite He, Hn, Hg, Hem. cbn [or_else].
  set (cfg := Config (granularity c) (insertions c) (verbose c)
                (or_else (protein_df_processing_functions c) df_processing_funcs)
                (Some []) None None None).
  rewrite mbind_M. unfold lift at 1. rewrite Hread. cbv beta iota.
  rewrite mbind_M. unfold lift at 1. rewrite Hproc. cbv beta iota.
  (* initialise_graph_with_metadata *)
  rewrite mbind_M. unfold initialise_graph_with_metadata at 1. rewrite Hone.
  unfold negb. cbv zeta.
  rewrite mbind_M. unfold alloc_meta at 1. cbv beta iota.
  set (l := fresh (dom (metas σ))).
  rewrite mbind_M. unfold get_meta at 1. cbn [metas kinds].
  rewrite lookup_insert_eq.
  rewrite mbind_M. unfold set_meta at 1. cbn [metas kinds].
  rewrite insert_insert_eq.
  match goal with |- context [set_node_type ?m0 (granularity c)] =>
    set (m1 := set_node_type m0 (granularity c)) end.
  rewrite mbind_M.
  rewrite (sequence_loop_store df l (pd_unique (chain_id <$> df)) _ m1 Hall)
    by (simpl; apply lookup_insert_eq).
  cbn [metas kinds]. rewrite insert_insert_eq.
  set (m2 := with_sequences env df m1 (pd_unique (chain_id <$> df))).
  destruct (with_sequences_fields df (pd_unique (chain_id <$> df)) m1)
    as (Hname & Hids & Hdf & Hraw & Hty & Hco & Hcfg & Hadm & Hdm & Hseq).
  fold m2 in Hname, Hids, Hdf, Hraw, Hty, Hco, Hcfg, Hadm, Hdm, Hseq.
  cbv [mret M_ret]. cbv beta iota.
  (* add_nodes_to_graph *)
  rewrite mbind_M.
  rewrite (add_nodes_to_graph_stored (Nx l [] ∅) false _ m2)
    by (simpl; apply lookup_insert_eq).
  rewrite add_nodes_to_graph_nodes by done. cbn [graph edges].
  rewrite Hdf. cbn [pdb_df m1 set_node_type]. fold (nodes_of_table df).
  (* the configuration *)
  rewrite mbind_M. unfold get_meta at 1. cbn [graph metas kinds].
  rewrite lookup_insert_eq.
  rewrite mbind_M. unfold set_meta at 1. cbn [graph metas kinds].
  rewrite insert_insert_eq.
  rewrite mbind_M. cbv [mret M_ret]. cbv beta iota.
  (* compute_edges *)
  rewrite mbind_M. unfold compute_edges at 1.
  rewrite mbind_M. unfold get_meta at 1. cbn [graph metas kinds].
  rewrite lookup_insert_eq. cbn [config set_config].
  rewrite mbind_M. cbn [granularity cfg].
  destruct (decide (granularity c = "atom")) as [Hat|Hat].
  - unfold set_meta at 1. cbn [graph metas kinds foldM]. rewrite insert_insert_eq.
    cbv [mret M_ret]. cbv beta iota.
    eexists _, _, _. split; [reflexivity|]. cbn [nodes edges graph].
    split; [done|]. split; [done|].
    split; [apply is_fresh|]. split; [done|]. split; [done|].
    cbn [pdb_df raw_pdb_df node_type chain_ids sequences config atomic_dist_mat
         dist_mat set_atomic_dist_mat set_config].
    rewrite ?Hdf, ?Hraw, ?Hty, ?Hids, ?Hadm, ?Hdm.
    split; [done|]. split; [done|]. split; [done|]. split; [done|].
    split; [|done]. intros ch Hch. rewrite Hseq. by rewrite decide_True.
  - unfold set_meta at 1. cbn [graph metas kinds foldM]. rewrite insert_insert_eq.
    cbv [mret M_ret]. cbv beta iota.
    eexists _, _, _. split; [reflexivity|]. cbn [nodes edges graph].
    split; [done|]. split; [done|].
    split; [apply is_fresh|]. split; [done|]. split; [done|].
    cbn [pdb_df raw_pdb_df node_type chain_ids sequences config atomic_dist_mat
         dist_mat set_dist_mat set_config].
    rewrite ?Hdf, ?Hraw, ?Hty, ?Hids, ?Hadm, ?Hdm.
    split; [done|]. split; [done|]. split; [done|]. split; [done|].
    split; [|done]. intros ch Hch. rewrite Hseq. by rewrite decide_True.
Qed.
End construction.

Lemma construct_graph_without_edges_witness :
  ∃ g σ',
    construct_graph sample_env (Some (default_config sample_env)) None None
      (Some "1ABC") "all" None None None None None empty_store
    = (Ok g, σ')
    ∧ (nodes g).*1 = ["A:ALA:1"; "A:GLY:2"; "B:ALA:1"]
    ∧ edges g = ∅.
Proof.
  destruct (construct_graph_without_edges sample_env (default_config sample_env)
              None None (Some "1ABC") "all" None empty_store sample_raw
              (CA_rows (ATOM sample_raw)))
    as (g & σ' & m & Hrun & Hnodes & Hedges & _).
  - reflexivity.
  - reflexivity.
  - reflexivity.
  - reflexivity.
  - reflexivity.
  - by vm_compute.
  - intros r Hr. vm_compute in Hr.
    repeat (apply elem_of_cons in Hr as [->|Hr]); try (by eexists);
      by apply elem_of_nil in Hr.
  - exists g, σ'. split; [exact Hrun|]. split; [|exact Hedges].
    rewrite Hnodes. by vm_compute.
Defined.
(** ** The default processing of a structure *)

Section default_processing.
Context {F : Type} `{!Floats F}.
Implicit Types (df : list (row F)) (r : row F).

Lemma erased_elem_of (l1 l2 : list (row F)) r :
  erase_coords <$> l1 `sublist_of` erase_coords <$> l2 → r ∈ l1 →
  ∃ r2, r2 ∈ l2 ∧ erase_coords r2 = erase_coords r.
Proof.
  intros Hsub Hr.
  assert (erase_coords r ∈ erase_coords <$> l2) as Hin.
  { eapply elem_of_sublist; [|exact Hsub]. by apply list_elem_of_fmap_2. }
  apply list_elem_of_fmap in Hin as (r2 & Heq & Hr2). by exists r2.
Qed.

Lemma erase_coords_fields r1 r2 :
  erase_coords r1 = erase_coords r2 →
  atom_name r1 = atom_name r2 ∧ chain_id r1 = chain_id r2.
Proof.
  destruct r1, r2. unfold erase_coords, set_coords. cbn. intros [=]. by subst.
Qed.

Lemma resolved_sublist (l1 l2 : list (row F)) :
  l1 `sublist_of` l2 → resolved l2 → resolved l1.
Proof.
  intros Hsub [Hnd Hrows]. split.
  - eapply sublist_NoDup; [exact Hnd|]. by apply fmap_sublist.
  - intros r Hr. apply Hrows. by eapply elem_of_sublist.
Qed.

Lemma select_chains_sublist df cs : select_chains df cs `sublist_of` df.
Proof.
  unfold select_chains, filter_dataframe. case_decide; [apply sublist_filter|done].
Qed.

(** X18. The default processing (no custom functions, no heteroatoms to
    keep) always returns a table, and its rows are rows of the [ATOM]
    table in their order, up to the coordinates that centroid granularity
    replaces: rows of the [HETATM] table never appear. With
    deprotonation no row is an atom named [H]; at a granularity other
    than [atom] every row has the atom name of the granularity ([CA] for
    centroids); unless insertions are kept, the table has one row per
    chain, residue number and atom name; and with a chain selection other
    than [all] every row is of a chain named by one character of the
    selection. *)
Theorem process_dataframe_default_rows (raw : pandas_pdb F)
    (granularity chain_selection : string) (insertions deprotonate : bool) :
  ∃ df,
    process_dataframe raw None None granularity chain_selection insertions
      deprotonate [] = Ok df
    ∧ erase_coords <$> df `sublist_of` erase_coords <$> ATOM raw
    ∧ (granularity ≠ "centroids" → df `sublist_of` ATOM raw)
    ∧ (deprotonate = true → ∀ r, r ∈ df → atom_name r ≠ "H")
    ∧ (granularity ≠ "atom" →
       ∀ r, r ∈ df →
            atom_name r
            = if decide (granularity = "centroids") then "CA" else granularity)
    ∧ (insertions = false → resolved df)
    ∧ (chain_selection ≠ "all" →
       ∀ r, r ∈ df → chain_id r ∈ chars chain_selection).
Proof.
  unfold process_dataframe.
  set (atoms1 := if deprotonate then deprotonate_structure (ATOM raw)
                 else ATOM raw).
  set (atoms2 := if decide (granularity = "atom") then atoms1
                 else if decide (granularity = "centroids")
                      then convert_structure_to_centroids atoms1
                      else subset_structure_to_atom_type atoms1 granularity).
  set (df3 := if insertions then atoms2 else remove_insertions atoms2).
  exists (select_chains df3 chain_selection). split; [done|].
  assert (atoms1 `sublist_of` ATOM raw) as H1.
  { unfold atoms1. destruct deprotonate; [|done].
    unfold deprotonate_structure, filter_dataframe. apply sublist_filter. }
  assert (erase_coords <$> atoms2 `sublist_of` erase_coords <$> atoms1) as H2.
  { unfold atoms2. case_decide; [done|]. case_decide.
    - rewrite convert_structure_to_centroids_rows.
      apply fmap_sublist. unfold CA_rows. apply sublist_filter.
    - apply fmap_sublist. unfold subset_structure_to_atom_type, filter_dataframe.
      apply sublist_filter. }
  assert (granularity ≠ "centroids" → atoms2 `sublist_of` atoms1) as H2'.
  { intros Hg. unfold atoms2. case_decide; [done|]. rewrite decide_False by done.
    unfold subset_structure_to_atom_type, filter_dataframe. apply sublist_filter. }
  assert (df3 `sublist_of` atoms2) as H3.
  { unfold df3. destruct insertions; [done|]. apply remove_insertions_sublist. }
  pose proof (select_chains_sublist df3 chain_selection) as H4.
  assert (select_chains df3 chain_selection `sublist_of` atoms2) as H34
    by (by etrans).
  assert (erase_coords <$> select_chains df3 chain_selection
          `sublist_of` erase_coords <$> atoms1) as H24.
  { etrans; [|exact H2]. by apply fmap_sublist. }
  split; [|split; [|split; [|split; [|split]]]].
  - etrans; [exact H24|]. by apply fmap_sublist.
  - intros Hg. etrans; [exact H34|]. etrans; [by apply H2'|done].
  - intros -> r Hr.
    destruct (erased_elem_of _ _ r H24 Hr) as (r1 & Hr1 & Heq).
    apply erase_coords_fields in Heq as [<- _].
    unfold atoms1, deprotonate_structure, filter_dataframe in Hr1.
    apply list_elem_of_filter in Hr1 as [Hn _].
    apply bool_decide_eq_false in Hn. intros HH. apply Hn.
    rewrite HH. by left.
  - intros Hg r Hr.
    assert (r ∈ atoms2) as Hr2 by (by eapply elem_of_sublist).
    unfold atoms2 in Hr2. rewrite decide_False in Hr2 by done.
    destruct (decide (granularity = "centroids")) as [Hc|Hc].
    + assert (erase_coords r ∈ erase_coords <$> CA_rows atoms1) as Hin.
      { rewrite <- convert_structure_to_centroids_rows.
        by apply list_elem_of_fmap_2. }
      apply list_elem_of_fmap in Hin as (r1 & Heq & Hr1).
      apply erase_coords_fields in Heq as [-> _].
      unfold CA_rows in Hr1. by apply list_elem_of_filter in Hr1 as [? _].
    + unfold subset_structure_to_atom_type in Hr2.
      apply filter_dataframe_elem_of in Hr2 as [Hn _].
      by apply list_elem_of_singleton in Hn.
  - intros ->. apply (resolved_sublist _ (remove_insertions atoms2)); [done|].
    apply remove_insertions_resolved.
  - intros Hcs r Hr. unfold select_chains in Hr.
    rewrite decide_True in Hr by done.
    by apply filter_dataframe_elem_of in Hr as [? _].
Qed.
End default_processing.

(** ** Construction without edge functions *)

Section edge_functions_required.
Context {F : Type} `{!Floats F} (env : collaborators F).

Lemma bind_raises_l {A B} (m : M F A) (f : A → M F B) (σ : store F) :
  (∃ e, (m σ).1 = Raise e) → ∃ e, ((m ≫= f) σ).1 = Raise e.
Proof.
  intros [e He]. rewrite mbind_M. destruct (m σ) as [[a|e'] σ']; [done|].
  by exists e'.
Qed.

Lemma bind_raises_r {A B} (m : M F A) (f : A → M F B) (σ : store F) :
  (∀ a σ', ∃ e, (f a σ').1 = Raise e) → ∃ e, ((m ≫= f) σ).1 = Raise e.
Proof.
  intros Hf. rewrite mbind_M. destruct (m σ) as [[a|e'] σ']; [apply Hf|].
  by exists e'.
Qed.

Lemma compute_edges_without_functions (G : Graph F) (σ : store F) :
  ∃ e, (compute_edges env G None σ).1 = Raise e.
Proof.
  unfold compute_edges. apply bind_raises_r. intros m σ1.
  apply bind_raises_r. intros _ σ2. by exists TypeError.
Qed.

(** X19. A construction needs edge functions: when neither the
    configuration nor the call names any (both lists are [None]), the
    call returns no graph whatever the structure is; it raises, at the
    latest when the edges are computed. *)
Theorem construct_graph_needs_edge_functions
    (config : option ProteinGraphConfig)
    (name pdb_path pdb_code : option string) (chain_selection : string)
    (df_processing_funcs edge_annotation_funcs node_annotation_funcs
       graph_annotation_funcs : option (list string)) (σ : store F) :
  edge_construction_functions (default (default_config env) config) = None →
  ∃ e, (construct_graph env config name pdb_path pdb_code chain_selection
          df_processing_funcs None edge_annotation_funcs
          node_annotation_funcs graph_annotation_funcs σ).1
       = Raise e.
Proof.
  intros He. unfold construct_graph.
  destruct (negb (exactly_one pdb_code pdb_path)); [by eexists|].
  cbv zeta. cbn [edge_construction_functions]. rewrite He. cbn [or_else].
  do 7 (apply bind_raises_r; intros ? ?).
  apply bind_raises_l. apply compute_edges_without_functions.
Qed.
End edge_functions_required.

Lemma construct_graph_needs_edge_functions_witness :
  ∃ e, (construct_graph sample_env
          (Some (Config "CA" false false None None None None None)) None None
          (Some "1ABC") "all" None None None None None empty_store).1
       = Raise e.
Proof.
  apply (construct_graph_needs_edge_functions sample_env
           (Some (Config "CA" false false None None None None None)) None None
           (Some "1ABC") "all" None None None None empty_store).
  reflexivity.
Defined.
(** ** Writing the graphs of a batch *)

Section batch_files.
Context {F : Type} `{!Floats F} (env : collaborators F).

Lemma write_graphs_all (out_path : string)
    (graphs : list (option (Graph F * store F))) written :
  Forall (fun b => is_Some (pickle_entry out_path b)) graphs →
  write_graphs out_path graphs written
  = (Ok (), written ++ omap (pickle_entry out_path) graphs).
Proof.
  intros Hall. revert written.
  induction Hall as [|b graphs [entry Hb] _ IH]; intros written.
  - by rewrite app_nil_r.
  - cbn [omap list_omap]. rewrite Hb. unfold pickle_entry in Hb.
    destruct b as [[g σ]|]; [|done]. cbn [write_graphs].
    cbn [mbind option_bind fst snd] in Hb.
    destruct (metas σ !! graph g) as [m|]; [|done].
    cbn [mbind option_bind] in Hb. injection Hb as <-.
    rewrite IH. by rewrite <- app_assoc.
Qed.

(** X20. With an output directory and no failed task, the batch returns
    what it returns without the directory and writes one file per input,
    in input order, each named after the [name] entry of the metadata of
    its graph. *)
Theorem construct_graphs_mp_writes_all (codes : list string) config num_cores
    (return_dict : bool) (out_path : string) (σ : store F) :
  let graphs :=
    (fun c => mp_graph_constructor env (c, "all") true config σ) <$> codes in
  Forall (fun b => is_Some (pickle_entry out_path b)) graphs →
  construct_graphs_mp env (Some codes) None None config num_cores return_dict
    (Some out_path) σ
  = ((construct_graphs_mp env (Some codes) None None config num_cores
        return_dict None σ).1,
     omap (pickle_entry out_path) graphs)
  ∧ length (omap (pickle_entry out_path) graphs) = length codes.
Proof.
  intros graphs Hall. split.
  - unfold construct_graphs_mp. rewrite batch_args_default.
    rewrite <- list_fmap_compose.
    change ((fun a => mp_graph_constructor env a true config σ)
            ∘ (fun pdb => (pdb, "all")))
      with (fun c => mp_graph_constructor env (c, "all") true config σ).
    fold graphs. rewrite (write_graphs_all out_path graphs [] Hall).
    cbn [app]. by destruct return_dict.
  - rewrite <- (length_fmap (fun c => mp_graph_constructor env (c, "all") true config σ) codes).
    fold graphs. clear -Hall. induction Hall as [|b l [entry Hb] _ IH]; [done|].
    cbn [omap list_omap length]. rewrite Hb. cbn [length]. by rewrite IH.
Qed.
End batch_files.

Lemma construct_graphs_mp_writes_all_witness :
  (construct_graphs_mp sample_env (Some ["1ABC"; "1ABC"]) None None
     (default_config sample_env) 16 false (Some "out") empty_store).2.*1
  = ["out/1ABC.pickle"; "out/1ABC.pickle"].
Proof.
  destruct (construct_graphs_mp_writes_all sample_env ["1ABC"; "1ABC"]
              (default_config sample_env) 16 false "out" empty_store)
    as [-> _].
  - apply (bool_decide_unpack _). by vm_compute.
  - by vm_compute.
Defined.
